(** * Payroll export parsers: a shallow embedding and its properties

    The development follows the four scripts of the repository:

    - [scripts/gerar_csv.py]: the block parser [parse_file] with its
      pending-event buffer and exclusion lists (module [GerarCsv]);
    - [scripts/gerar_csv_11802004.py]: the fixed-block variant
      (module [GerarCsv11802004]);
    - [scripts/gerar_csv_1802002.py]: the JSON-line variant and its
      normaliser [parse_valor] (module [GerarCsv1802002]);
    - [scripts/unificar_csvs.py]: the merge tool (module [UnificarCsvs]).

    Conventions of the embedding.

    - A Python [str] is a [string]; the model covers ASCII text, the
      characters for which [str.strip], [str.upper], [\s] and
      [re.IGNORECASE] are defined below.
    - A [dict] is a [gmap]; a list is a [list]; [None] is [None].
    - [decimal.Decimal] is a coefficient and an exponent, and arithmetic
      rounds to the 28 significant digits of the default context
      (module [PyDecimal]).
    - A compiled regular expression is a term of type [Regex.re]; matching
      is the leftmost, greedy, backtracking search of Python's [re]. *)

From Stdlib Require Import ZArith String Ascii List Bool Lia.
From stdpp Require Import gmap strings list fin_maps.
Import ListNotations.

(** Concatenation of strings unfolds on a constructor, as it does in the
    Standard Library. *)
Arguments String.append !s1 s2 : simpl nomatch.

(** ** Python string operations *)

Module PyStr.

Definition code (c : ascii) : nat := nat_of_ascii c.

(** [str.isspace] on ASCII: TAB, LF, VT, FF, CR, FS, GS, RS, US, SPACE. *)
Definition isspace (c : ascii) : bool :=
  let n := code c in
  ((9 <=? n) && (n <=? 13)) || ((28 <=? n) && (n <=? 32)).

Definition isdigit (c : ascii) : bool :=
  let n := code c in (48 <=? n) && (n <=? 57).

Definition isupper (c : ascii) : bool :=
  let n := code c in (65 <=? n) && (n <=? 90).

Definition islower (c : ascii) : bool :=
  let n := code c in (97 <=? n) && (n <=? 122).

(** [\w] on ASCII: letters, digits and the underscore. *)
Definition isword (c : ascii) : bool :=
  isdigit c || isupper c || islower c || Ascii.eqb c "_".

Definition lower_char (c : ascii) : ascii :=
  if isupper c then ascii_of_nat (code c + 32) else c.

Definition upper_char (c : ascii) : ascii :=
  if islower c then ascii_of_nat (code c - 32) else c.

Fixpoint upper (s : string) : string :=
  match s with
  | EmptyString => EmptyString
  | String c s' => String (upper_char c) (upper s')
  end.

Fixpoint lower (s : string) : string :=
  match s with
  | EmptyString => EmptyString
  | String c s' => String (lower_char c) (lower s')
  end.

Fixpoint lstrip (s : string) : string :=
  match s with
  | String c s' => if isspace c then lstrip s' else s
  | EmptyString => EmptyString
  end.

(** [rstrip] drops the longest all-whitespace suffix. *)
Fixpoint rstrip (s : string) : string :=
  match s with
  | EmptyString => EmptyString
  | String c s' =>
      match rstrip s' with
      | EmptyString => if isspace c then EmptyString else String c EmptyString
      | r => String c r
      end
  end.

Definition strip (s : string) : string := rstrip (lstrip s).

(** [old in s] for a one-character [old]. *)
Fixpoint contains (c : ascii) (s : string) : bool :=
  match s with
  | EmptyString => false
  | String d s' => Ascii.eqb d c || contains c s'
  end.

(** [s.replace(old, new)] for a one-character [old]. *)
Fixpoint replace (old : ascii) (new : string) (s : string) : string :=
  match s with
  | EmptyString => EmptyString
  | String d s' =>
      if Ascii.eqb d old then new +:+ replace old new s'
      else String d (replace old new s')
  end.

(** [s.rfind(c)]: the highest index of [c], or [-1]. *)
Fixpoint rfind_from (i : Z) (c : ascii) (s : string) : Z :=
  match s with
  | EmptyString => (-1)%Z
  | String d s' =>
      let r := rfind_from (i + 1)%Z c s' in
      if (0 <=? r)%Z then r else if Ascii.eqb d c then i else (-1)%Z
  end.

Definition rfind (c : ascii) (s : string) : Z := rfind_from 0%Z c s.

(** Python truthiness of a [str] and of an [Optional[str]]. *)
Definition truthy (s : string) : bool :=
  match s with EmptyString => false | _ => true end.

Definition truthy_opt (o : option string) : bool :=
  match o with Some s => truthy s | None => false end.

(** [o or ""] *)
Definition or_empty (o : option string) : string :=
  match o with Some (String c s) => String c s | _ => EmptyString end.

Fixpoint forallb_str (p : ascii -> bool) (s : string) : bool :=
  match s with
  | EmptyString => true
  | String c s' => p c && forallb_str p s'
  end.

Fixpoint filter_str (p : ascii -> bool) (s : string) : string :=
  match s with
  | EmptyString => EmptyString
  | String c s' => if p c then String c (filter_str p s') else filter_str p s'
  end.

Fixpoint take (n : nat) (s : string) : string :=
  match n, s with
  | S n', String c s' => String c (take n' s')
  | _, _ => EmptyString
  end.

End PyStr.

(** ** Regular expressions

    The patterns of the scripts use literals, character classes, greedy
    [*], [+] and [?] over them, one named group [v], [$] and [\b]. A
    pattern is a term of [re]; [run] is a backtracking matcher in
    continuation-passing style: the continuation is the rest of the
    pattern, and a failing continuation makes a greedy operator give a
    character back, as Python's matcher does. *)

Module Regex.

Inductive re : Type :=
| Eps
| Lit (c : ascii)              (* a literal, compared under IGNORECASE *)
| Cls (p : ascii -> bool)      (* one character of a class *)
| Star (p : ascii -> bool)     (* greedy [p*] over a class *)
| Opt (r : re)                 (* greedy [r?] *)
| Cat (r1 r2 : re)
| Grp (r : re)                 (* the named group [(?P<v>...)] *)
| Eol                          (* [$]: the end, or before a final newline *)
| Wb.                          (* [\b] *)

Definition Plus (p : ascii -> bool) : re := Cat (Cls p) (Star p).

Fixpoint lits (s : string) : re :=
  match s with
  | EmptyString => Eps
  | String c s' => Cat (Lit c) (lits s')
  end.

Section Matcher.
Context {A : Type}.

(** What the continuation sees: the character before the position, the
    text after it, and the group captured so far. *)
Definition cont := option ascii -> string -> option string -> option A.

Fixpoint star (p : ascii -> bool) (prev : option ascii) (s : string)
    (k : option ascii -> string -> option A) : option A :=
  match s with
  | String c s' =>
      if p c then
        match star p (Some c) s' k with
        | Some x => Some x
        | None => k prev s
        end
      else k prev s
  | EmptyString => k prev s
  end.

Definition consumed (s s' : string) : string :=
  PyStr.take (String.length s - String.length s') s.

Definition is_word_opt (o : option ascii) : bool :=
  match o with Some c => PyStr.isword c | None => false end.

Definition head (s : string) : option ascii :=
  match s with String c _ => Some c | EmptyString => None end.

Definition at_eol (s : string) : bool :=
  match s with
  | EmptyString => true
  | String c EmptyString => Ascii.eqb c "010"
  | _ => false
  end.

Fixpoint run (r : re) (prev : option ascii) (s : string)
    (cap : option string) (k : cont) : option A :=
  match r with
  | Eps => k prev s cap
  | Lit c =>
      match s with
      | String d s' =>
          if Ascii.eqb (PyStr.lower_char d) (PyStr.lower_char c)
          then k (Some d) s' cap else None
      | EmptyString => None
      end
  | Cls p =>
      match s with
      | String d s' => if p d then k (Some d) s' cap else None
      | EmptyString => None
      end
  | Star p => star p prev s (fun pv s' => k pv s' cap)
  | Opt r1 =>
      match run r1 prev s cap k with
      | Some x => Some x
      | None => k prev s cap
      end
  | Cat r1 r2 => run r1 prev s cap (fun pv s' cap' => run r2 pv s' cap' k)
  | Grp r1 => run r1 prev s cap (fun pv s' _ => k pv s' (Some (consumed s s')))
  | Eol => if at_eol s then k prev s cap else None
  | Wb => if xorb (is_word_opt prev) (is_word_opt (head s))
          then k prev s cap else None
  end.
End Matcher.

(** The words of a pattern, with the group before and after: the
    declarative reading of a pattern, against which [run] is checked
    (lemma [run_sound]). The context conditions of [$] and [\b] are left
    out: both match the empty word. *)
Fixpoint sem (r : re) (w : string) (cap cap' : option string) : Prop :=
  match r with
  | Eps | Eol | Wb => w = EmptyString /\ cap' = cap
  | Lit c =>
      exists d, w = String d EmptyString
                /\ PyStr.lower_char d = PyStr.lower_char c /\ cap' = cap
  | Cls p => exists d, w = String d EmptyString /\ p d = true /\ cap' = cap
  | Star p => PyStr.forallb_str p w = true /\ cap' = cap
  | Opt r1 => sem r1 w cap cap' \/ (w = EmptyString /\ cap' = cap)
  | Cat r1 r2 =>
      exists w1 w2 c1, w = w1 +:+ w2 /\ sem r1 w1 cap c1 /\ sem r2 w2 c1 cap'
  | Grp r1 => (exists c1, sem r1 w cap c1) /\ cap' = Some w
  end.

(** [pattern.match(s)]: the match is anchored at the start of [s]; the
    result is the text of group [v] ([None] inside when the pattern has
    no group). *)
Definition match_ (r : re) (s : string) : option (option string) :=
  run r None s None (fun _ _ cap => Some cap).

(** [m.group("v")] of a successful match. *)
Definition group_v (r : re) (s : string) : option string :=
  match match_ r s with
  | Some (Some v) => Some v
  | _ => None
  end.

Definition matches (r : re) (s : string) : bool :=
  match match_ r s with Some _ => true | None => false end.

(** The character classes of the scripts. *)
Definition ws : ascii -> bool := PyStr.isspace.
Definition dquote : ascii := "034".
Definition not_quote_cr_lf (c : ascii) : bool :=
  negb (Ascii.eqb c dquote || Ascii.eqb c "013" || Ascii.eqb c "010").
Definition sign_char (c : ascii) : bool := Ascii.eqb c "-" || Ascii.eqb c "+".
Definition dot_or_comma (c : ascii) : bool := Ascii.eqb c "." || Ascii.eqb c ",".
Definition quote : re := Cls (fun c => Ascii.eqb c dquote).

Fixpoint seq (rs : list re) : re :=
  match rs with
  | [] => Eps
  | r :: rs' => Cat r (seq rs')
  end.

(** [^\s*label:\s*Q?(?P<v>[^Q\r\n]+)Q?\s*$], where [Q] stands for the
    double quote character. *)
Definition field (label : string) : re :=
  seq [Star ws; lits label; Lit ":"; Star ws; Opt quote;
       Grp (Plus not_quote_cr_lf); Opt quote; Star ws; Eol].

(** [[-+]?[0-9]+(?:[.,][0-9]+)?] *)
Definition number : re :=
  seq [Opt (Cls sign_char); Plus PyStr.isdigit;
       Opt (Cat (Cls dot_or_comma) (Plus PyStr.isdigit))].

(** The label that starts a line: what a pattern of the form
    [^\s*label...] requires of the text, whatever follows. *)
Fixpoint prefix_ci (l t : string) : bool :=
  match l, t with
  | EmptyString, _ => true
  | String a l', String b t' =>
      Ascii.eqb (PyStr.lower_char b) (PyStr.lower_char a) && prefix_ci l' t'
  | String _ _, EmptyString => false
  end.

Definition has_label (l s : string) : bool := prefix_ci l (PyStr.lstrip s).

(** Two labels agree when one is a prefix of the other, case apart. *)
Fixpoint agree_ci (a b : string) : bool :=
  match a, b with
  | String x a', String y b' =>
      Ascii.eqb (PyStr.lower_char x) (PyStr.lower_char y) && agree_ci a' b'
  | _, _ => true
  end.

(** A pattern that starts with [^\s*label]. *)
Definition labelled (l : string) (rest : re) : re :=
  Cat (Star ws) (Cat (lits l) rest).

End Regex.

(** ** [decimal.Decimal]

    A finite decimal is a signed coefficient and an exponent; its value is
    [coef * 10 ^ expo]. The constructor from a string is exact; [add] and
    [mul] compute the exact result and round it to the precision of the
    default context, 28 significant digits, ties to even
    ([ROUND_HALF_EVEN]). The sign of a zero and the exponent limits of the
    context ([Emax = 999999]) are not represented. *)

Module PyDecimal.
Local Open Scope Z_scope.

Record Finite : Type := mkFinite { coef : Z; expo : Z }.

Inductive Decimal : Type :=
| Fin (d : Finite)
| Inf (negative : bool)
| NaN (negative signaling : bool) (diag : string).

(** *** The constructor [Decimal(str)] *)

(** The longest prefix of characters of a class, and the rest. *)
Fixpoint span (p : ascii -> bool) (s : string) : string * string :=
  match s with
  | String c s' =>
      if p c then let (a, b) := span p s' in (String c a, b)
      else (EmptyString, s)
  | EmptyString => (EmptyString, EmptyString)
  end.

Definition digit_value (c : ascii) : Z := Z.of_nat (PyStr.code c) - 48.

Fixpoint digits_value_acc (acc : Z) (s : string) : Z :=
  match s with
  | EmptyString => acc
  | String c s' => digits_value_acc (10 * acc + digit_value c) s'
  end.

(** [int(s)] for a string of digits; [0] for the empty string. *)
Definition digits_value (s : string) : Z := digits_value_acc 0 s.

Definition strlen (s : string) : Z := Z.of_nat (String.length s).

(** An optional sign: [true] for a minus. *)
Definition take_sign (s : string) : bool * string :=
  match s with
  | String c s' =>
      if Ascii.eqb c "-" then (true, s')
      else if Ascii.eqb c "+" then (false, s')
      else (false, s)
  | EmptyString => (false, s)
  end.

Definition apply_sign (neg : bool) (n : Z) : Z := if neg then - n else n.

(** The exponent part: nothing, or [E], an optional sign and digits. *)
Definition parse_exponent (s : string) : option Z :=
  match s with
  | EmptyString => Some 0
  | String c s' =>
      if Ascii.eqb (PyStr.lower_char c) "e" then
        let (neg, s1) := take_sign s' in
        let (ds, s2) := span PyStr.isdigit s1 in
        match ds, s2 with
        | String _ _, EmptyString => Some (apply_sign neg (digits_value ds))
        | _, _ => None
        end
      else None
  end.

(** A number: digits, an optional fraction, an optional exponent, with at
    least one digit before the exponent. *)
Definition parse_number (neg : bool) (s : string) : option Decimal :=
  let (ip, s1) := span PyStr.isdigit s in
  let (fp, s2) :=
    match s1 with
    | String c s1' =>
        if Ascii.eqb c "." then span PyStr.isdigit s1' else (EmptyString, s1)
    | EmptyString => (EmptyString, s1)
    end in
  if PyStr.truthy ip || PyStr.truthy fp then
    match parse_exponent s2 with
    | Some e =>
        Some (Fin {| coef := apply_sign neg (digits_value (ip +:+ fp));
                     expo := e - strlen fp |})
    | None => None
    end
  else None.

(** [s] without its prefix [p], when it starts with [p]. *)
Fixpoint after_prefix (p s : string) : option string :=
  match p, s with
  | EmptyString, _ => Some s
  | String a p', String b s' =>
      if Ascii.eqb a b then after_prefix p' s' else None
  | String _ _, EmptyString => None
  end.

(** An infinity, or a quiet or signaling NaN with its diagnostic digits. *)
Definition parse_special (neg : bool) (s : string) : option Decimal :=
  let l := PyStr.lower s in
  if String.eqb l "inf" || String.eqb l "infinity" then Some (Inf neg)
  else
    match after_prefix "nan" l with
    | Some d =>
        if PyStr.forallb_str PyStr.isdigit d then Some (NaN neg false d) else None
    | None =>
        match after_prefix "snan" l with
        | Some d =>
            if PyStr.forallb_str PyStr.isdigit d then Some (NaN neg true d)
            else None
        | None => None
        end
    end.

(** [Decimal(s)]: [None] stands for the exception [InvalidOperation].
    Surrounding whitespace and underscores are dropped first. *)
Definition of_string (s : string) : option Decimal :=
  let s := PyStr.replace "_" "" (PyStr.strip s) in
  let (neg, body) := take_sign s in
  match parse_number neg body with
  | Some d => Some d
  | None => parse_special neg body
  end.

Definition of_Z (n : Z) : Finite := {| coef := n; expo := 0 |}.

(** *** Arithmetic in the default context *)

Definition prec : Z := 28.

Fixpoint ndigits_fuel (fuel : nat) (n : Z) : Z :=
  match fuel with
  | O => 1
  | S f => if n <? 10 then 1 else 1 + ndigits_fuel f (n / 10)
  end.

(** The number of decimal digits of [n >= 0]. *)
Definition ndigits (n : Z) : Z := ndigits_fuel (S (Z.to_nat (Z.log2 n))) n.

(** Rounding of an exact result to [prec] digits, ties to even. *)
Definition fix_ (d : Finite) : Finite :=
  let n := Z.abs (coef d) in
  if n <? 10 ^ prec then d
  else
    let k := ndigits n - prec in
    let q := n / 10 ^ k in
    let r := n mod 10 ^ k in
    let half := 5 * 10 ^ (k - 1) in
    let q' := if (half <? r) || ((r =? half) && Z.odd q) then q + 1 else q in
    if q' =? 10 ^ prec
    then {| coef := Z.sgn (coef d) * 10 ^ (prec - 1); expo := expo d + k + 1 |}
    else {| coef := Z.sgn (coef d) * q'; expo := expo d + k |}.

(** The exact sum and product, before rounding. *)
Definition add_exact (a b : Finite) : Finite :=
  let e := Z.min (expo a) (expo b) in
  {| coef := coef a * 10 ^ (expo a - e) + coef b * 10 ^ (expo b - e);
     expo := e |}.

Definition mul_exact (a b : Finite) : Finite :=
  {| coef := coef a * coef b; expo := expo a + expo b |}.

(** [a + b] and [a * b] of Python. *)
Definition add (a b : Finite) : Finite := fix_ (add_exact a b).
Definition mul (a b : Finite) : Finite := fix_ (mul_exact a b).

(** Numeric equality, [a == b] of Python: equal values, whatever the
    exponents. *)
Definition eqv (a b : Finite) : Prop :=
  let e := Z.min (expo a) (expo b) in
  coef a * 10 ^ (expo a - e) = coef b * 10 ^ (expo b - e).

Definition eqvb (a b : Finite) : bool :=
  let e := Z.min (expo a) (expo b) in
  coef a * 10 ^ (expo a - e) =? coef b * 10 ^ (expo b - e).

End PyDecimal.

(** ** [scripts/gerar_csv.py]: the block parser *)

Module GerarCsv.
Import PyStr Regex PyDecimal.
Local Open Scope string_scope.

(** *** The compiled patterns *)

Definition RE_MATRICULA : re := field "matricula".
Definition RE_NOME : re := field "nome".
Definition RE_CPF : re := field "cpf".
(** [^\s*valor:\s*Q?(?P<v>[-+]?[0-9]+(?:[.,][0-9]+)?)Q?\s*$] *)
Definition RE_VALOR : re :=
  seq [Star ws; lits "valor"; Lit ":"; Star ws; Opt quote;
       Grp number; Opt quote; Star ws; Eol].
Definition RE_NUMERO_EVENTO : re := field "numeroEvento".
Definition RE_TIPO_EVENTO : re := field "tipoEvento".
(** [^\s*funcionarios:\s*Array\b] *)
Definition RE_FUNCIONARIOS_ARRAY : re :=
  seq [Star ws; lits "funcionarios"; Lit ":"; Star ws; lits "Array"; Wb].
Definition RE_NUMERO_ORGANOGRAMA : re := field "numeroOrganograma".
Definition RE_TIPO_PROVENTO : re := field "tipoProvento".

(** *** [parse_decimal] *)

Definition parse_decimal (s : string) : option Decimal :=
  let s := replace " " "" (strip s) in
  if negb (truthy s) then None
  else
    let s :=
      if contains "," s && contains "." s then
        if (rfind "." s <? rfind "," s)%Z
        then replace "," "." (replace "." "" s)
        else replace "," "" s
      else if contains "," s then replace "," "." s
      else s in
    of_string s.



(** *** The data of [parse_file] *)

(** A buffered contribution [(mat, nome, cpf, val)]. *)
Record Contrib : Type := mkContrib {
  c_mat : string; c_nome : string; c_cpf : string; c_val : Finite }.

(** A detail record [(matricula, nome, cpf, numeroEvento, tipoEvento,
    valorEvento, numeroOrganograma)]. *)
Record Detail : Type := mkDetail {
  d_matricula : string; d_nome : string; d_cpf : string;
  d_numeroEvento : string; d_tipoEvento : string;
  d_valorEvento : Finite; d_numeroOrganograma : string }.

(** The three results of [parse_file]. *)
Record Output : Type := mkOutput {
  totals : gmap string Finite;
  meta : gmap string (string * string);
  details : list Detail }.

(** The local variables that survive from one line to the next. *)
Record Cursor : Type := mkCursor {
  current_matricula : option string;
  current_nome : string;
  current_cpf : string;
  current_event_type : option string;
  current_event_number : option string;
  within_funcionarios : bool;
  current_numero_organograma : option string }.

(** The buffer of the current event. *)
Record Pending : Type := mkPending {
  pending_event_contribs : list Contrib;
  pending_event_number : option string;
  pending_event_type : option string;
  pending_event_organograma : option string }.

Record State : Type := mkState {
  out : Output; cur : Cursor; pend : Pending }.

Definition initial : State :=
  {| out := {| totals := ∅; meta := ∅; details := [] |};
     cur := {| current_matricula := None; current_nome := "";
               current_cpf := ""; current_event_type := None;
               current_event_number := None; within_funcionarios := false;
               current_numero_organograma := None |};
     pend := {| pending_event_contribs := []; pending_event_number := None;
                pending_event_type := None;
                pending_event_organograma := None |} |}.

Definition no_pending : Pending :=
  {| pending_event_contribs := []; pending_event_number := None;
     pending_event_type := None; pending_event_organograma := None |}.

(** *** Exclusion lists and the flush *)

Definition EXCLUDE_PROVENTO_EVENTS : list string :=
  [ "295"; "320"; "340"; "341"; "342"; "360"; "590"; "595"; "860"; "890";
    "960"; "1015"; "1115"; "1405"; "1545"; "1755"; "1765"; "1955"; "2000";
    "2001"; "2003"; "2004"; "2006"; "2008"; "2009"; "2012"; "2013"; "2014";
    "2015"; "2016"; "2017"; "2018"; "2019"; "2020"; "2021"; "2023"; "2024";
    "2025"; "2026"; "2028"; "2034"; "30109" ].

Definition EXCLUDE_DESCONTO_EVENTS : list string := [ "8340"; "9005"; "9015" ].

Section Parser.
(** The two module-level lists are parameters of the parser; the
    script's values are the two constants above. *)
Variable exclude_provento : list string.
Variable exclude_desconto : list string.

(** [num not in lst], where [num] may be [None]. *)
Definition not_in (num : option string) (lst : list string) : bool :=
  match num with
  | Some n => negb (existsb (String.eqb n) lst)
  | None => true
  end.

Definition is_empty_list (lst : list string) : bool :=
  match lst with [] => true | _ => false end.

Definition _allowed_event (num typ : option string) : bool :=
  let ptype := upper (or_empty typ) in
  if String.eqb ptype "PROVENTO" then
    is_empty_list exclude_provento || not_in num exclude_provento
  else if String.eqb ptype "DESCONTO" then
    is_empty_list exclude_desconto || not_in num exclude_desconto
  else false.

(** One turn of the loop over the buffered contributions. *)
Definition apply_contrib (num ptype org : string) (sign : Finite)
    (o : Output) (c : Contrib) : Output :=
  let applied := mul (c_val c) sign in
  {| totals :=
       <[ c_mat c := add (default (of_Z 0) (totals o !! c_mat c)) applied ]>
         (totals o);
     meta := meta o;
     details :=
       details o ++
       [ {| d_matricula := c_mat c; d_nome := c_nome c; d_cpf := c_cpf c;
            d_numeroEvento := num; d_tipoEvento := ptype;
            d_valorEvento := applied; d_numeroOrganograma := org |} ] |}.

(** The body shared by the two branches once their guard holds: emit
    the buffer unless the event is excluded, then clear it. *)
Definition flush (o : Output) (p : Pending) : Output * Pending :=
  let ptype := or_empty (pending_event_type p) in
  let sign := if String.eqb ptype "PROVENTO" then of_Z 1 else of_Z (-1) in
  let o' :=
    if _allowed_event (pending_event_number p) (pending_event_type p) then
      fold_left
        (apply_contrib (or_empty (pending_event_number p)) ptype
           (or_empty (pending_event_organograma p)) sign)
        (pending_event_contribs p) o
    else o in
  (o', no_pending).

Definition nonempty {X : Type} (l : list X) : bool :=
  match l with [] => false | _ => true end.

(** *** The branches of the loop body *)

Definition on_numero_evento (st : State) (v : string) : State :=
  let n := strip v in
  let c := cur st in
  let c' := {| current_matricula := current_matricula c;
               current_nome := current_nome c;
               current_cpf := current_cpf c;
               current_event_type := current_event_type c;
               current_event_number := Some n;
               within_funcionarios := false;
               current_numero_organograma := current_numero_organograma c |} in
  let p := pend st in
  let p' := {| pending_event_contribs := pending_event_contribs p;
               pending_event_number := Some n;
               pending_event_type := pending_event_type p;
               pending_event_organograma := pending_event_organograma p |} in
  if truthy_opt (pending_event_type p') && nonempty (pending_event_contribs p')
  then let (o', p'') := flush (out st) p' in
       {| out := o'; cur := c'; pend := p'' |}
  else {| out := out st; cur := c'; pend := p' |}.

Definition on_tipo_evento (st : State) (v : string) : State :=
  let t := upper (strip v) in
  let c := cur st in
  let c' := {| current_matricula := current_matricula c;
               current_nome := current_nome c;
               current_cpf := current_cpf c;
               current_event_type := Some t;
               current_event_number := current_event_number c;
               within_funcionarios := false;
               current_numero_organograma := current_numero_organograma c |} in
  let p := pend st in
  let p' := {| pending_event_contribs := pending_event_contribs p;
               pending_event_number := pending_event_number p;
               pending_event_type := Some t;
               pending_event_organograma := pending_event_organograma p |} in
  if truthy_opt (pending_event_number p') && nonempty (pending_event_contribs p')
  then let (o', p'') := flush (out st) p' in
       {| out := o'; cur := c'; pend := p'' |}
  else {| out := out st; cur := c'; pend := p' |}.

Definition on_numero_organograma (st : State) (v : string) : State :=
  let c := cur st in
  {| out := out st;
     cur := {| current_matricula := current_matricula c;
               current_nome := current_nome c;
               current_cpf := current_cpf c;
               current_event_type := current_event_type c;
               current_event_number := current_event_number c;
               within_funcionarios := within_funcionarios c;
               current_numero_organograma := Some (strip v) |};
     pend := pend st |}.

Definition on_funcionarios (st : State) : State :=
  let c := cur st in
  {| out := out st;
     cur := {| current_matricula := current_matricula c;
               current_nome := current_nome c;
               current_cpf := current_cpf c;
               current_event_type := current_event_type c;
               current_event_number := current_event_number c;
               within_funcionarios := true;
               current_numero_organograma := current_numero_organograma c |};
     pend := {| pending_event_contribs := [];
                pending_event_number := None;
                pending_event_type := None;
                pending_event_organograma := current_numero_organograma c |} |}.

(** [totals.setdefault(mat, Decimal("0"))] *)
Definition setdefault_zero (mat : string) (t : gmap string Finite)
    : gmap string Finite :=
  match t !! mat with
  | Some _ => t
  | None => <[ mat := of_Z 0 ]> t
  end.

Definition set_meta (o : Output) (mat nome cpf : string) : Output :=
  {| totals := totals o; meta := <[ mat := (nome, cpf) ]> (meta o);
     details := details o |}.

Definition on_matricula (st : State) (v : string) : State :=
  let mat := strip v in
  let c := cur st in
  let c' := {| current_matricula := Some mat;
               current_nome := current_nome c;
               current_cpf := current_cpf c;
               current_event_type := current_event_type c;
               current_event_number := current_event_number c;
               within_funcionarios := within_funcionarios c;
               current_numero_organograma := current_numero_organograma c |} in
  let o := out st in
  let o1 :=
    if within_funcionarios c && truthy mat
    then {| totals := setdefault_zero mat (totals o); meta := meta o;
            details := details o |}
    else o in
  let o2 :=
    if truthy mat && (truthy (current_nome c) || truthy (current_cpf c))
    then set_meta o1 mat (current_nome c) (current_cpf c)
    else o1 in
  {| out := o2; cur := c'; pend := pend st |}.

Definition on_nome (st : State) (v : string) : State :=
  let nome := strip v in
  let c := cur st in
  let c' := {| current_matricula := current_matricula c;
               current_nome := nome;
               current_cpf := current_cpf c;
               current_event_type := current_event_type c;
               current_event_number := current_event_number c;
               within_funcionarios := within_funcionarios c;
               current_numero_organograma := current_numero_organograma c |} in
  let o' :=
    match current_matricula c with
    | Some (String a m) => set_meta (out st) (String a m) nome (current_cpf c)
    | _ => out st
    end in
  {| out := o'; cur := c'; pend := pend st |}.

Definition on_cpf (st : State) (v : string) : State :=
  let cpf := strip v in
  let c := cur st in
  let c' := {| current_matricula := current_matricula c;
               current_nome := current_nome c;
               current_cpf := cpf;
               current_event_type := current_event_type c;
               current_event_number := current_event_number c;
               within_funcionarios := within_funcionarios c;
               current_numero_organograma := current_numero_organograma c |} in
  let o' :=
    match current_matricula c with
    | Some (String a m) => set_meta (out st) (String a m) (current_nome c) cpf
    | _ => out st
    end in
  {| out := o'; cur := c'; pend := pend st |}.

(** The amount branch for the matched token [v]: lines 186 to 189. A
    token for which [parse_decimal] gives [None] adds nothing. The token
    of [RE_VALOR] is a plain number, for which [parse_decimal] is a finite
    decimal (lemma [RE_VALOR_token_finite] below), so the case of a
    special value does not arise. *)
Definition on_valor (st : State) (mat : string) (v : string) : State :=
  match parse_decimal v with
  | Some (Fin val) =>
      let c := cur st in
      let '(nome, cpf) :=
        default (current_nome c, current_cpf c) (meta (out st) !! mat) in
      let p := pend st in
      {| out := out st; cur := c;
         pend := {| pending_event_contribs :=
                      pending_event_contribs p ++
                      [ {| c_mat := mat; c_nome := nome; c_cpf := cpf;
                           c_val := val |} ];
                    pending_event_number := pending_event_number p;
                    pending_event_type := pending_event_type p;
                    pending_event_organograma := pending_event_organograma p |} |}
  | _ => st
  end.

(** [a or b] on two match results. *)
Definition or_match (a b : option string) : option string :=
  match a with Some v => Some v | None => b end.

(** The body of [for ln in lines]. *)
Definition step (st : State) (ln : string) : State :=
  match group_v RE_NUMERO_EVENTO ln with
  | Some v => on_numero_evento st v
  | None =>
  match group_v RE_NUMERO_ORGANOGRAMA ln with
  | Some v => on_numero_organograma st v
  | None =>
  match or_match (group_v RE_TIPO_EVENTO ln) (group_v RE_TIPO_PROVENTO ln) with
  | Some v => on_tipo_evento st v
  | None =>
  let st := if matches RE_FUNCIONARIOS_ARRAY ln then on_funcionarios st else st in
  match group_v RE_MATRICULA ln with
  | Some v => on_matricula st v
  | None =>
  match group_v RE_NOME ln with
  | Some v => on_nome st v
  | None =>
  match group_v RE_CPF ln with
  | Some v => on_cpf st v
  | None =>
  match within_funcionarios (cur st), current_matricula (cur st) with
  | true, Some (String a m) =>
      match group_v RE_VALOR ln with
      | Some v => on_valor st (String a m) v
      | None => st
      end
  | _, _ => st
  end end end end end end end.

Definition run_lines (st : State) (lines : list string) : State :=
  fold_left step lines st.

(** [parse_file] on the lines read from the file. *)
Definition parse_lines (lines : list string) : Output :=
  out (run_lines initial lines).

End Parser.

(** The lines of a text file opened in text mode: a line ends at LF, CR or
    CR LF, and [rstrip] removes the terminator. *)
Fixpoint file_lines_acc (acc : string) (s : string) : list string :=
  match s with
  | EmptyString =>
      match acc with EmptyString => [] | _ => [acc] end
  | String c s' =>
      if Ascii.eqb c "010" then acc :: file_lines_acc "" s'
      else if Ascii.eqb c "013" then
        match s' with
        | String d s'' =>
            if Ascii.eqb d "010" then acc :: file_lines_acc "" s''
            else acc :: file_lines_acc "" s'
        | EmptyString => [acc]
        end
      else file_lines_acc (acc +:+ String c "") s'
  end.

Definition file_lines (content : string) : list string :=
  file_lines_acc "" content.

(** [parse_file] with the script's exclusion lists, on the content of the
    file at [input_path]. *)
Definition parse_file (content : string) : Output :=
  parse_lines EXCLUDE_PROVENTO_EVENTS EXCLUDE_DESCONTO_EVENTS
    (file_lines content).

(** A text file with the given lines, each ended by LF. *)
Fixpoint unlines (lines : list string) : string :=
  match lines with
  | [] => ""
  | l :: ls => l +:+ String "010" (unlines ls)
  end.

(** *** The quantities that the properties compare *)

(** The signed amounts of the detail records of one employee, in the
    order of emission. *)
Definition detail_amounts (m : string) (ds : list Detail) : list Finite :=
  map d_valorEvento (filter (fun d => d_matricula d = m) ds).

(** Their sum with Python's [+], from [Decimal("0")], left to right. *)
Definition sum_ctx (l : list Finite) : Finite := fold_left add l (of_Z 0).

(** Their exact sum. *)
Definition sum_exact (l : list Finite) : Finite := fold_left add_exact l (of_Z 0).

(** A decimal whose coefficient has at most 28 digits. *)
Definition fits (d : Finite) : bool := (Z.abs (coef d) <? 10 ^ prec)%Z.

(** Every running exact sum from [acc] on has at most 28 digits. *)
Fixpoint running_fit_from (acc : Finite) (l : list Finite) : bool :=
  match l with
  | [] => true
  | a :: l' => fits (add_exact acc a) && running_fit_from (add_exact acc a) l'
  end.

Definition running_fit (l : list Finite) : bool := running_fit_from (of_Z 0) l.

(** The employee blocks of an input: an identifier line, then a name
    line, then a tax-id line, with any lines that are none of the three
    before, between and after them. [read_blocks] returns the blocks in
    the order of the input, or [None] when the input is not made of such
    blocks. *)
Inductive Expect : Type :=
| ExpMatricula
| ExpNome (mat : string)
| ExpCpf (mat nome : string).

Fixpoint read_blocks (e : Expect) (lines : list string)
    : option (list (string * (string * string))) :=
  match lines with
  | [] => match e with ExpMatricula => Some [] | _ => None end
  | ln :: rest =>
      match group_v RE_MATRICULA ln, group_v RE_NOME ln, group_v RE_CPF ln, e with
      | None, None, None, _ => read_blocks e rest
      | Some m, None, None, ExpMatricula =>
          if truthy (strip m) then read_blocks (ExpNome (strip m)) rest else None
      | None, Some n, None, ExpNome mat => read_blocks (ExpCpf mat (strip n)) rest
      | None, None, Some c, ExpCpf mat nome =>
          match read_blocks ExpMatricula rest with
          | Some bs => Some ((mat, (nome, strip c)) :: bs)
          | None => None
          end
      | _, _, _, _ => None
      end
  end.

(** The name and tax-id of the last block with the identifier [m]. *)
Definition last_seen_from (acc : option (string * string))
    (bs : list (string * (string * string))) (m : string)
    : option (string * string) :=
  fold_left (fun acc b => if decide (fst b = m) then Some (snd b) else acc) bs acc.

Definition last_seen (bs : list (string * (string * string))) (m : string)
    : option (string * string) :=
  last_seen_from None bs m.

(** What the metadata depend on in a state of the parser. *)
Definition view (st : State)
    : gmap string (string * string) * option string * string * string :=
  (meta (out st), current_matricula (cur st), current_nome (cur st),
   current_cpf (cur st)).

(** The state [st] is where [read_blocks] stands in a block, [M0] being
    the metadata before the block, up to the entry of the block's own
    identifier. *)
Definition agrees (e : Expect) (st : State) (M0 : gmap string (string * string))
    : Prop :=
  match e with
  | ExpMatricula => meta (out st) = M0
  | ExpNome mat =>
      current_matricula (cur st) = Some mat /\ truthy mat = true
      /\ forall x, <[ mat := x ]> (meta (out st)) = <[ mat := x ]> M0
  | ExpCpf mat nome =>
      current_matricula (cur st) = Some mat /\ truthy mat = true
      /\ current_nome (cur st) = nome
      /\ forall x, <[ mat := x ]> (meta (out st)) = <[ mat := x ]> M0
  end.

(** The event number is in the exclusion list that matches the type. *)
Definition excluded (exclude_provento exclude_desconto : list string)
    (num typ : string) : Prop :=
  (typ = "PROVENTO" /\ In num exclude_provento)
  \/ (typ = "DESCONTO" /\ In num exclude_desconto).

End GerarCsv.

(** ** [scripts/gerar_csv_11802004.py]: the fixed-block variant *)

Module GerarCsv11802004.
Import PyStr Regex PyDecimal.
Local Open Scope string_scope.
Local Open Scope list_scope.

Definition RE_MATRICULA : re := field "matricula".
Definition RE_NOME : re := field "nome".
Definition RE_CPF : re := field "cpf".
(** [^\s*valor:\s*(?P<v>[-+]?[0-9]+(?:[.,][0-9]+)?)\s*$] *)
Definition RE_VALOR : re :=
  seq [Star ws; lits "valor"; Lit ":"; Star ws; Grp number; Star ws; Eol].

(** The function has the text of [parse_decimal] of [gerar_csv.py]. *)
Definition parse_decimal : string -> option Decimal := GerarCsv.parse_decimal.

Record Tables : Type := mkTables {
  totals : gmap string Finite;
  meta : gmap string (string * string) }.

Definition empty_tables : Tables := {| totals := ∅; meta := ∅ |}.

(** [meta.setdefault(matricula, (nome, cpf))] *)
Definition setdefault_meta (mat : string) (v : string * string)
    (m : gmap string (string * string)) : gmap string (string * string) :=
  match m !! mat with
  | Some _ => m
  | None => <[ mat := v ]> m
  end.

(** Lines 78 to 84: the effect of one complete block. The amount is the
    token of [RE_VALOR], for which [parse_decimal] is a finite decimal
    (lemma [RE_VALOR_11802004_token_finite]): the last case stands for
    [valor is None]. *)
Definition add_block (t : Tables) (matricula nome cpf : string)
    (valor : option Decimal) : Tables :=
  match valor with
  | Some (Fin v) =>
      {| totals :=
           <[ matricula := add (default (of_Z 0) (totals t !! matricula)) v ]>
             (totals t);
         meta := setdefault_meta matricula (nome, cpf) (meta t) |}
  | _ => t
  end.

(** The [while] loop of [main]. The argument [lines] is the part of the
    file from index [i] on: [i += 1] drops one line, [i += 4] drops four,
    and [i + 3 >= len(lines)] says that fewer than three lines follow. *)
Fixpoint scan (lines : list string) (t : Tables) : Tables :=
  match lines with
  | [] => t
  | l0 :: rest =>
      match group_v RE_MATRICULA l0 with
      | None => scan rest t
      | Some m =>
          match rest with
          | l1 :: l2 :: l3 :: rest' =>
              match group_v RE_NOME l1, group_v RE_CPF l2, group_v RE_VALOR l3 with
              | Some n, Some c, Some v =>
                  scan rest'
                    (add_block t (strip m) (strip n) (strip c) (parse_decimal v))
              | _, _, _ => scan rest t
              end
          | _ => t
          end
      end
  end.

(** The tables that [main] builds from the lines of the input file. *)
Definition main_tables (lines : list string) : Tables := scan lines empty_tables.

(** The input has a complete block for the identifier [k]: four
    consecutive lines matched by the four patterns, in this order. *)
Definition has_block (lines : list string) (k : string) : Prop :=
  exists pre l0 l1 l2 l3 post m n c v,
    lines = pre ++ l0 :: l1 :: l2 :: l3 :: post
    /\ group_v RE_MATRICULA l0 = Some m /\ strip m = k
    /\ group_v RE_NOME l1 = Some n
    /\ group_v RE_CPF l2 = Some c
    /\ group_v RE_VALOR l3 = Some v.

End GerarCsv11802004.

(** ** [scripts/gerar_csv_1802002.py]: the JSON-line variant *)

Module GerarCsv1802002.
Import PyStr Regex PyDecimal.
Local Open Scope string_scope.

Fixpoint last_char (s : string) : option ascii :=
  match s with
  | EmptyString => None
  | String c EmptyString => Some c
  | String _ s' => last_char s'
  end.

Fixpoint drop_last (s : string) : string :=
  match s with
  | EmptyString => EmptyString
  | String c EmptyString => EmptyString
  | String c s' => String c (drop_last s')
  end.

Definition squote : ascii := "039".

Definition _strip_quotes (s : string) : string :=
  let s := strip s in
  match s with
  | String a (String b r) =>
      let z := last_char (String b r) in
      if (Ascii.eqb a dquote && bool_decide (z = Some dquote))
         || (Ascii.eqb a squote && bool_decide (z = Some squote))
      then drop_last (String b r)
      else s
  | _ => s
  end.

(** The class kept by [re.sub(r"[^0-9+\-\.]", "", s)]. *)
Definition numeric_char (c : ascii) : bool :=
  isdigit c || Ascii.eqb c "+" || Ascii.eqb c "-" || Ascii.eqb c ".".

Definition only_sign_or_dot (s : string) : bool :=
  existsb (String.eqb s) [""; "."; "+"; "-"; "+."; "-."].

(** [parse_valor] on a string: lines 70 to 105. *)
Definition parse_valor_str (raw : string) : option Decimal :=
  let s := strip raw in
  let s := _strip_quotes s in
  let s := strip s in
  if negb (truthy s) then None
  else
    let s := replace " " "" s in
    let s :=
      if contains "," s && contains "." s then
        if (rfind "." s <? rfind "," s)%Z
        then replace "," "." (replace "." "" s)
        else replace "," "" s
      else if contains "," s then replace "," "." (replace "." "" s)
      else s in
    let s := filter_str numeric_char s in
    if only_sign_or_dot s then None
    else of_string s.

(** The values that reach [parse_valor]: [None], an integer, or a string.
    A JSON float goes through [str(float)] and is left out. *)
Inductive Raw : Type :=
| RNone
| RInt (n : Z)
| RStr (s : string).

Definition parse_valor (raw : Raw) : option Decimal :=
  match raw with
  | RNone => None
  | RInt n => Some (Fin (of_Z n))
  | RStr s => parse_valor_str s
  end.



End GerarCsv1802002.

(** ** [scripts/unificar_csvs.py]: the merge tool

    The file system is a finite map from paths to entries. The [csv]
    module, the codecs and the iteration order of a [set] are parameters
    of the section: the functions below are the script's own control
    flow around them. An exception is a value of [Exn].

    The order in which Python lists a [set] is no function of its
    elements: it depends on the insertions that built the set and on the
    hash seed of the run. The set [all_headers] is therefore
    represented by the sequence of its insertions, and [list(s)] is a
    parameter [set_order] of that sequence, one for each run. *)

Module UnificarCsvs.
Local Open Scope string_scope.
Local Open Scope list_scope.

Inductive Entry : Type :=
| File (content : string)
| Dir.

Inductive Exn : Type :=
| FileNotFoundError (path : string)
| FileExistsError (path : string)
| IsADirectoryError (path : string)
| UnicodeDecodeError.

Inductive Encoding : Type := utf_8_sig | utf_8 | latin_1.

Definition isfile (fs : gmap string Entry) (p : string) : bool :=
  match fs !! p with Some (File _) => true | _ => false end.

Definition content_of (fs : gmap string Entry) (p : string) : string :=
  match fs !! p with Some (File c) => c | _ => "" end.

(** [s.lower().endswith(suffix)] and [s[:-n]] *)
Definition lower_endswith (suffix s : string) : bool :=
  let n := String.length suffix in
  let m := String.length s in
  (n <=? m)%nat && String.eqb (substring (m - n) n (PyStr.lower s)) suffix.

Definition drop_end (n : nat) (s : string) : string :=
  PyStr.take (String.length s - n) s.

Definition preferred : list string := ["matricula"; "nome"; "cpf"; "total"].

(** [all_headers.update(headers)]: the headers are inserted one after
    the other. *)
Definition union_headers (all_headers : list string) (headers : list string)
    : list string :=
  all_headers ++ headers.

(** What every run of Python grants of [list(s)]: the elements of the
    set, each once. *)
Definition lists_each_once (set_order : list string -> list string) : Prop :=
  forall insertions,
    NoDup (set_order insertions)
    /\ forall x, x ∈ set_order insertions <-> x ∈ insertions.

(** The elements of [l] that are not in [seen], each at its first
    occurrence. *)
Fixpoint dedup_first (seen l : list string) : list string :=
  match l with
  | [] => []
  | x :: l' =>
      if decide (x ∈ seen) then dedup_first seen l'
      else x :: dedup_first (x :: seen) l'
  end.

(** The headers in the order the inputs show them first, as the
    specification words it; the script does not compute this list. *)
Definition first_seen (hs : list (list string)) : list string :=
  dedup_first [] (concat hs).

Definition origin_column (add_origin : bool) : list string :=
  if add_origin then ["organograma"] else [].

(** The header as the specification words it: the preferred headers that
    occur, then the others in first-seen order, then the origin column. *)
Definition spec_header (add_origin : bool) (hs : list (list string)) : list string :=
  filter (fun h => h ∈ concat hs) preferred
  ++ filter (fun h => h ∉ preferred) (first_seen hs)
  ++ origin_column add_origin.

Section Merge.
(** [f.read(4096)] under an encoding; [None]: [UnicodeDecodeError]. *)
Variable read_sample : Encoding -> string -> option string.
(** [csv.Sniffer().sniff(sample).delimiter]; [None]: an exception. *)
Variable sniff : string -> option string.
(** [next(csv.reader(f, delimiter), None) or []] after [f.seek(0)]. *)
Variable read_header : Encoding -> string -> string -> option (list string).
(** The same two reads with [errors='replace'], which cannot fail. *)
Variable read_sample_replace : string -> string.
Variable read_header_replace : string -> string -> list string.
(** The rows of [csv.DictReader] read before the end of the file or
    before a decoding error; the flag is [true] at the end of the file. *)
Variable read_rows : Encoding -> string -> string -> list (gmap string string) * bool.
(** The text that [csv.DictWriter] writes for a header and rows. *)
Variable write_csv : list string -> list (gmap string string) -> string.
(** [list(s)] for a set [s], given the insertions that built it. *)
Variable set_order : list string -> list string.
Variable dirname basename : string -> string.

(** *** [sniff_csv] *)

Definition sniffed (sample : string) : string := default "," (sniff sample).

Fixpoint sniff_loop (encs : list Encoding) (delimiter content : string)
    : string * list string :=
  match encs with
  | [] =>
      let d := sniffed (read_sample_replace content) in
      (d, read_header_replace d content)
  | enc :: rest =>
      match read_sample enc content with
      | None => sniff_loop rest delimiter content
      | Some EmptyString => (delimiter, [])
      | Some sample =>
          let d := sniffed sample in
          match read_header enc d content with
          | Some headers => (d, headers)
          | None => sniff_loop rest d content
          end
      end
  end.

Definition encoding_candidates : list Encoding := [utf_8_sig; utf_8; latin_1].

Definition sniff_csv (content : string) : string * list string :=
  sniff_loop encoding_candidates "," content.

(** *** [iter_rows]: the rows yielded, and the exception at the end *)

Definition restrict (expected_headers : list string) (row : gmap string string)
    : gmap string string :=
  list_to_map (map (fun k => (k, default "" (row !! k))) expected_headers).

Fixpoint iter_rows_loop (encs : list Encoding) (last_error : option Exn)
    (content delimiter : string) (expected_headers : list string)
    : list (gmap string string) * option Exn :=
  match encs with
  | [] => ([], last_error)
  | enc :: rest =>
      let (rows, finished) := read_rows enc delimiter content in
      let rows' := map (restrict expected_headers) rows in
      if finished then (rows', None)
      else
        let (more, e) :=
          iter_rows_loop rest (Some UnicodeDecodeError) content delimiter
            expected_headers in
        (rows' ++ more, e)
  end.

Definition iter_rows (content delimiter : string)
    (expected_headers : list string) : list (gmap string string) * option Exn :=
  iter_rows_loop encoding_candidates None content delimiter expected_headers.

(** *** [unify_csvs] *)

Definition FileInfo : Type := string * string * list string.

(** The first loop: every input is checked and sniffed before anything
    is written. *)
Fixpoint collect (fs : gmap string Entry) (inputs : list string)
    (file_info : list FileInfo) (all_headers : list string)
    : Exn + (list FileInfo * list string) :=
  match inputs with
  | [] => inr (file_info, all_headers)
  | p :: rest =>
      if isfile fs p then
        let (delimiter, headers) := sniff_csv (content_of fs p) in
        collect fs rest (file_info ++ [(p, delimiter, headers)])
          (union_headers all_headers headers)
      else inl (FileNotFoundError p)
  end.

Definition order_headers (all_headers : list string) : list string :=
  let headers_order := set_order all_headers in
  filter (fun h => h ∈ all_headers) preferred
  ++ filter (fun h => h ∉ preferred) headers_order.

Definition with_origin (add_origin : bool) (headers_order : list string)
    : list string :=
  if add_origin then headers_order ++ ["organograma"] else headers_order.

(** The header that [unify_csvs] computes for inputs whose header rows
    are [hs]. *)
Definition merged_header (add_origin : bool) (hs : list (list string))
    : list string :=
  with_origin add_origin (order_headers (fold_left union_headers hs [])).

(** [os.makedirs(d, exist_ok=True)], for the directory itself. *)
Definition makedirs (fs : gmap string Entry) (d : string)
    : Exn + gmap string Entry :=
  match fs !! d with
  | Some Dir => inr fs
  | Some (File _) => inl (FileExistsError d)
  | None => inr (<[ d := Dir ]> fs)
  end.

(** [open(output, 'w')]: the file is created or emptied. *)
Definition open_w (fs : gmap string Entry) (output : string)
    : Exn + gmap string Entry :=
  match fs !! output with
  | Some Dir => inl (IsADirectoryError output)
  | _ => inr (<[ output := File "" ]> fs)
  end.

Definition origem (p : string) : string :=
  let base := basename p in
  let suffix := "_agrupado.csv" in
  if lower_endswith suffix base then drop_end (String.length suffix) base
  else base.

Definition tag (add_origin : bool) (p : string) (row : gmap string string)
    : gmap string string :=
  if add_origin then <[ "organograma" := origem p ]> row else row.

(** The second loop: the rows written, and the exception that stops it. *)
Fixpoint write_rows (fs : gmap string Entry) (file_info : list FileInfo)
    (headers_order : list string) (add_origin : bool)
    : list (gmap string string) * option Exn :=
  match file_info with
  | [] => ([], None)
  | (p, delim, _) :: rest =>
      let (rows, e) := iter_rows (content_of fs p) delim headers_order in
      let rows' := map (tag add_origin p) rows in
      match e with
      | Some exn => (rows', Some exn)
      | None =>
          let (more, e') := write_rows fs rest headers_order add_origin in
          (rows' ++ more, e')
      end
  end.

Definition or_dot (d : string) : string :=
  match d with EmptyString => "." | _ => d end.

(** The field names of the output, when the first loop succeeds. *)
Definition fieldnames (fs : gmap string Entry) (inputs : list string)
    (add_origin : bool) : option (list string) :=
  match collect fs inputs [] [] with
  | inl _ => None
  | inr (_, all_headers) => Some (with_origin add_origin (order_headers all_headers))
  end.

(** [unify_csvs]: the file system afterwards, and the exception raised,
    if any. *)
Definition unify_csvs (fs : gmap string Entry) (inputs : list string)
    (output : string) (add_origin : bool)
    : gmap string Entry * option Exn :=
  match collect fs inputs [] [] with
  | inl e => (fs, Some e)
  | inr (file_info, all_headers) =>
      let headers_order := order_headers all_headers in
      let headers_with_origin := with_origin add_origin headers_order in
      match makedirs fs (or_dot (dirname output)) with
      | inl e => (fs, Some e)
      | inr fs1 =>
          match open_w fs1 output with
          | inl e => (fs1, Some e)
          | inr fs2 =>
              let (rows, e) := write_rows fs2 file_info headers_order add_origin in
              (<[ output := File (write_csv headers_with_origin rows) ]> fs2, e)
          end
      end
  end.

End Merge.

End UnificarCsvs.

(** ** Numeric tokens

    The shapes of token that the properties of the normalisers speak of. *)

Module Tokens.
Import PyStr.
Local Open Scope string_scope.

(** A non-empty string of digits. *)
Definition digits (s : string) : bool := truthy s && forallb_str isdigit s.

(** An optional sign. *)
Definition sign_prefix (s : string) : bool :=
  String.eqb s "" || String.eqb s "+" || String.eqb s "-".

(** Further groups of digits, each after a separator. *)
Fixpoint join_groups (sep : string) (gs : list string) : string :=
  match gs with
  | [] => ""
  | g :: gs' => sep +:+ g +:+ join_groups sep gs'
  end.

Fixpoint concat_groups (gs : list string) : string :=
  match gs with
  | [] => ""
  | g :: gs' => g +:+ concat_groups gs'
  end.

(** A number with a sign, a first group of digits, further groups behind
    the thousands separator, the decimal separator and a fraction. *)
Definition token (thousands decimal sg g : string) (gs : list string)
    (f : string) : string :=
  sg +:+ g +:+ join_groups thousands gs +:+ decimal +:+ f.

(** The same number in the canonical form: no thousands separator and a
    dot before the fraction. *)
Definition canonical (sg g : string) (gs : list string) (f : string) : string :=
  sg +:+ g +:+ concat_groups gs +:+ "." +:+ f.

(** The decimal that the canonical form denotes. *)
Definition token_value (sg g : string) (gs : list string) (f : string)
    : PyDecimal.Decimal :=
  PyDecimal.Fin
    {| PyDecimal.coef :=
         PyDecimal.apply_sign (String.eqb sg "-")
           (PyDecimal.digits_value (g +:+ concat_groups gs +:+ f));
       PyDecimal.expo := (0 - PyDecimal.strlen f)%Z |}.

(** The characters of such tokens. *)
Definition tokchar (c : ascii) : bool :=
  isdigit c || Ascii.eqb c "+" || Ascii.eqb c "-" || Ascii.eqb c "."
  || Ascii.eqb c ",".


End Tokens.

(** ** The syntax of decimal numerals

    The texts that [Decimal] accepts, told by their shape and not by the
    steps of the constructor: the reading of an invalid amount that the
    properties of the normalisers rest on. *)

Module Syntax.
Import PyStr Tokens.
Local Open Scope string_scope.











End Syntax.

(** ** Further functions of the scripts, and the shapes of input that
    their properties speak of *)

(** *** [parse_file]: lines, states and detail records *)

Module GerarCsvLayout.
Import PyStr Regex GerarCsv.
Local Open Scope string_scope.

(** The nine patterns that the loop of [parse_file] tries on a line. *)
Definition patterns : list re :=
  [ RE_NUMERO_EVENTO; RE_NUMERO_ORGANOGRAMA; RE_TIPO_EVENTO; RE_TIPO_PROVENTO;
    RE_FUNCIONARIOS_ARRAY; RE_MATRICULA; RE_NOME; RE_CPF; RE_VALOR ].

(** A line that is neither an event-number line nor an event-type line. *)
Definition no_event_line (ln : string) : Prop :=
  group_v RE_NUMERO_EVENTO ln = None
  /\ or_match (group_v RE_TIPO_EVENTO ln) (group_v RE_TIPO_PROVENTO ln) = None.

(** A line without a line terminator inside. *)
Definition one_line (l : string) : bool :=
  negb (contains "010" l) && negb (contains "013" l).

(** What holds of every detail record. *)
Definition well_formed_detail (t : gmap string PyDecimal.Finite) (d : Detail) : Prop :=
  (d_tipoEvento d = "PROVENTO" \/ d_tipoEvento d = "DESCONTO")
  /\ truthy (d_matricula d) = true
  /\ is_Some (t !! d_matricula d).

(** What holds of every state of the loop: a pending type is in upper
    case, the buffered contributions have an identifier, and the detail
    records are well formed. *)
Definition state_ok (st : State) : Prop :=
  (forall t, pending_event_type (pend st) = Some t -> upper t = t)
  /\ Forall (fun c => truthy (c_mat c) = true) (pending_event_contribs (pend st))
  /\ Forall (well_formed_detail (totals (out st))) (details (out st)).

End GerarCsvLayout.

(** *** [Decimal.quantize] with [ROUND_HALF_UP] *)

Module PyQuantize.
Import PyDecimal.
Local Open Scope Z_scope.

(** The coefficient of [|d|] at the exponent [e], rounded half up: the
    digits below [10 ^ e] are dropped and the rest goes up by one when
    the first dropped digit is 5 or more. *)
Definition rescale_half_up (d : Finite) (e : Z) : Z :=
  let n := Z.abs (coef d) in
  if e <=? expo d then n * 10 ^ (expo d - e)
  else (n + 5 * 10 ^ (e - expo d - 1)) / 10 ^ (e - expo d).

(** [d.quantize(Decimal(1).scaleb(e), rounding=ROUND_HALF_UP)]: [None]
    stands for [InvalidOperation], raised when the result would have
    more than [prec] digits. *)
Definition quantize (d : Finite) (e : Z) : option Finite :=
  let n := Z.abs (coef d) in
  if n =? 0 then Some {| coef := 0; expo := e |}
  else if prec <? ndigits n + expo d - e then None
  else
    let q := rescale_half_up d e in
    if prec <? ndigits q then None
    else Some {| coef := Z.sgn (coef d) * q; expo := e |}.

(** [x.quantize(Decimal("0.01"), rounding=ROUND_HALF_UP)] *)
Definition to_cents (d : Finite) : option Finite := quantize d (-2).

End PyQuantize.

(** *** [os.path] and the labels of [main] *)

Module PyPath.
Import PyStr.
Local Open Scope string_scope.

(** [s[n:]] *)
Fixpoint drop (n : nat) (s : string) : string :=
  match n, s with
  | S n', String _ s' => drop n' s'
  | _, _ => s
  end.

(** [s.endswith(suffix)] *)
Definition endswith (suffix s : string) : bool :=
  let n := String.length suffix in
  let m := String.length s in
  (n <=? m)%nat && String.eqb (substring (m - n) n s) suffix.

(** [os.path.basename] of [posixpath]: what follows the last slash. *)
Definition basename (p : string) : string :=
  drop (Z.to_nat (rfind "/" p + 1)) p.

(** [os.path.splitext] of [posixpath]: the extension starts at the last
    dot of the last component, unless only dots come before it there. *)
Definition splitext (p : string) : string * string :=
  let sepIndex := rfind "/" p in
  let dotIndex := rfind "." p in
  if (sepIndex <? dotIndex)%Z then
    let filenameIndex := Z.to_nat (sepIndex + 1) in
    let name := take (Z.to_nat dotIndex - filenameIndex) (drop filenameIndex p) in
    if forallb_str (fun c => Ascii.eqb c ".") name then (p, "")
    else (take (Z.to_nat dotIndex) p, drop (Z.to_nat dotIndex) p)
  else (p, "").

End PyPath.

Module GerarCsvMain.
Import PyStr.
Local Open Scope string_scope.

(** [_org_label] of [main]: lines 213 to 217. *)
Definition _org_label (input_path : string) : string :=
  let base := fst (PyPath.splitext (PyPath.basename input_path)) in
  if PyPath.endswith "_agrupado" base
  then UnificarCsvs.drop_end (String.length "_agrupado") base
  else base.

End GerarCsvMain.

(** *** The blocks of the fixed-block input and the entries of the
    JSON-line input *)

Module BlockLayout.
Import PyStr Regex PyDecimal.
Local Open Scope string_scope.
Local Open Scope list_scope.

(** Four consecutive lines of the fixed-block input. *)
Definition Block : Type := string * string * string * string.

Definition block_lines (b : Block) : list string :=
  let '(l0, l1, l2, l3) := b in [l0; l1; l2; l3].

(** The identifier, name, tax-id and amount token of a complete block. *)
Definition block_fields (b : Block) : option (string * string * string * string) :=
  let '(l0, l1, l2, l3) := b in
  match group_v GerarCsv11802004.RE_MATRICULA l0,
        group_v GerarCsv11802004.RE_NOME l1,
        group_v GerarCsv11802004.RE_CPF l2,
        group_v GerarCsv11802004.RE_VALOR l3 with
  | Some m, Some n, Some c, Some v => Some (strip m, strip n, strip c, v)
  | _, _, _, _ => None
  end.

Definition block_effect (t : GerarCsv11802004.Tables) (b : Block)
    : GerarCsv11802004.Tables :=
  match block_fields b with
  | Some (m, n, c, v) =>
      GerarCsv11802004.add_block t m n c (GerarCsv11802004.parse_decimal v)
  | None => t
  end.

(** The amount that a block adds to the total of [k], if any. *)
Definition block_amount (k : string) (b : Block) : list Finite :=
  match block_fields b with
  | Some (m, _, _, v) =>
      if decide (m = k) then
        match GerarCsv11802004.parse_decimal v with
        | Some (Fin d) => [d]
        | _ => []
        end
      else []
  | None => []
  end.

(** Lines that are no identifier lines. *)
Definition filler (junk : list string) : Prop :=
  Forall (fun l => group_v GerarCsv11802004.RE_MATRICULA l = None) junk.

(** An input made of complete blocks, with filler before each and at
    the end. *)
Definition layout (items : list (list string * Block)) (tail : list string)
    : list string :=
  flat_map (fun it => fst it ++ block_lines (snd it)) items ++ tail.


End BlockLayout.

(** * Properties *)

(** ** The matcher against the declarative reading of patterns *)

Module RegexFacts.
Import PyStr Regex.
Local Open Scope string_scope.

Lemma app_nil_r_str (s : string) : s +:+ "" = s.
Proof. induction s as [|c s IH]; simpl; [reflexivity | now rewrite IH]. Qed.

Lemma app_assoc_str (a b c : string) : (a +:+ b) +:+ c = a +:+ (b +:+ c).
Proof. induction a as [|x a IH]; simpl; [reflexivity | now rewrite IH]. Qed.

Lemma length_app_str (a b : string) :
  String.length (a +:+ b) = String.length a + String.length b.
Proof. induction a as [|x a IH]; simpl; [reflexivity | now rewrite IH]. Qed.

Lemma take_app_exact (w s : string) : take (String.length w) (w +:+ s) = w.
Proof. induction w as [|c w IH]; simpl; [now destruct s | now rewrite IH]. Qed.

Lemma consumed_app (w s : string) : consumed (w +:+ s) s = w.
Proof.
  unfold consumed. rewrite length_app_str.
  replace (String.length w + String.length s - String.length s)
    with (String.length w) by lia.
  apply take_app_exact.
Qed.

Lemma star_sound {A : Type} (p : ascii -> bool) (s : string) :
  forall (pv : option ascii) (k : option ascii -> string -> option A) (x : A),
    star p pv s k = Some x ->
    exists w s' pv', s = w +:+ s' /\ forallb_str p w = true /\ k pv' s' = Some x.
Proof.
  induction s as [|c s IH]; intros pv k x H; simpl in H.
  - exists "", "", pv. auto.
  - destruct (p c) eqn:Hp.
    + destruct (star p (Some c) s k) as [y|] eqn:Hs.
      * injection H as ->.
        destruct (IH _ _ _ Hs) as (w & s' & pv' & -> & Hw & Hk).
        exists (String c w), s', pv'. simpl. rewrite Hp, Hw. auto.
      * exists "", (String c s), pv. auto.
    + exists "", (String c s), pv. auto.
Qed.

(** Whatever [run] accepts is a word of the pattern followed by a text
    that the continuation accepts. *)
Lemma run_sound {A : Type} (r : re) :
  forall (pv : option ascii) (s : string) (cap : option string)
         (k : cont (A:=A)) (x : A),
    run r pv s cap k = Some x ->
    exists w s' pv' cap',
      s = w +:+ s' /\ sem r w cap cap' /\ k pv' s' cap' = Some x.
Proof.
  induction r as [ |c|p|p|r1 IH1|r1 IH1 r2 IH2|r1 IH1| | ];
    intros pv s cap k x H; simpl in H.
  - exists "", s, pv, cap. simpl. auto.
  - destruct s as [|d s]; [discriminate|].
    destruct (Ascii.eqb _ _) eqn:E; [|discriminate].
    apply Ascii.eqb_eq in E.
    exists (String d ""), s, (Some d), cap. simpl. eauto 6.
  - destruct s as [|d s]; [discriminate|].
    destruct (p d) eqn:E; [|discriminate].
    exists (String d ""), s, (Some d), cap. simpl. eauto 6.
  - apply star_sound in H as (w & s' & pv' & -> & Hw & Hk).
    exists w, s', pv', cap. simpl. auto.
  - destruct (run r1 pv s cap k) as [y|] eqn:E.
    + injection H as ->.
      destruct (IH1 _ _ _ _ _ E) as (w & s' & pv' & cap' & -> & Hs & Hk).
      exists w, s', pv', cap'. simpl. auto.
    + exists "", s, pv, cap. simpl. auto.
  - apply IH1 in H as (w1 & s1 & pv1 & c1 & -> & Hs1 & Hk1).
    apply IH2 in Hk1 as (w2 & s2 & pv2 & c2 & -> & Hs2 & Hk2).
    exists (w1 +:+ w2), s2, pv2, c2. simpl.
    rewrite app_assoc_str. split; [reflexivity|]. split; [|assumption].
    exists w1, w2, c1. auto.
  - apply IH1 in H as (w & s' & pv' & c1 & -> & Hs & Hk).
    rewrite consumed_app in Hk.
    exists w, s', pv', (Some w). simpl. eauto 6.
  - destruct (at_eol s); [|discriminate].
    exists "", s, pv, cap. simpl. auto.
  - destruct (xorb _ _); [|discriminate].
    exists "", s, pv, cap. simpl. auto.
Qed.

Lemma match_sound (r : re) (s : string) (cap : option string) :
  match_ r s = Some cap ->
  exists w s', s = w +:+ s' /\ sem r w None cap.
Proof.
  unfold match_. intros H.
  apply run_sound in H as (w & s' & pv & cap' & -> & Hs & Hk).
  injection Hk as ->. eauto.
Qed.

Lemma sem_lits (l : string) :
  forall w cap cap', sem (lits l) w cap cap' ->
    cap' = cap /\ forall t, prefix_ci l (w +:+ t) = true.
Proof.
  induction l as [|c l IH]; intros w cap cap' H; simpl in H.
  - destruct H as [-> ->]. auto.
  - destruct H as (w1 & w2 & c1 & -> & (d & -> & Hd & ->) & H2).
    apply IH in H2 as [-> Hp]. split; [reflexivity|].
    intros t. simpl. rewrite Hd, Ascii.eqb_refl. simpl. apply Hp.
Qed.

Lemma isspace_lower_char (d : ascii) : isspace d = true -> lower_char d = d.
Proof.
  unfold lower_char. intros H.
  destruct (isupper d) eqn:E; [|reflexivity].
  exfalso. unfold isupper in E. unfold isspace in H.
  apply andb_true_iff in E as [E1 E2].
  apply Nat.leb_le in E1, E2.
  apply orb_true_iff in H as [H|H]; apply andb_true_iff in H as [H1 H2];
    apply Nat.leb_le in H1, H2; lia.
Qed.

Lemma lstrip_app_ws (w t : string) :
  forallb_str isspace w = true -> lstrip (w +:+ t) = lstrip t.
Proof.
  induction w as [|c w IH]; simpl; intros H; [reflexivity|].
  apply andb_true_iff in H as [Hc Hw]. rewrite Hc. auto.
Qed.

(** A line matched by a pattern that starts with a label starts with that
    label, after its leading whitespace. *)
Lemma labelled_has_label (c : ascii) (l : string) (rest : re) (s : string)
    (cap : option string) :
  isspace (lower_char c) = false ->
  match_ (labelled (String c l) rest) s = Some cap ->
  has_label (String c l) s = true.
Proof.
  intros Hc H.
  apply match_sound in H as (w & s' & -> & Hs).
  simpl in Hs.
  destruct Hs as (w0 & w1 & c0 & -> & [Hws ->] & (w2 & w3 & c1 & -> & Hl & _)).
  destruct Hl as (w4 & w5 & c2 & -> & (d & -> & Hd & ->) & Hl).
  apply sem_lits in Hl as [_ Hp].
  unfold has_label.
  rewrite !app_assoc_str, lstrip_app_ws by assumption.
  simpl.
  destruct (isspace d) eqn:Ed.
  - apply isspace_lower_char in Ed as Ed'. rewrite Ed' in Hd.
    rewrite <- Hd in Hc. congruence.
  - simpl. rewrite Hd, Ascii.eqb_refl. simpl.
    rewrite ?app_assoc_str. apply Hp.
Qed.

Lemma prefix_ci_agree (l1 : string) :
  forall l2 t, prefix_ci l1 t = true -> prefix_ci l2 t = true ->
    agree_ci l1 l2 = true.
Proof.
  induction l1 as [|a l1 IH]; intros [|b l2] [|c t] H1 H2; simpl in *;
    try reflexivity; try discriminate.
  apply andb_true_iff in H1 as [E1 H1].
  apply andb_true_iff in H2 as [E2 H2].
  apply Ascii.eqb_eq in E1, E2.
  rewrite <- E1, <- E2, Ascii.eqb_refl. simpl. eauto.
Qed.

(** Patterns with different labels match different lines. *)
Lemma labels_disjoint (l1 l2 s : string) :
  agree_ci l1 l2 = false ->
  has_label l1 s = true -> has_label l2 s = false.
Proof.
  intros Ha H1. destruct (has_label l2 s) eqn:H2; [|reflexivity].
  unfold has_label in *.
  rewrite (prefix_ci_agree _ _ _ H1 H2) in Ha. discriminate.
Qed.

Lemma group_v_match (r : re) (s v : string) :
  group_v r s = Some v -> match_ r s = Some (Some v).
Proof.
  unfold group_v. destruct (match_ r s) as [[w|]|]; congruence.
Qed.

Lemma no_label_no_group (c : ascii) (l : string) (rest : re) (s : string) :
  isspace (lower_char c) = false ->
  has_label (String c l) s = false ->
  group_v (labelled (String c l) rest) s = None.
Proof.
  intros Hc Hl. destruct (group_v _ s) as [v|] eqn:E; [|reflexivity].
  apply group_v_match, labelled_has_label in E; [congruence | assumption].
Qed.

Lemma no_label_no_match (c : ascii) (l : string) (rest : re) (s : string) :
  isspace (lower_char c) = false ->
  has_label (String c l) s = false ->
  matches (labelled (String c l) rest) s = false.
Proof.
  intros Hc Hl. unfold matches.
  destruct (match_ _ s) as [cap|] eqn:E; [|reflexivity].
  apply labelled_has_label in E; [congruence | assumption].
Qed.

End RegexFacts.

(** ** The block parser: which branch a line takes *)

Module GerarCsvFacts.
Import PyStr Regex PyDecimal RegexFacts GerarCsv.
Local Open Scope string_scope.

Lemma field_has_label (c : ascii) (l ln v : string) :
  isspace (lower_char c) = false ->
  group_v (field (String c l)) ln = Some v ->
  has_label (String c l) ln = true.
Proof.
  intros Hc H. apply group_v_match in H.
  exact (labelled_has_label c l _ ln _ Hc H).
Qed.

Lemma field_other_label (c : ascii) (l l' ln : string) :
  isspace (lower_char c) = false ->
  agree_ci l' (String c l) = false ->
  has_label l' ln = true ->
  group_v (field (String c l)) ln = None.
Proof.
  intros Hc Ha Hl.
  apply (no_label_no_group c l _ ln Hc).
  now apply (labels_disjoint l').
Qed.

Lemma valor_has_label (ln v : string) :
  group_v RE_VALOR ln = Some v -> has_label "valor" ln = true.
Proof.
  intros H. apply group_v_match in H.
  exact (labelled_has_label "v" "alor" _ ln _ eq_refl H).
Qed.

Lemma valor_other_label (l' ln : string) :
  agree_ci l' "valor" = false ->
  has_label l' ln = true ->
  group_v RE_VALOR ln = None.
Proof.
  intros Ha Hl.
  apply (no_label_no_group "v" "alor" _ ln eq_refl).
  now apply (labels_disjoint l').
Qed.

Lemma funcionarios_has_label (ln : string) :
  matches RE_FUNCIONARIOS_ARRAY ln = true -> has_label "funcionarios" ln = true.
Proof.
  unfold matches. destruct (match_ RE_FUNCIONARIOS_ARRAY ln) as [cap|] eqn:E;
    [intros _ | discriminate].
  exact (labelled_has_label "f" "uncionarios" _ ln _ eq_refl E).
Qed.

Lemma funcionarios_other_label (l' ln : string) :
  agree_ci l' "funcionarios" = false ->
  has_label l' ln = true ->
  matches RE_FUNCIONARIOS_ARRAY ln = false.
Proof.
  intros Ha Hl.
  apply (no_label_no_match "f" "uncionarios" _ ln eq_refl).
  now apply (labels_disjoint l').
Qed.

(** The label of a line decides every pattern with another label. *)
Ltac other_labels H :=
  match type of H with
  | has_label ?l ?ln = true =>
    repeat first
      [ rewrite (field_other_label "n" "umeroEvento" l ln eq_refl eq_refl H)
      | rewrite (field_other_label "n" "umeroOrganograma" l ln eq_refl eq_refl H)
      | rewrite (field_other_label "t" "ipoEvento" l ln eq_refl eq_refl H)
      | rewrite (field_other_label "t" "ipoProvento" l ln eq_refl eq_refl H)
      | rewrite (field_other_label "m" "atricula" l ln eq_refl eq_refl H)
      | rewrite (field_other_label "n" "ome" l ln eq_refl eq_refl H)
      | rewrite (field_other_label "c" "pf" l ln eq_refl eq_refl H)
      | rewrite (valor_other_label l ln eq_refl H)
      | rewrite (funcionarios_other_label l ln eq_refl H) ]
  end.

Section Dispatch.
Variables exclude_provento exclude_desconto : list string.

Abbreviation step := (step exclude_provento exclude_desconto).
Abbreviation on_numero_evento := (on_numero_evento exclude_provento exclude_desconto).
Abbreviation on_tipo_evento := (on_tipo_evento exclude_provento exclude_desconto).

Lemma step_numero_evento st ln v :
  group_v RE_NUMERO_EVENTO ln = Some v -> step st ln = on_numero_evento st v.
Proof. intros H. unfold GerarCsv.step. now rewrite H. Qed.

Lemma step_numero_organograma st ln v :
  group_v RE_NUMERO_ORGANOGRAMA ln = Some v ->
  step st ln = on_numero_organograma st v.
Proof.
  intros H. pose proof (field_has_label "n" "umeroOrganograma" _ _ eq_refl H) as L.
  unfold GerarCsv.step. rewrite H.
  unfold RE_NUMERO_EVENTO. now other_labels L.
Qed.

Lemma step_tipo_evento st ln v :
  or_match (group_v RE_TIPO_EVENTO ln) (group_v RE_TIPO_PROVENTO ln) = Some v ->
  step st ln = on_tipo_evento st v.
Proof.
  intros H. unfold GerarCsv.step. rewrite H.
  unfold or_match in H.
  destruct (group_v RE_TIPO_EVENTO ln) as [w|] eqn:E.
  - pose proof (field_has_label "t" "ipoEvento" _ _ eq_refl E) as L.
    unfold RE_NUMERO_EVENTO, RE_NUMERO_ORGANOGRAMA. now other_labels L.
  - pose proof (field_has_label "t" "ipoProvento" _ _ eq_refl H) as L.
    unfold RE_NUMERO_EVENTO, RE_NUMERO_ORGANOGRAMA. now other_labels L.
Qed.

Lemma step_funcionarios st ln :
  matches RE_FUNCIONARIOS_ARRAY ln = true -> step st ln = on_funcionarios st.
Proof.
  intros H. pose proof (funcionarios_has_label _ H) as L.
  unfold GerarCsv.step. rewrite H.
  unfold RE_NUMERO_EVENTO, RE_NUMERO_ORGANOGRAMA, RE_TIPO_EVENTO,
    RE_TIPO_PROVENTO, RE_MATRICULA, RE_NOME, RE_CPF.
  other_labels L. simpl.
  destruct (current_matricula (cur st)) as [[|a m]|]; reflexivity.
Qed.

Lemma step_matricula st ln v :
  group_v RE_MATRICULA ln = Some v -> step st ln = on_matricula st v.
Proof.
  intros H. pose proof (field_has_label "m" "atricula" _ _ eq_refl H) as L.
  unfold GerarCsv.step. rewrite H.
  unfold RE_NUMERO_EVENTO, RE_NUMERO_ORGANOGRAMA, RE_TIPO_EVENTO,
    RE_TIPO_PROVENTO.
  now other_labels L.
Qed.

Lemma step_nome st ln v :
  group_v RE_NOME ln = Some v -> step st ln = on_nome st v.
Proof.
  intros H. pose proof (field_has_label "n" "ome" _ _ eq_refl H) as L.
  unfold GerarCsv.step. rewrite H.
  unfold RE_NUMERO_EVENTO, RE_NUMERO_ORGANOGRAMA, RE_TIPO_EVENTO,
    RE_TIPO_PROVENTO, RE_MATRICULA.
  now other_labels L.
Qed.

Lemma step_cpf st ln v :
  group_v RE_CPF ln = Some v -> step st ln = on_cpf st v.
Proof.
  intros H. pose proof (field_has_label "c" "pf" _ _ eq_refl H) as L.
  unfold GerarCsv.step. rewrite H.
  unfold RE_NUMERO_EVENTO, RE_NUMERO_ORGANOGRAMA, RE_TIPO_EVENTO,
    RE_TIPO_PROVENTO, RE_MATRICULA, RE_NOME.
  now other_labels L.
Qed.

Lemma step_valor st ln v a m :
  group_v RE_VALOR ln = Some v ->
  within_funcionarios (cur st) = true ->
  current_matricula (cur st) = Some (String a m) ->
  step st ln = on_valor st (String a m) v.
Proof.
  intros H Hw Hm. pose proof (valor_has_label _ _ H) as L.
  unfold GerarCsv.step. rewrite H.
  unfold RE_NUMERO_EVENTO, RE_NUMERO_ORGANOGRAMA, RE_TIPO_EVENTO,
    RE_TIPO_PROVENTO, RE_MATRICULA, RE_NOME, RE_CPF.
  other_labels L. simpl. now rewrite Hw, Hm.
Qed.

End Dispatch.

End GerarCsvFacts.

(** ** The block parser: what every step keeps true of the output *)

Module GerarCsvInvariants.
Import PyStr Regex PyDecimal RegexFacts GerarCsv GerarCsvFacts.
Local Open Scope string_scope.
Local Open Scope list_scope.

Section Invariants.
Variables exclude_provento exclude_desconto : list string.

Abbreviation step := (GerarCsv.step exclude_provento exclude_desconto).
Abbreviation flush := (GerarCsv.flush exclude_provento exclude_desconto).
Abbreviation run_lines := (GerarCsv.run_lines exclude_provento exclude_desconto).
Abbreviation parse_lines := (GerarCsv.parse_lines exclude_provento exclude_desconto).
Abbreviation _allowed_event :=
  (GerarCsv._allowed_event exclude_provento exclude_desconto).

(** A property of the output that the three kinds of update keep is
    kept by every step. The flush is only ever run with an event number. *)
Lemma step_preserves (P : Output -> Prop) :
  (forall o mat, P o -> P {| totals := setdefault_zero mat (totals o);
                             meta := meta o; details := details o |}) ->
  (forall o mat nome cpf, P o -> P (set_meta o mat nome cpf)) ->
  (forall o p n, pending_event_number p = Some n -> P o -> P (fst (flush o p))) ->
  forall st ln, P (out st) -> P (out (step st ln)).
Proof.
  intros Hsd Hsm Hfl st ln HP. unfold GerarCsv.step.
  destruct (group_v RE_NUMERO_EVENTO ln) as [v|].
  { unfold on_numero_evento. cbv zeta.
    destruct (truthy_opt _ && nonempty _); [|exact HP].
    match goal with |- context [GerarCsv.flush _ _ ?o ?p] =>
      pose proof (Hfl o p (strip v) eq_refl HP) as H;
      destruct (GerarCsv.flush exclude_provento exclude_desconto o p) end.
    exact H. }
  destruct (group_v RE_NUMERO_ORGANOGRAMA ln) as [v|]; [exact HP|].
  destruct (or_match _ _) as [v|].
  { unfold on_tipo_evento. cbv zeta.
    destruct (pending_event_number (pend st)) as [n|];
      [|cbn [pending_event_number truthy_opt andb]; exact HP].
    destruct (truthy_opt _ && nonempty _); [|exact HP].
    match goal with |- context [GerarCsv.flush _ _ ?o ?p] =>
      pose proof (Hfl o p n eq_refl HP) as H;
      destruct (GerarCsv.flush exclude_provento exclude_desconto o p) end.
    exact H. }
  assert (HP' : P (out (if matches RE_FUNCIONARIOS_ARRAY ln
                        then on_funcionarios st else st)))
    by (destruct (matches _ ln); exact HP).
  revert HP'. generalize (if matches RE_FUNCIONARIOS_ARRAY ln
                          then on_funcionarios st else st).
  clear st HP. intros st HP.
  destruct (group_v RE_MATRICULA ln) as [v|].
  { unfold on_matricula. simpl.
    destruct (within_funcionarios (cur st) && truthy (strip v));
      destruct (truthy (strip v) && _); auto. }
  destruct (group_v RE_NOME ln) as [v|].
  { unfold on_nome. simpl.
    destruct (current_matricula (cur st)) as [[|a m]|]; auto. }
  destruct (group_v RE_CPF ln) as [v|].
  { unfold on_cpf. simpl.
    destruct (current_matricula (cur st)) as [[|a m]|]; auto. }
  destruct (within_funcionarios (cur st)); [|exact HP].
  destruct (current_matricula (cur st)) as [[|a m]|]; try exact HP.
  destruct (group_v RE_VALOR ln) as [v|]; [|exact HP].
  unfold on_valor. destruct (parse_decimal v) as [[val| |]|]; try exact HP.
  destruct (default _ _). exact HP.
Qed.

Lemma run_preserves (P : Output -> Prop) :
  (forall st ln, P (out st) -> P (out (step st ln))) ->
  forall lines st, P (out st) -> P (out (run_lines st lines)).
Proof.
  intros Hs lines. induction lines as [|ln lines IH]; intros st HP; simpl.
  - exact HP.
  - apply IH, Hs, HP.
Qed.

(** *** The details and totals that a flush adds *)

Lemma or_empty_some (n : string) : or_empty (Some n) = n.
Proof. now destruct n. Qed.

Lemma fold_apply_details num ptype org sign cs :
  forall o,
    details (fold_left (apply_contrib num ptype org sign) cs o) =
    details o ++
    map (fun c => {| d_matricula := c_mat c; d_nome := c_nome c;
                     d_cpf := c_cpf c; d_numeroEvento := num;
                     d_tipoEvento := ptype;
                     d_valorEvento := mul (c_val c) sign;
                     d_numeroOrganograma := org |}) cs.
Proof.
  induction cs as [|c cs IH]; intros o; simpl.
  - now rewrite app_nil_r.
  - rewrite IH. simpl. now rewrite <- app_assoc.
Qed.

Lemma not_in_spec (n : string) (lst : list string) :
  not_in (Some n) lst = true <-> ~ In n lst.
Proof.
  unfold not_in. rewrite negb_true_iff. split.
  - intros H Hin. assert (existsb (String.eqb n) lst = true); [|congruence].
    apply existsb_exists. exists n. split; [assumption | apply String.eqb_refl].
  - intros H. destruct (existsb _ lst) eqn:E; [|reflexivity].
    apply existsb_exists in E as (x & Hx & Ex).
    apply String.eqb_eq in Ex. subst. contradiction.
Qed.

Lemma is_empty_list_spec (lst : list string) (n : string) :
  is_empty_list lst = true -> ~ In n lst.
Proof. destruct lst; [auto | discriminate]. Qed.

(** An event that is allowed is in no list that matches its type. *)
Lemma allowed_not_excluded (n : string) (typ : option string) :
  _allowed_event (Some n) typ = true ->
  ~ excluded exclude_provento exclude_desconto n (or_empty typ).
Proof.
  unfold GerarCsv._allowed_event, excluded. intros H [[Et Hin]|[Et Hin]];
    rewrite Et in H; simpl in H.
  - apply orb_true_iff in H as [H|H].
    + now apply (is_empty_list_spec _ n) in H.
    + now apply not_in_spec in H.
  - apply orb_true_iff in H as [H|H].
    + now apply (is_empty_list_spec _ n) in H.
    + now apply not_in_spec in H.
Qed.

(** An event in the list that matches its type is not allowed. *)
Lemma excluded_not_allowed (n t : string) :
  excluded exclude_provento exclude_desconto n t ->
  _allowed_event (Some n) (Some t) = false.
Proof.
  unfold GerarCsv._allowed_event, excluded. intros [[-> Hin]|[-> Hin]]; simpl.
  - apply orb_false_iff. split.
    + destruct exclude_provento; [contradiction | reflexivity].
    + destruct (not_in (Some n) exclude_provento) eqn:E; [|exact E].
      now apply not_in_spec in E.
  - apply orb_false_iff. split.
    + destruct exclude_desconto; [contradiction | reflexivity].
    + destruct (not_in (Some n) exclude_desconto) eqn:E; [|exact E].
      now apply not_in_spec in E.
Qed.

Lemma details_never_excluded (lines : list string) :
  Forall (fun d => ~ excluded exclude_provento exclude_desconto
                     (d_numeroEvento d) (d_tipoEvento d))
    (details (parse_lines lines)).
Proof.
  unfold GerarCsv.parse_lines.
  pose (P := fun o : Output =>
               Forall (fun d => ~ excluded exclude_provento exclude_desconto
                                   (d_numeroEvento d) (d_tipoEvento d))
                 (details o)).
  apply (run_preserves P); subst P; cbv beta.
  - apply (step_preserves
             (fun o => Forall (fun d => ~ excluded exclude_provento exclude_desconto
                                          (d_numeroEvento d) (d_tipoEvento d))
                         (details o))).
    + intros o mat H. exact H.
    + intros o mat nome cpf H. exact H.
    + intros o p n Hn H. unfold GerarCsv.flush. cbn [fst].
      destruct (GerarCsv._allowed_event _ _ _ _) eqn:Ha; [|exact H].
      rewrite fold_apply_details. apply Forall_app. split; [exact H|].
      apply Forall_forall. intros d Hd.
      apply list_elem_of_In, in_map_iff in Hd as (c & <- & _).
      cbn [d_numeroEvento d_tipoEvento].
      rewrite Hn in *. rewrite or_empty_some.
      now apply allowed_not_excluded.
  - simpl. constructor.
Qed.

Lemma flush_excluded (o : Output) (p : Pending) (n t : string) :
  pending_event_number p = Some n ->
  pending_event_type p = Some t ->
  excluded exclude_provento exclude_desconto n t ->
  fst (flush o p) = o.
Proof.
  intros Hn Ht He. unfold GerarCsv.flush. cbn [fst].
  rewrite Hn, Ht. now rewrite (excluded_not_allowed _ _ He).
Qed.

Lemma on_numero_evento_excluded (st : State) (v t : string) :
  pending_event_type (pend st) = Some t ->
  excluded exclude_provento exclude_desconto (strip v) t ->
  out (on_numero_evento exclude_provento exclude_desconto st v) = out st.
Proof.
  intros Ht He. unfold on_numero_evento. cbv zeta.
  destruct (truthy_opt _ && nonempty _); [|reflexivity].
  match goal with |- context [GerarCsv.flush _ _ ?o ?p] =>
    pose proof (flush_excluded o p (strip v) t eq_refl Ht He) as H;
    destruct (GerarCsv.flush exclude_provento exclude_desconto o p) end.
  exact H.
Qed.

Lemma on_tipo_evento_excluded (st : State) (v n : string) :
  pending_event_number (pend st) = Some n ->
  excluded exclude_provento exclude_desconto n (upper (strip v)) ->
  out (on_tipo_evento exclude_provento exclude_desconto st v) = out st.
Proof.
  intros Hn He. unfold on_tipo_evento. cbv zeta.
  destruct (truthy_opt _ && nonempty _); [|reflexivity].
  match goal with |- context [GerarCsv.flush _ _ ?o ?p] =>
    pose proof (flush_excluded o p n (upper (strip v)) Hn eq_refl He) as H;
    destruct (GerarCsv.flush exclude_provento exclude_desconto o p) end.
  exact H.
Qed.

(** *** Totals as sums of the details *)

Lemma sum_ctx_snoc (l : list Finite) (a : Finite) :
  sum_ctx (l ++ [a]) = add (sum_ctx l) a.
Proof. unfold sum_ctx. now rewrite fold_left_app. Qed.

Lemma detail_amounts_snoc (m : string) (ds : list Detail) (d : Detail) :
  detail_amounts m (ds ++ [d]) =
  if decide (d_matricula d = m)
  then detail_amounts m ds ++ [d_valorEvento d]
  else detail_amounts m ds.
Proof.
  unfold detail_amounts. rewrite filter_app, filter_cons, filter_nil.
  case_decide; rewrite ?map_app, ?app_nil_r; reflexivity.
Qed.

Lemma apply_contrib_sum num ptype org sign (o : Output) (c : Contrib) :
  (forall m, default (of_Z 0) (totals o !! m)
             = sum_ctx (detail_amounts m (details o))) ->
  forall m,
    default (of_Z 0) (totals (apply_contrib num ptype org sign o c) !! m)
    = sum_ctx (detail_amounts m (details (apply_contrib num ptype org sign o c))).
Proof.
  intros H m. unfold apply_contrib. cbn [totals details].
  rewrite detail_amounts_snoc. cbn [d_matricula d_valorEvento].
  case_decide as E.
  - subst m. rewrite lookup_insert_eq, sum_ctx_snoc, <- H. reflexivity.
  - rewrite lookup_insert_ne by assumption. apply H.
Qed.

Lemma fold_apply_sum num ptype org sign (cs : list Contrib) :
  forall o,
    (forall m, default (of_Z 0) (totals o !! m)
               = sum_ctx (detail_amounts m (details o))) ->
    forall m,
      default (of_Z 0)
        (totals (fold_left (apply_contrib num ptype org sign) cs o) !! m)
      = sum_ctx (detail_amounts m
                   (details (fold_left (apply_contrib num ptype org sign) cs o))).
Proof.
  induction cs as [|c cs IH]; intros o H; simpl; [exact H|].
  apply IH. now apply apply_contrib_sum.
Qed.

Lemma setdefault_zero_default (mat m : string) (t : gmap string Finite) :
  default (of_Z 0) (setdefault_zero mat t !! m) = default (of_Z 0) (t !! m).
Proof.
  unfold setdefault_zero. destruct (t !! mat) eqn:E; [reflexivity|].
  destruct (decide (mat = m)) as [->|Hne].
  - now rewrite lookup_insert_eq, E.
  - now rewrite lookup_insert_ne.
Qed.

(** Every total is the sum, with Python's addition, of the amounts of
    the details of that employee. *)
Lemma totals_are_context_sums (lines : list string) (m : string) :
  default (of_Z 0) (totals (parse_lines lines) !! m)
  = sum_ctx (detail_amounts m (details (parse_lines lines))).
Proof.
  revert m. unfold GerarCsv.parse_lines.
  pose (P := fun o : Output =>
               forall m, default (of_Z 0) (totals o !! m)
                         = sum_ctx (detail_amounts m (details o))).
  apply (run_preserves P); subst P; cbv beta.
  - apply (step_preserves
             (fun o => forall m, default (of_Z 0) (totals o !! m)
                                 = sum_ctx (detail_amounts m (details o)))).
    + intros o mat H m. cbn [totals details].
      rewrite setdefault_zero_default. apply H.
    + intros o mat nome cpf H m. apply H.
    + intros o p n _ H. unfold GerarCsv.flush. cbn [fst].
      destruct (GerarCsv._allowed_event _ _ _ _); [|exact H].
      now apply fold_apply_sum.
  - intros m. reflexivity.
Qed.

Lemma fix_fits (d : Finite) : fits d = true -> fix_ d = d.
Proof. unfold fits, fix_. now intros ->. Qed.

(** While the running exact sums have at most 28 digits, Python's sum
    is the exact sum. *)
Lemma running_fit_exact (l : list Finite) :
  forall acc, running_fit_from acc l = true ->
              fold_left add l acc = fold_left add_exact l acc.
Proof.
  induction l as [|a l IH]; intros acc H; simpl in *; [reflexivity|].
  apply andb_true_iff in H as [Hf Hr].
  unfold add at 2. rewrite (fix_fits _ Hf). now apply IH.
Qed.

(** *** The order of the event-number and event-type lines *)

(** With no event number or type pending, a line with a non-blank
    number and a line with a non-blank type have the same effect in
    both orders. *)
Lemma event_lines_commute (st : State) (ln_n ln_t n t : string) :
  group_v RE_NUMERO_EVENTO ln_n = Some n ->
  or_match (group_v RE_TIPO_EVENTO ln_t) (group_v RE_TIPO_PROVENTO ln_t) = Some t ->
  pending_event_number (pend st) = None ->
  pending_event_type (pend st) = None ->
  truthy (strip n) = true ->
  truthy (upper (strip t)) = true ->
  step (step st ln_n) ln_t = step (step st ln_t) ln_n.
Proof.
  intros Hn Ht Pn Pt Tn Tt.
  rewrite (step_numero_evento _ _ st _ _ Hn), (step_tipo_evento _ _ _ _ _ Ht).
  rewrite (step_tipo_evento _ _ st _ _ Ht), (step_numero_evento _ _ _ _ _ Hn).
  destruct st as [o c [buf pn pt org]]. simpl in Pn, Pt. subst pn pt.
  unfold on_numero_evento, on_tipo_evento. cbn -[GerarCsv.flush strip upper].
  rewrite Tn, Tt. cbn -[GerarCsv.flush strip upper].
  destruct buf as [|b buf]; cbn -[GerarCsv.flush strip upper]; [reflexivity|].
  destruct (GerarCsv.flush _ _ o _). reflexivity.
Qed.

(** A line that is neither an event-number nor an event-type line
    leaves the pending number and type as they are, unless it opens an
    employees section, which clears them. *)
Lemma step_keeps_pending_none (st : State) (ln : string) :
  group_v RE_NUMERO_EVENTO ln = None ->
  or_match (group_v RE_TIPO_EVENTO ln) (group_v RE_TIPO_PROVENTO ln) = None ->
  pending_event_number (pend st) = None /\ pending_event_type (pend st) = None ->
  pending_event_number (pend (step st ln)) = None
  /\ pending_event_type (pend (step st ln)) = None.
Proof.
  intros Hn Ht HP. unfold GerarCsv.step. rewrite Hn, Ht.
  destruct (group_v RE_NUMERO_ORGANOGRAMA ln) as [v|]; [exact HP|].
  assert (HP' : pending_event_number
                  (pend (if matches RE_FUNCIONARIOS_ARRAY ln
                         then on_funcionarios st else st)) = None
                /\ pending_event_type
                     (pend (if matches RE_FUNCIONARIOS_ARRAY ln
                            then on_funcionarios st else st)) = None)
    by (destruct (matches _ ln); [split; reflexivity | exact HP]).
  revert HP'. generalize (if matches RE_FUNCIONARIOS_ARRAY ln
                          then on_funcionarios st else st).
  clear st HP. intros st HP.
  destruct (group_v RE_MATRICULA ln) as [v|]; [exact HP|].
  destruct (group_v RE_NOME ln) as [v|]; [exact HP|].
  destruct (group_v RE_CPF ln) as [v|]; [exact HP|].
  destruct (within_funcionarios (cur st)); [|exact HP].
  destruct (current_matricula (cur st)) as [[|a m]|]; try exact HP.
  destruct (group_v RE_VALOR ln) as [v|]; [|exact HP].
  unfold on_valor. destruct (parse_decimal v) as [[val| |]|]; try exact HP.
  destruct (default _ _). exact HP.
Qed.

Lemma section_has_no_pending (body : list string) :
  forall st,
    Forall (fun ln =>
              group_v RE_NUMERO_EVENTO ln = None
              /\ or_match (group_v RE_TIPO_EVENTO ln)
                          (group_v RE_TIPO_PROVENTO ln) = None) body ->
    pending_event_number (pend st) = None /\ pending_event_type (pend st) = None ->
    pending_event_number (pend (run_lines st body)) = None
    /\ pending_event_type (pend (run_lines st body)) = None.
Proof.
  induction body as [|ln body IH]; intros st HF HP; simpl; [exact HP|].
  apply Forall_cons in HF as [[Hn Ht] HF].
  apply IH; [exact HF|]. now apply step_keeps_pending_none.
Qed.

(** Order independence, where it holds: an employees section followed
    by an event-number line and an event-type line, both non-blank,
    gives the same result in both orders, whatever precedes and
    follows. *)
Lemma event_order_independent_nonblank
    (pre body post : list string) (ln_f ln_n ln_t n t : string) :
  matches RE_FUNCIONARIOS_ARRAY ln_f = true ->
  Forall (fun ln =>
            group_v RE_NUMERO_EVENTO ln = None
            /\ or_match (group_v RE_TIPO_EVENTO ln)
                        (group_v RE_TIPO_PROVENTO ln) = None) body ->
  group_v RE_NUMERO_EVENTO ln_n = Some n ->
  or_match (group_v RE_TIPO_EVENTO ln_t) (group_v RE_TIPO_PROVENTO ln_t) = Some t ->
  truthy (strip n) = true ->
  truthy (upper (strip t)) = true ->
  parse_lines (pre ++ ln_f :: body ++ ln_n :: ln_t :: post)
  = parse_lines (pre ++ ln_f :: body ++ ln_t :: ln_n :: post).
Proof.
  intros Hf Hb Hn Ht Tn Tt. unfold GerarCsv.parse_lines, GerarCsv.run_lines.
  rewrite !fold_left_app. cbn [fold_left]. rewrite !fold_left_app.
  cbn [fold_left]. f_equal. f_equal.
  apply (event_lines_commute _ _ _ n t); try assumption.
  - apply section_has_no_pending; [assumption|].
    rewrite (step_funcionarios _ _ _ _ Hf). split; reflexivity.
  - apply section_has_no_pending; [assumption|].
    rewrite (step_funcionarios _ _ _ _ Hf). split; reflexivity.
Qed.

End Invariants.

End GerarCsvInvariants.

(** ** The block parser: order of the event lines, totals, exclusions *)

Module GerarCsvClaims.
Import PyStr Regex PyDecimal RegexFacts GerarCsv GerarCsvFacts GerarCsvInvariants.
Local Open Scope string_scope.
Local Open Scope list_scope.

(** C1. Swapping the event-number line and the event-type line is meant
    to leave the result of [parse_file] unchanged; the lemma
    [event_order_independent_nonblank] shows that it does whenever both
    values are non-blank. With a blank event number it does not: the
    branch of the type line flushes only when the pending number is a
    non-empty string, while the branch of the number line never looks at
    the number it has just read. For an employees section with one amount
    of 150,00, the file with the blank number first emits nothing and
    leaves the total at 0, and the file with the type first emits one
    detail record with an empty event number and a total of 150.00. *)
Theorem event_order_blank_number_diverges :
  let number_first :=
    parse_file (unlines ["funcionarios: Array"; "matricula: 100";
                         "valor: 150,00"; "numeroEvento: ";
                         "tipoEvento: PROVENTO"]) in
  let type_first :=
    parse_file (unlines ["funcionarios: Array"; "matricula: 100";
                         "valor: 150,00"; "tipoEvento: PROVENTO";
                         "numeroEvento: "]) in
  details number_first = []
  /\ totals number_first !! "100" = Some (of_Z 0)
  /\ details type_first =
       [ {| d_matricula := "100"; d_nome := ""; d_cpf := "";
            d_numeroEvento := ""; d_tipoEvento := "PROVENTO";
            d_valorEvento := {| coef := 15000; expo := -2 |};
            d_numeroOrganograma := "" |} ]
  /\ totals type_first !! "100" = Some {| coef := 15000; expo := -2 |}.
Proof. vm_compute. repeat split; reflexivity. Qed.

(** C2, as stated, fails: with the amounts 9999999999999999999999999999
    and 0.4 for one employee, the stored total is
    9999999999999999999999999999, the second addition being rounded to 28
    digits, and the exact sum of the two detail amounts is
    9999999999999999999999999999.4. *)
Lemma total_differs_from_exact_sum :
  let o := parse_file (unlines ["funcionarios: Array"; "matricula: 1";
                                "valor: 9999999999999999999999999999";
                                "valor: 0.4"; "numeroEvento: 10";
                                "tipoEvento: PROVENTO"]) in
  exists t, totals o !! "1" = Some t
            /\ ~ eqv t (sum_exact (detail_amounts "1" (details o))).
Proof.
  eexists. split.
  - vm_compute. reflexivity.
  - vm_compute. discriminate.
Qed.

(** C2 (amended). For every input and every employee, the stored total
    (0 when the employee has none) is the sum of the signed amounts of
    the employee's detail records, added in the order of emission with
    the decimal addition of the default context, which rounds to 28
    significant digits; whenever every running exact sum has at most 28
    digits, it is their exact sum. *)
Theorem total_is_sum_of_details
    (exclude_provento exclude_desconto lines : list string) (m : string) :
  let o := parse_lines exclude_provento exclude_desconto lines in
  default (of_Z 0) (totals o !! m) = sum_ctx (detail_amounts m (details o))
  /\ (running_fit (detail_amounts m (details o)) = true ->
      default (of_Z 0) (totals o !! m) = sum_exact (detail_amounts m (details o))).
Proof.
  cbv zeta. split.
  - apply totals_are_context_sums.
  - intros H. rewrite totals_are_context_sums.
    unfold sum_ctx, sum_exact. now apply running_fit_exact.
Qed.

Lemma total_is_sum_of_details_witness :
  let o := parse_file (unlines ["funcionarios: Array"; "matricula: 100";
                                "valor: 150,00"; "valor: 2.5";
                                "numeroEvento: 10"; "tipoEvento: DESCONTO"]) in
  running_fit (detail_amounts "100" (details o)) = true
  /\ default (of_Z 0) (totals o !! "100")
     = sum_exact (detail_amounts "100" (details o)).
Proof.
  cbv zeta. split.
  - vm_compute. reflexivity.
  - apply (total_is_sum_of_details EXCLUDE_PROVENTO_EVENTS EXCLUDE_DESCONTO_EVENTS).
    vm_compute. reflexivity.
Defined.

(** C3. An event whose number is in the exclusion list that matches its
    type leaves no trace: no detail record of any output carries an
    excluded pair of number and type; the line that completes such an
    event, be it the number line or the type line, changes neither the
    totals nor the details; and with an empty list no event of that type
    is refused. *)
Theorem excluded_events_are_discarded
    (exclude_provento exclude_desconto : list string) :
  (forall lines d,
      In d (details (parse_lines exclude_provento exclude_desconto lines)) ->
      ~ excluded exclude_provento exclude_desconto
          (d_numeroEvento d) (d_tipoEvento d))
  /\ (forall st ln v t,
         group_v RE_NUMERO_EVENTO ln = Some v ->
         pending_event_type (pend st) = Some t ->
         excluded exclude_provento exclude_desconto (strip v) t ->
         out (step exclude_provento exclude_desconto st ln) = out st)
  /\ (forall st ln v n,
         or_match (group_v RE_TIPO_EVENTO ln) (group_v RE_TIPO_PROVENTO ln) = Some v ->
         pending_event_number (pend st) = Some n ->
         excluded exclude_provento exclude_desconto n (upper (strip v)) ->
         out (step exclude_provento exclude_desconto st ln) = out st)
  /\ (forall num typ,
         upper (or_empty typ) = "PROVENTO" ->
         _allowed_event [] exclude_desconto num typ = true)
  /\ (forall num typ,
         upper (or_empty typ) = "DESCONTO" ->
         _allowed_event exclude_provento [] num typ = true).
Proof.
  repeat split.
  - intros lines d Hd.
    pose proof (details_never_excluded exclude_provento exclude_desconto lines) as H.
    rewrite Forall_forall in H. apply H. now apply list_elem_of_In.
  - intros st ln v t Hv Ht He.
    rewrite (step_numero_evento _ _ _ _ _ Hv).
    now apply (on_numero_evento_excluded _ _ _ _ t).
  - intros st ln v n Hv Hn He.
    rewrite (step_tipo_evento _ _ _ _ _ Hv).
    now apply (on_tipo_evento_excluded _ _ _ _ n).
  - intros num typ H. unfold _allowed_event. now rewrite H.
  - intros num typ H. unfold _allowed_event. now rewrite H.
Qed.

Lemma excluded_events_are_discarded_witness :
  let before :=
    run_lines EXCLUDE_PROVENTO_EVENTS EXCLUDE_DESCONTO_EVENTS initial
      ["funcionarios: Array"; "matricula: 100"; "valor: 150,00";
       "tipoEvento: PROVENTO"] in
  out (step EXCLUDE_PROVENTO_EVENTS EXCLUDE_DESCONTO_EVENTS before
         "numeroEvento: 295") = out before
  /\ _allowed_event [] EXCLUDE_DESCONTO_EVENTS (Some "295") (Some "provento") = true.
Proof.
  cbv zeta. split.
  - apply (proj1 (proj2 (excluded_events_are_discarded
                           EXCLUDE_PROVENTO_EVENTS EXCLUDE_DESCONTO_EVENTS))
             _ _ "295" "PROVENTO").
    + vm_compute. reflexivity.
    + vm_compute. reflexivity.
    + left. split; [reflexivity | vm_compute; tauto].
  - apply (proj1 (proj2 (proj2 (proj2 (excluded_events_are_discarded
                                         EXCLUDE_PROVENTO_EVENTS
                                         EXCLUDE_DESCONTO_EVENTS))))).
    vm_compute. reflexivity.
Defined.

End GerarCsvClaims.

(** ** Strings: the operations of the normalisers *)

Module StrFacts.
Import PyStr RegexFacts.
Local Open Scope string_scope.

Lemma forallb_str_app (p : ascii -> bool) (a b : string) :
  forallb_str p (a +:+ b) = forallb_str p a && forallb_str p b.
Proof.
  induction a as [|c a IH]; simpl; [reflexivity|].
  now rewrite IH, andb_assoc.
Qed.

Lemma forallb_str_impl (p q : ascii -> bool) (s : string) :
  (forall c, p c = true -> q c = true) ->
  forallb_str p s = true -> forallb_str q s = true.
Proof.
  intros Hpq. induction s as [|c s IH]; simpl; [reflexivity|].
  intros H. apply andb_true_iff in H as [Hc Hs].
  now rewrite (Hpq _ Hc), IH.
Qed.

Lemma contains_app (c : ascii) (a b : string) :
  contains c (a +:+ b) = contains c a || contains c b.
Proof.
  induction a as [|d a IH]; simpl; [reflexivity|].
  now rewrite IH, orb_assoc.
Qed.

Lemma contains_false_forallb (c : ascii) (s : string) :
  contains c s = false <-> forallb_str (fun d => negb (Ascii.eqb d c)) s = true.
Proof.
  induction s as [|d s IH]; simpl; [tauto|].
  rewrite orb_false_iff, andb_true_iff, negb_true_iff. tauto.
Qed.

Lemma class_excludes (p : ascii -> bool) (c : ascii) (s : string) :
  p c = false -> forallb_str p s = true -> contains c s = false.
Proof.
  intros Hc H. apply contains_false_forallb.
  revert H. apply forallb_str_impl. intros d Hd.
  destruct (Ascii.eqb d c) eqn:E; [|reflexivity].
  apply Ascii.eqb_eq in E. congruence.
Qed.

Lemma replace_app (c : ascii) (n a b : string) :
  replace c n (a +:+ b) = replace c n a +:+ replace c n b.
Proof.
  induction a as [|d a IH]; simpl; [reflexivity|].
  destruct (Ascii.eqb d c); simpl; rewrite IH; [|reflexivity].
  now rewrite app_assoc_str.
Qed.

Lemma replace_absent (c : ascii) (n s : string) :
  contains c s = false -> replace c n s = s.
Proof.
  induction s as [|d s IH]; simpl; [reflexivity|].
  intros H. apply orb_false_iff in H as [Hd Hs].
  now rewrite Hd, IH.
Qed.

Lemma forallb_str_replace (p : ascii -> bool) (c : ascii) (n s : string) :
  forallb_str p n = true ->
  forallb_str (fun d => p d || Ascii.eqb d c) s = true ->
  forallb_str p (replace c n s) = true.
Proof.
  intros Hn. induction s as [|d s IH]; simpl; [reflexivity|].
  intros H. apply andb_true_iff in H as [Hd Hs].
  destruct (Ascii.eqb d c) eqn:E.
  - rewrite forallb_str_app, Hn. simpl. auto.
  - simpl. rewrite orb_false_r in Hd. rewrite Hd. simpl. auto.
Qed.

Lemma lstrip_nonspace (s : string) :
  forallb_str (fun c => negb (isspace c)) s = true -> lstrip s = s.
Proof.
  destruct s as [|c s]; simpl; [reflexivity|].
  intros H. apply andb_true_iff in H as [Hc _].
  apply negb_true_iff in Hc. now rewrite Hc.
Qed.

Lemma rstrip_nonspace (s : string) :
  forallb_str (fun c => negb (isspace c)) s = true -> rstrip s = s.
Proof.
  induction s as [|c s IH]; simpl; [reflexivity|].
  intros H. apply andb_true_iff in H as [Hc Hs].
  apply negb_true_iff in Hc. rewrite (IH Hs), Hc. now destruct s.
Qed.

Lemma strip_nonspace (s : string) :
  forallb_str (fun c => negb (isspace c)) s = true -> strip s = s.
Proof.
  intros H. unfold strip. now rewrite (lstrip_nonspace _ H), rstrip_nonspace.
Qed.

Lemma truthy_app_r (a b : string) : truthy b = true -> truthy (a +:+ b) = true.
Proof. destruct a; simpl; auto. Qed.

Lemma truthy_app_l (a b : string) : truthy a = true -> truthy (a +:+ b) = true.
Proof. destruct a; simpl; [discriminate | auto]. Qed.

(** *** [rfind] *)

Lemma rfind_absent (c : ascii) (s : string) :
  forall i, contains c s = false -> rfind_from i c s = (-1)%Z.
Proof.
  induction s as [|d s IH]; intros i H; simpl in *; [reflexivity|].
  apply orb_false_iff in H as [Hd Hs].
  now rewrite (IH _ Hs), Hd.
Qed.

Lemma rfind_bound (c : ascii) (s : string) :
  forall i, (0 <= i)%Z ->
    (rfind_from i c s < i + Z.of_nat (String.length s))%Z
    /\ (rfind_from i c s = -1 \/ i <= rfind_from i c s)%Z.
Proof.
  induction s as [|d s IH]; intros i Hi; simpl String.length; simpl rfind_from.
  - lia.
  - destruct (IH (i + 1)%Z ltac:(lia)) as [H1 H2].
    destruct (0 <=? rfind_from (i + 1) c s)%Z eqn:E.
    + apply Z.leb_le in E. lia.
    + destruct (Ascii.eqb d c); lia.
Qed.

Lemma rfind_last (c : ascii) (a b : string) :
  forall i, (0 <= i)%Z -> contains c b = false ->
    rfind_from i c (a +:+ String c b) = (i + Z.of_nat (String.length a))%Z.
Proof.
  induction a as [|d a IH]; intros i Hi Hb.
  - simpl. rewrite (rfind_absent _ _ _ Hb). simpl.
    rewrite Ascii.eqb_refl. lia.
  - simpl String.length. simpl. rewrite (IH (i + 1)%Z ltac:(lia) Hb).
    destruct (0 <=? _)%Z eqn:E; [lia|]. apply Z.leb_gt in E. lia.
Qed.

Lemma rfind_app_absent (c : ascii) (a b : string) :
  forall i, contains c b = false ->
    rfind_from i c (a +:+ b) = rfind_from i c a.
Proof.
  induction a as [|d a IH]; intros i Hb.
  - simpl. now apply rfind_absent.
  - simpl. now rewrite (IH _ Hb).
Qed.

(** The separator before the last part comes after every other one. *)
Lemma rfind_order (c d : ascii) (a f : string) :
  Ascii.eqb c d = false ->
  contains c f = false -> contains d f = false ->
  (rfind d (a +:+ String c f) <? rfind c (a +:+ String c f))%Z = true.
Proof.
  intros Hcd Hc Hd. unfold rfind.
  rewrite (rfind_last c a f 0%Z ltac:(lia) Hc).
  rewrite (rfind_app_absent d a (String c f)).
  - destruct (rfind_bound d a 0%Z ltac:(lia)) as [H _].
    apply Z.ltb_lt. lia.
  - simpl. now rewrite Hcd, Hd.
Qed.

End StrFacts.

(** ** The normalisers on numeric tokens *)

Module NormalizerFacts.
Import PyStr PyDecimal Tokens RegexFacts StrFacts.
Local Open Scope string_scope.

Lemma digits_spec (g : string) :
  digits g = true -> truthy g = true /\ forallb_str isdigit g = true.
Proof. unfold digits. intros H. now apply andb_true_iff in H. Qed.

Lemma sign_prefix_cases (sg : string) :
  sign_prefix sg = true -> sg = "" \/ sg = "+" \/ sg = "-".
Proof.
  unfold sign_prefix. intros H.
  apply orb_true_iff in H as [H|H]; [apply orb_true_iff in H as [H|H]|];
    apply String.eqb_eq in H; auto.
Qed.

Lemma digit_not_space (c : ascii) : isdigit c = true -> isspace c = false.
Proof.
  unfold isdigit, isspace. intros H.
  apply andb_true_iff in H as [H1 H2]. apply Nat.leb_le in H1, H2.
  apply orb_false_iff. split; apply andb_false_iff.
  - right. apply Nat.leb_gt. lia.
  - right. apply Nat.leb_gt. lia.
Qed.

Lemma isdigit_tokchar (c : ascii) : isdigit c = true -> tokchar c = true.
Proof. unfold tokchar. now intros ->. Qed.

Lemma tokchar_cases (c : ascii) :
  tokchar c = true ->
  isdigit c = true \/ c = "+"%char \/ c = "-"%char \/ c = "."%char \/ c = ","%char.
Proof.
  unfold tokchar. intros H.
  repeat (apply orb_true_iff in H as [H|H]);
    try (apply Ascii.eqb_eq in H); auto.
Qed.

Lemma tokchar_nonspace (c : ascii) : tokchar c = true -> negb (isspace c) = true.
Proof.
  intros H. apply negb_true_iff.
  destruct (tokchar_cases _ H) as [D|[->|[->|[->| ->]]]];
    [now apply digit_not_space | reflexivity ..].
Qed.

Lemma digits_tokchars (g : string) :
  forallb_str isdigit g = true -> forallb_str tokchar g = true.
Proof. apply forallb_str_impl, isdigit_tokchar. Qed.

Lemma tokchars_strip (s : string) :
  forallb_str tokchar s = true -> strip s = s.
Proof.
  intros H. apply strip_nonspace. revert H.
  apply forallb_str_impl, tokchar_nonspace.
Qed.

Lemma tokchars_no (c : ascii) (s : string) :
  tokchar c = false -> forallb_str tokchar s = true -> contains c s = false.
Proof. apply class_excludes. Qed.

Lemma digits_no (c : ascii) (s : string) :
  isdigit c = false -> forallb_str isdigit s = true -> contains c s = false.
Proof. apply class_excludes. Qed.

(** *** The groups of a token *)

Lemma join_empty (gs : list string) : join_groups "" gs = concat_groups gs.
Proof. induction gs as [|g gs IH]; simpl; [reflexivity | now rewrite IH]. Qed.

Lemma concat_groups_digits (gs : list string) :
  forallb digits gs = true -> forallb_str isdigit (concat_groups gs) = true.
Proof.
  induction gs as [|g gs IH]; simpl; [reflexivity|].
  intros H. apply andb_true_iff in H as [Hg Hs].
  apply digits_spec in Hg as [_ Hg].
  now rewrite forallb_str_app, Hg, IH.
Qed.

Lemma join_groups_tokchars (th : string) (gs : list string) :
  forallb_str tokchar th = true -> forallb digits gs = true ->
  forallb_str tokchar (join_groups th gs) = true.
Proof.
  intros Ht. induction gs as [|g gs IH]; simpl; [reflexivity|].
  intros H. apply andb_true_iff in H as [Hg Hs].
  apply digits_spec in Hg as [_ Hg].
  rewrite !forallb_str_app, Ht, (digits_tokchars _ Hg), IH by assumption.
  reflexivity.
Qed.

(** Deleting the thousands separator leaves the digits of the groups. *)
Lemma replace_join_same (c : ascii) (gs : list string) :
  isdigit c = false -> forallb digits gs = true ->
  replace c "" (join_groups (String c "") gs) = concat_groups gs.
Proof.
  intros Hc. induction gs as [|g gs IH]; simpl; [reflexivity|].
  intros H. apply andb_true_iff in H as [Hg Hs].
  apply digits_spec in Hg as [_ Hg].
  rewrite Ascii.eqb_refl. simpl. rewrite replace_app, IH by assumption.
  now rewrite (replace_absent c "" g (digits_no _ _ Hc Hg)).
Qed.

Lemma sign_tokchars (sg : string) :
  sign_prefix sg = true -> forallb_str tokchar sg = true.
Proof. intros H. destruct (sign_prefix_cases _ H) as [->|[->| ->]]; reflexivity. Qed.

Lemma sign_no (c : ascii) (sg : string) :
  sign_prefix sg = true -> Ascii.eqb c "+" = false -> Ascii.eqb c "-" = false ->
  contains c sg = false.
Proof.
  intros H Hp Hm. destruct (sign_prefix_cases _ H) as [->|[->| ->]];
    cbn [contains]; rewrite ?orb_false_r; [reflexivity | |].
  - rewrite Ascii.eqb_sym. exact Hp.
  - rewrite Ascii.eqb_sym. exact Hm.
Qed.

Lemma token_tokchars (th dc sg g : string) (gs : list string) (f : string) :
  forallb_str tokchar th = true -> forallb_str tokchar dc = true ->
  sign_prefix sg = true -> digits g = true -> forallb digits gs = true ->
  digits f = true ->
  forallb_str tokchar (token th dc sg g gs f) = true.
Proof.
  intros Ht Hd Hs Hg Hgs Hf. unfold token.
  apply digits_spec in Hg as [_ Hg]. apply digits_spec in Hf as [_ Hf].
  rewrite !forallb_str_app, (sign_tokchars _ Hs), (digits_tokchars _ Hg),
    (join_groups_tokchars _ _ Ht Hgs), Hd, (digits_tokchars _ Hf).
  reflexivity.
Qed.

Lemma token_truthy (th dc sg g : string) (gs : list string) (f : string) :
  digits g = true -> truthy (token th dc sg g gs f) = true.
Proof.
  intros Hg. apply digits_spec in Hg as [Hg _]. unfold token.
  now apply truthy_app_r, truthy_app_l.
Qed.

(** On a token, [parse_decimal] is the choice of the separators followed
    by the constructor. *)
Lemma parse_decimal_tokchars (s : string) :
  forallb_str tokchar s = true -> truthy s = true ->
  GerarCsv.parse_decimal s =
  of_string
    (if contains "," s && contains "." s then
       if (rfind "." s <? rfind "," s)%Z
       then replace "," "." (replace "." "" s)
       else replace "," "" s
     else if contains "," s then replace "," "." s
     else s).
Proof.
  intros Hc Ht. unfold GerarCsv.parse_decimal.
  rewrite (tokchars_strip _ Hc).
  rewrite (replace_absent " " "" s (tokchars_no " " s eq_refl Hc)).
  now rewrite Ht.
Qed.

(** The token with its last separator made explicit. *)
Lemma token_split (th : string) (x : ascii) (sg g : string) (gs : list string)
    (f : string) :
  token th (String x "") sg g gs f
  = (sg +:+ g +:+ join_groups th gs) +:+ String x f.
Proof. unfold token. now rewrite !app_assoc_str. Qed.

Lemma canonical_split (sg g : string) (gs : list string) (f : string) :
  canonical sg g gs f = (sg +:+ g +:+ concat_groups gs) +:+ String "." f.
Proof. unfold canonical. now rewrite !app_assoc_str. Qed.

(** Dot for thousands, comma before the fraction. *)
Lemma parse_decimal_comma_decimal (sg g : string) (gs : list string) (f : string) :
  sign_prefix sg = true -> digits g = true -> forallb digits gs = true ->
  digits f = true ->
  GerarCsv.parse_decimal (token "." "," sg g gs f)
  = of_string (canonical sg g gs f).
Proof.
  intros Hs Hg Hgs Hf.
  rewrite parse_decimal_tokchars
    by (apply token_tokchars || apply token_truthy; auto).
  pose proof (digits_spec _ Hg) as [_ Dg]. pose proof (digits_spec _ Hf) as [_ Df].
  assert (R : replace "," "." (replace "." "" (token "." "," sg g gs f))
              = canonical sg g gs f).
  { rewrite token_split, canonical_split, !replace_app.
    rewrite (replace_absent "." "" sg (sign_no "." _ Hs eq_refl eq_refl)).
    rewrite (replace_absent "." "" g (digits_no "." _ eq_refl Dg)).
    rewrite (replace_join_same "." gs eq_refl Hgs).
    cbn [replace Ascii.eqb Bool.eqb]. cbv iota.
    rewrite (replace_absent "." "" f (digits_no "." _ eq_refl Df)).
    rewrite (replace_absent "," "." sg (sign_no "," _ Hs eq_refl eq_refl)).
    rewrite (replace_absent "," "." g (digits_no "," _ eq_refl Dg)).
    rewrite (replace_absent "," "." _
               (digits_no "," _ eq_refl (concat_groups_digits _ Hgs))).
    rewrite (replace_absent "," "." f (digits_no "," _ eq_refl Df)).
    reflexivity. }
  assert (C : contains "," (token "." "," sg g gs f) = true).
  { rewrite token_split, contains_app. cbn [contains Ascii.eqb Bool.eqb].
    now rewrite orb_true_r. }
  rewrite C. cbn [andb].
  destruct (contains "." (token "." "," sg g gs f)) eqn:D.
  - rewrite token_split.
    rewrite (rfind_order "," "." _ f eq_refl
               (digits_no "," _ eq_refl Df) (digits_no "." _ eq_refl Df)).
    rewrite <- token_split. now rewrite R.
  - rewrite <- R. now rewrite (replace_absent "." "" _ D).
Qed.

(** Comma (or nothing) for thousands, dot before the fraction. *)
Lemma parse_decimal_dot_decimal (th sg g : string) (gs : list string) (f : string) :
  th = "," \/ th = "" ->
  sign_prefix sg = true -> digits g = true -> forallb digits gs = true ->
  digits f = true ->
  GerarCsv.parse_decimal (token th "." sg g gs f)
  = of_string (canonical sg g gs f).
Proof.
  intros Hth Hs Hg Hgs Hf.
  assert (Tth : forallb_str tokchar th = true) by (destruct Hth; subst; reflexivity).
  rewrite parse_decimal_tokchars
    by (apply token_tokchars || apply token_truthy; auto).
  pose proof (digits_spec _ Hg) as [_ Dg]. pose proof (digits_spec _ Hf) as [_ Df].
  assert (R : replace "," "" (token th "." sg g gs f) = canonical sg g gs f).
  { rewrite token_split, canonical_split, !replace_app.
    rewrite (replace_absent "," "" sg (sign_no "," _ Hs eq_refl eq_refl)).
    rewrite (replace_absent "," "" g (digits_no "," _ eq_refl Dg)).
    cbn [replace Ascii.eqb Bool.eqb]. cbv iota.
    rewrite (replace_absent "," "" f (digits_no "," _ eq_refl Df)).
    destruct Hth; subst th.
    - now rewrite (replace_join_same "," gs eq_refl Hgs).
    - rewrite join_empty.
      now rewrite (replace_absent "," "" _
                     (digits_no "," _ eq_refl (concat_groups_digits _ Hgs))). }
  destruct (contains "," (token th "." sg g gs f)) eqn:C; cbn [andb].
  - assert (D : contains "." (token th "." sg g gs f) = true).
    { rewrite token_split, contains_app. cbn [contains Ascii.eqb Bool.eqb].
      now rewrite orb_true_r. }
    rewrite D.
    assert (O : (rfind "." (token th "." sg g gs f)
                 <? rfind "," (token th "." sg g gs f))%Z = false).
    { rewrite token_split.
      pose proof (rfind_order "." "," (sg +:+ g +:+ join_groups th gs) f eq_refl
                    (digits_no "." _ eq_refl Df) (digits_no "," _ eq_refl Df)) as H.
      apply Z.ltb_lt in H. apply Z.ltb_ge. lia. }
    now rewrite O, R.
  - rewrite <- R. now rewrite (replace_absent "," "" _ C).
Qed.

(** *** The constructor on canonical forms *)

Lemma span_all (p : ascii -> bool) (s : string) :
  forallb_str p s = true -> span p s = (s, "").
Proof.
  induction s as [|c s IH]; simpl; [reflexivity|].
  intros H. apply andb_true_iff in H as [Hc Hs]. now rewrite Hc, IH.
Qed.

Lemma span_stop (p : ascii -> bool) (a : string) (c : ascii) (b : string) :
  forallb_str p a = true -> p c = false ->
  span p (a +:+ String c b) = (a, String c b).
Proof.
  intros Ha Hc. induction a as [|d a IH]; simpl.
  - now rewrite Hc.
  - simpl in Ha. apply andb_true_iff in Ha as [Hd Ha]. now rewrite Hd, IH.
Qed.

Lemma digit_not_char (c d : ascii) :
  isdigit c = false -> isdigit d = true -> Ascii.eqb d c = false.
Proof.
  intros Hc Hd. destruct (Ascii.eqb d c) eqn:E; [|reflexivity].
  apply Ascii.eqb_eq in E. congruence.
Qed.

(** The sign of a number that starts with a digit after it. *)
Lemma take_sign_digits (sg d : string) :
  sign_prefix sg = true -> truthy d = true ->
  forallb_str isdigit d = true ->
  forall rest, take_sign (sg +:+ d +:+ rest) = (String.eqb sg "-", d +:+ rest).
Proof.
  intros Hs Ht Hd rest.
  destruct (sign_prefix_cases _ Hs) as [->|[->| ->]]; try reflexivity.
  destruct d as [|c d]; [discriminate|].
  simpl in Hd. apply andb_true_iff in Hd as [Hc _].
  cbn [String.append take_sign].
  now rewrite (digit_not_char "-" c eq_refl Hc), (digit_not_char "+" c eq_refl Hc).
Qed.

Lemma of_string_fraction (sg d f : string) :
  sign_prefix sg = true -> digits d = true -> forallb_str isdigit f = true ->
  of_string (sg +:+ d +:+ String "." f)
  = Some (Fin {| coef := apply_sign (String.eqb sg "-") (digits_value (d +:+ f));
                 expo := (0 - strlen f)%Z |}).
Proof.
  intros Hs Hd Hf. pose proof (digits_spec _ Hd) as [Td Dd].
  assert (T : forallb_str tokchar (sg +:+ d +:+ String "." f) = true).
  { rewrite !forallb_str_app, (sign_tokchars _ Hs), (digits_tokchars _ Dd).
    cbn [forallb_str]. now rewrite (digits_tokchars _ Hf). }
  unfold of_string.
  rewrite (tokchars_strip _ T).
  rewrite (replace_absent "_" "" _ (tokchars_no "_" _ eq_refl T)).
  rewrite (take_sign_digits _ _ Hs Td Dd).
  unfold parse_number.
  rewrite (span_stop isdigit d "." f Dd eq_refl).
  cbn [Ascii.eqb Bool.eqb]. cbv iota.
  rewrite (span_all isdigit f Hf), Td. reflexivity.
Qed.

Lemma of_string_integer (sg d : string) :
  sign_prefix sg = true -> digits d = true ->
  of_string (sg +:+ d)
  = Some (Fin {| coef := apply_sign (String.eqb sg "-") (digits_value d);
                 expo := 0 |}).
Proof.
  intros Hs Hd. pose proof (digits_spec _ Hd) as [Td Dd].
  assert (T : forallb_str tokchar (sg +:+ d) = true)
    by now rewrite !forallb_str_app, (sign_tokchars _ Hs), (digits_tokchars _ Dd).
  unfold of_string.
  rewrite (tokchars_strip _ T).
  rewrite (replace_absent "_" "" _ (tokchars_no "_" _ eq_refl T)).
  pose proof (take_sign_digits _ _ Hs Td Dd "") as S.
  rewrite !app_nil_r_str in S. rewrite S.
  unfold parse_number. rewrite (span_all isdigit d Dd), Td.
  cbn. now rewrite app_nil_r_str.
Qed.

Lemma of_string_canonical (sg g : string) (gs : list string) (f : string) :
  sign_prefix sg = true -> digits g = true -> forallb digits gs = true ->
  digits f = true ->
  of_string (canonical sg g gs f) = Some (token_value sg g gs f).
Proof.
  intros Hs Hg Hgs Hf.
  pose proof (digits_spec _ Hg) as [Tg Dg]. pose proof (digits_spec _ Hf) as [_ Df].
  assert (Hd : digits (g +:+ concat_groups gs) = true).
  { unfold digits. rewrite (truthy_app_l _ _ Tg), forallb_str_app, Dg.
    now rewrite (concat_groups_digits _ Hgs). }
  unfold canonical, token_value.
  change ("." +:+ f) with (String "." f).
  rewrite <- (app_assoc_str g), (of_string_fraction sg _ f Hs Hd Df).
  now rewrite app_assoc_str.
Qed.

(** *** [parse_valor] against [parse_decimal] *)

Import GerarCsv1802002.

Lemma filter_all (p : ascii -> bool) (s : string) :
  forallb_str p s = true -> filter_str p s = s.
Proof.
  induction s as [|c s IH]; simpl; [reflexivity|].
  intros H. apply andb_true_iff in H as [Hc Hs]. now rewrite Hc, IH.
Qed.

Lemma tokchar_not (x c : ascii) :
  tokchar x = false -> tokchar c = true -> Ascii.eqb c x = false.
Proof.
  intros Hx Hc. destruct (Ascii.eqb c x) eqn:E; [|reflexivity].
  apply Ascii.eqb_eq in E. congruence.
Qed.

Lemma strip_quotes_tokchars (s : string) :
  forallb_str tokchar s = true -> _strip_quotes s = s.
Proof.
  intros H. unfold _strip_quotes. rewrite (tokchars_strip _ H).
  destruct s as [|a [|b r]]; try reflexivity.
  cbn [forallb_str] in H. apply andb_true_iff in H as [Ha _].
  now rewrite (tokchar_not Regex.dquote a eq_refl Ha), (tokchar_not squote a eq_refl Ha).
Qed.

Lemma tokchars_no_comma_numeric (s : string) :
  forallb_str tokchar s = true -> contains "," s = false ->
  forallb_str numeric_char s = true.
Proof.
  induction s as [|c s IH]; simpl; [reflexivity|].
  intros H C. apply andb_true_iff in H as [Hc Hs].
  apply orb_false_iff in C as [Cc Cs].
  rewrite (IH Hs Cs), andb_true_r.
  unfold tokchar in Hc. fold (numeric_char c) in Hc.
  now rewrite Cc, orb_false_r in Hc.
Qed.

Lemma only_sign_or_dot_invalid (s : string) :
  only_sign_or_dot s = true -> of_string s = None.
Proof.
  unfold only_sign_or_dot. intros H.
  apply existsb_exists in H as (x & Hx & E). apply String.eqb_eq in E. subst x.
  simpl in Hx. repeat destruct Hx as [<-|Hx]; try reflexivity. contradiction.
Qed.

(** On the characters of numbers the two normalisers agree. *)
Lemma parse_valor_str_tokchars (s : string) :
  forallb_str tokchar s = true ->
  parse_valor_str s = GerarCsv.parse_decimal s.
Proof.
  intros H. unfold parse_valor_str.
  rewrite (tokchars_strip _ H), (strip_quotes_tokchars _ H), (tokchars_strip _ H).
  destruct (truthy s) eqn:T.
  2:{ destruct s; [reflexivity | discriminate]. }
  rewrite (parse_decimal_tokchars _ H T). cbn [negb].
  rewrite (replace_absent " " "" s (tokchars_no " " s eq_refl H)).
  set (r := if contains "," s && contains "." s then _ else _).
  set (r' := if contains "," s && contains "." s then _ else _).
  assert (E : r = r').
  { subst r r'. destruct (contains "," s) eqn:C; cbn [andb]; [|reflexivity].
    destruct (contains "." s) eqn:D; [reflexivity|].
    now rewrite (replace_absent "." "" s D). }
  assert (N : forallb_str numeric_char r' = true).
  { subst r'. destruct (contains "," s) eqn:C; cbn [andb].
    - destruct (contains "." s) eqn:D.
      + destruct (_ <? _)%Z.
        * apply forallb_str_replace; [reflexivity|].
          apply (forallb_str_impl tokchar); [auto|].
          apply forallb_str_replace; [reflexivity|].
          revert H. apply forallb_str_impl. intros c ->. reflexivity.
        * apply forallb_str_replace; [reflexivity | exact H].
      + apply forallb_str_replace; [reflexivity | exact H].
    - now apply tokchars_no_comma_numeric. }
  rewrite E, (filter_all _ _ N).
  destruct (only_sign_or_dot r') eqn:O; [|reflexivity].
  now rewrite (only_sign_or_dot_invalid _ O).
Qed.

(** *** What [parse_valor] deletes *)

Section Subsequence.
(** [p] is the class that a filter keeps, [q] a class that the whole
    string is in. Stripping, unquoting and deleting a character keep
    the string in [q] and, when they remove nothing of [p], keep the
    filtered string. *)
Variables p q : ascii -> bool.
Hypothesis p_not_space : forall c, isspace c = true -> p c = false.











Hypothesis p_not_quote : p Regex.dquote = false /\ p squote = false.


End Subsequence.

Lemma numeric_tokchar (c : ascii) : numeric_char c = true -> tokchar c = true.
Proof. unfold tokchar. fold (numeric_char c). now intros ->. Qed.



(** *** Finite results *)

Lemma filter_forallb (p : ascii -> bool) (s : string) :
  forallb_str p (filter_str p s) = true.
Proof.
  induction s as [|c s IH]; simpl; [reflexivity|].
  destruct (p c) eqn:E; simpl; [now rewrite E | assumption].
Qed.

Lemma numeric_not (x c : ascii) :
  numeric_char x = false -> numeric_char c = true -> Ascii.eqb c x = false.
Proof.
  intros Hx Hc. destruct (Ascii.eqb c x) eqn:E; [|reflexivity].
  apply Ascii.eqb_eq in E. congruence.
Qed.

Lemma numeric_lower (c : ascii) : numeric_char c = true -> lower_char c = c.
Proof.
  intros H. unfold lower_char. destruct (isupper c) eqn:U; [|reflexivity].
  exfalso. apply numeric_tokchar, tokchar_cases in H.
  destruct H as [D|[->|[->|[->| ->]]]]; try discriminate.
  unfold isdigit in D. unfold isupper in U.
  apply andb_true_iff in D as [D1 D2]. apply andb_true_iff in U as [U1 U2].
  apply Nat.leb_le in D1, D2, U1, U2. lia.
Qed.

(** No infinity and no NaN is written with digits, signs and dots. *)
Lemma parse_special_numeric (neg : bool) (body : string) :
  forallb_str numeric_char body = true -> parse_special neg body = None.
Proof.
  destruct body as [|c r]; [reflexivity|].
  cbn [forallb_str]. intros H. apply andb_true_iff in H as [Hc _].
  unfold parse_special. cbn [lower]. rewrite (numeric_lower _ Hc).
  cbn [String.eqb after_prefix].
  rewrite (numeric_not "i" c eq_refl Hc). cbn [andb orb].
  rewrite (Ascii.eqb_sym "n" c), (numeric_not "n" c eq_refl Hc).
  now rewrite (Ascii.eqb_sym "s" c), (numeric_not "s" c eq_refl Hc).
Qed.

Lemma parse_number_finite (neg : bool) (body : string) :
  parse_number neg body = None \/ exists d, parse_number neg body = Some (Fin d).
Proof.
  unfold parse_number.
  destruct (span isdigit body) as [ip s1].
  destruct (match s1 with String c s1' => _ | EmptyString => _ end) as [fp s2].
  destruct (truthy ip || truthy fp); [|now left].
  destruct (parse_exponent s2); [right; eauto | now left].
Qed.

Lemma of_string_numeric (t : string) :
  forallb_str numeric_char t = true ->
  of_string t = None \/ exists d, of_string t = Some (Fin d).
Proof.
  intros H.
  assert (T : forallb_str tokchar t = true)
    by (revert H; apply forallb_str_impl, numeric_tokchar).
  unfold of_string.
  rewrite (tokchars_strip _ T).
  rewrite (replace_absent "_" "" _ (tokchars_no "_" _ eq_refl T)).
  assert (B : forallb_str numeric_char (snd (take_sign t)) = true).
  { destruct t as [|c t]; [reflexivity|]. cbn [take_sign].
    cbn [forallb_str] in H. apply andb_true_iff in H as [Hc Ht].
    destruct (Ascii.eqb c "-"); [exact Ht|].
    destruct (Ascii.eqb c "+"); [exact Ht|].
    cbn [snd forallb_str]. now rewrite Hc. }
  destruct (take_sign t) as [neg body]. cbn [snd] in B.
  destruct (parse_number_finite neg body) as [E|[d E]]; rewrite E.
  - left. now apply parse_special_numeric.
  - right. eauto.
Qed.

(** [parse_valor] on a string gives a finite decimal or nothing. *)
Lemma parse_valor_str_finite (s : string) :
  parse_valor_str s = None \/ exists d, parse_valor_str s = Some (Fin d).
Proof.
  unfold parse_valor_str.
  destruct (negb _); [now left|].
  destruct (only_sign_or_dot _); [now left|].
  apply of_string_numeric, filter_forallb.
Qed.

(** *** The tokens of [RE_VALOR] *)

Lemma plus_digits (w : string) (c0 c1 : option string) :
  Regex.sem (Regex.Plus isdigit) w c0 c1 -> digits w = true /\ c1 = c0.
Proof.
  simpl. intros (w1 & w2 & c & -> & (d & -> & Hd & ->) & Hw & ->).
  split; [|reflexivity]. unfold digits. simpl. now rewrite Hd, Hw.
Qed.

(** A word of the pattern [number]: a sign, digits and possibly a
    separator and more digits. *)
Lemma number_shape (v : string) (c0 c1 : option string) :
  Regex.sem Regex.number v c0 c1 ->
  exists sg ip,
    sign_prefix sg = true /\ digits ip = true
    /\ (v = sg +:+ ip
        \/ exists x fp, (x = "."%char \/ x = ","%char) /\ digits fp = true
                        /\ v = sg +:+ ip +:+ String x fp).
Proof.
  unfold Regex.number. cbn [Regex.seq].
  intros (wsg & w1 & c2 & -> & Hsg & (wip & w2 & c3 & -> & Hip & Hrest)).
  destruct Hrest as (wfr & w3 & c4 & -> & Hfr & [-> _]).
  apply plus_digits in Hip as [Hip _].
  assert (S : sign_prefix wsg = true).
  { destruct Hsg as [(d & -> & Hd & _)|[-> _]]; [|reflexivity].
    unfold Regex.sign_char in Hd.
    apply orb_true_iff in Hd as [E|E]; apply Ascii.eqb_eq in E; now subst. }
  exists wsg, wip. split; [exact S|]. split; [exact Hip|].
  destruct Hfr as [(wx & wf & c5 & -> & (x & -> & Hx & _) & Hf)|[-> _]].
  - right. apply plus_digits in Hf as [Hf _]. exists x, wf.
    split; [|split; [exact Hf|]].
    + unfold Regex.dot_or_comma in Hx.
      apply orb_true_iff in Hx as [E|E]; apply Ascii.eqb_eq in E; auto.
    + now rewrite app_nil_r_str.
  - left. now rewrite !app_nil_r_str.
Qed.

(** Such a word is a finite decimal for [parse_decimal]. *)
Lemma parse_decimal_number (v : string) (c0 c1 : option string) :
  Regex.sem Regex.number v c0 c1 ->
  exists d, GerarCsv.parse_decimal v = Some (Fin d).
Proof.
  intros H. apply number_shape in H as (sg & ip & Hs & Hi & [->|H]).
  - pose proof (digits_spec _ Hi) as [Ti Di].
    assert (T : forallb_str tokchar (sg +:+ ip) = true)
      by now rewrite forallb_str_app, (sign_tokchars _ Hs), (digits_tokchars _ Di).
    rewrite (parse_decimal_tokchars _ T (truthy_app_r _ _ Ti)).
    assert (C : contains "," (sg +:+ ip) = false).
    { rewrite contains_app, (sign_no "," _ Hs eq_refl eq_refl).
      now rewrite (digits_no "," _ eq_refl Di). }
    rewrite C. cbn [andb]. rewrite (of_string_integer _ _ Hs Hi). eauto.
  - destruct H as (x & fp & [->| ->] & Hf & ->).
    + change (sg +:+ ip +:+ String "." fp) with (token "" "." sg ip [] fp).
      rewrite (parse_decimal_dot_decimal "" sg ip [] fp (or_intror eq_refl) Hs Hi eq_refl Hf).
      rewrite (of_string_canonical sg ip [] fp Hs Hi eq_refl Hf).
      unfold token_value. eauto.
    + change (sg +:+ ip +:+ String "," fp) with (token "." "," sg ip [] fp).
      rewrite (parse_decimal_comma_decimal sg ip [] fp Hs Hi eq_refl Hf).
      rewrite (of_string_canonical sg ip [] fp Hs Hi eq_refl Hf).
      unfold token_value. eauto.
Qed.

Lemma opt_quote_cap (w : string) (c0 c1 : option string) :
  Regex.sem (Regex.Opt Regex.quote) w c0 c1 -> c1 = c0.
Proof. simpl. intros [(d & _ & _ & ->)|[_ ->]]; reflexivity. Qed.

(** The amount that [RE_VALOR] captures is always a finite decimal: the
    branch of [on_valor] for a special value or for [None] is never
    taken after a match. *)
Lemma RE_VALOR_token_finite (ln v : string) :
  Regex.group_v GerarCsv.RE_VALOR ln = Some v ->
  exists d, GerarCsv.parse_decimal v = Some (Fin d).
Proof.
  intros H. apply group_v_match, match_sound in H as (w & s' & _ & H).
  unfold GerarCsv.RE_VALOR in H. cbn [Regex.seq] in H.
  destruct H as (w0 & r0 & c0 & _ & [_ ->] & H).
  destruct H as (w1 & r1 & c1 & _ & Hl & H).
  apply sem_lits in Hl as [-> _].
  destruct H as (w2 & r2 & c2 & _ & (d2 & _ & _ & ->) & H).
  destruct H as (w3 & r3 & c3 & _ & [_ ->] & H).
  destruct H as (w4 & r4 & c4 & _ & Hq & H). apply opt_quote_cap in Hq as ->.
  destruct H as (w5 & r5 & c5 & _ & [[cn Hn] ->] & H).
  destruct H as (w6 & r6 & c6 & _ & Hq & H). apply opt_quote_cap in Hq as ->.
  destruct H as (w7 & r7 & c7 & _ & [_ ->] & H).
  destruct H as (w8 & r8 & c8 & _ & [_ ->] & [_ E]).
  injection E as <-. now apply parse_decimal_number in Hn.
Qed.

Lemma RE_VALOR_11802004_token_finite (ln v : string) :
  Regex.group_v GerarCsv11802004.RE_VALOR ln = Some v ->
  exists d, GerarCsv11802004.parse_decimal v = Some (Fin d).
Proof.
  intros H. apply group_v_match, match_sound in H as (w & s' & _ & H).
  unfold GerarCsv11802004.RE_VALOR in H. cbn [Regex.seq] in H.
  destruct H as (w0 & r0 & c0 & _ & [_ ->] & H).
  destruct H as (w1 & r1 & c1 & _ & Hl & H).
  apply sem_lits in Hl as [-> _].
  destruct H as (w2 & r2 & c2 & _ & (d2 & _ & _ & ->) & H).
  destruct H as (w3 & r3 & c3 & _ & [_ ->] & H).
  destruct H as (w5 & r5 & c5 & _ & [[cn Hn] ->] & H).
  destruct H as (w7 & r7 & c7 & _ & [_ ->] & H).
  destruct H as (w8 & r8 & c8 & _ & [_ ->] & [_ E]).
  injection E as <-. now apply parse_decimal_number in Hn.
Qed.

End NormalizerFacts.

(** ** [Decimal] against its syntax *)

Module DecimalSyntax.
Import PyStr PyDecimal Tokens Syntax RegexFacts StrFacts NormalizerFacts.
Local Open Scope string_scope.
























End DecimalSyntax.

(** ** The tokens that the normalisers reject *)

Module Rejection.
Import PyStr PyDecimal Tokens Syntax RegexFacts StrFacts NormalizerFacts DecimalSyntax.
Import GerarCsv1802002.
Local Open Scope string_scope.

(** *** From the result back to the argument *)








(** *** The characters of an accepted text *)










(** *** Texts without a digit *)






(** *** [parse_valor] on a text without a digit *)




End Rejection.

(** ** The normalisers: separators, invalid tokens, stray characters *)

Module NormalizerClaims.
Import PyStr PyDecimal Tokens Syntax RegexFacts StrFacts NormalizerFacts.
Import DecimalSyntax Rejection.
Local Open Scope string_scope.

Lemma canonical_is_token (sg g : string) (gs : list string) (f : string) :
  canonical sg g gs f = token "" "." sg g gs f.
Proof. unfold canonical, token. now rewrite join_empty. Qed.

(** C4. A number written with either separator convention normalises to
    the decimal of its canonical dot form: with a dot for thousands and a
    comma before the fraction, with a comma for thousands and a dot
    before the fraction, with a comma alone before the fraction (no
    further group), and in the canonical form itself; and this for both
    normalisers, [parse_decimal] and [parse_valor]. *)
Theorem separator_conventions_agree
    (sg g : string) (gs : list string) (f : string) :
  sign_prefix sg = true -> digits g = true -> forallb digits gs = true ->
  digits f = true ->
  of_string (canonical sg g gs f) = Some (token_value sg g gs f)
  /\ GerarCsv.parse_decimal (token "." "," sg g gs f) = Some (token_value sg g gs f)
  /\ GerarCsv.parse_decimal (token "," "." sg g gs f) = Some (token_value sg g gs f)
  /\ GerarCsv.parse_decimal (canonical sg g gs f) = Some (token_value sg g gs f)
  /\ GerarCsv1802002.parse_valor_str (token "." "," sg g gs f)
     = Some (token_value sg g gs f)
  /\ GerarCsv1802002.parse_valor_str (token "," "." sg g gs f)
     = Some (token_value sg g gs f)
  /\ GerarCsv1802002.parse_valor_str (canonical sg g gs f)
     = Some (token_value sg g gs f).
Proof.
  intros Hs Hg Hgs Hf.
  pose proof (of_string_canonical sg g gs f Hs Hg Hgs Hf) as V.
  assert (B : GerarCsv.parse_decimal (token "." "," sg g gs f)
              = Some (token_value sg g gs f))
    by now rewrite parse_decimal_comma_decimal.
  assert (U : GerarCsv.parse_decimal (token "," "." sg g gs f)
              = Some (token_value sg g gs f))
    by now rewrite (parse_decimal_dot_decimal "," sg g gs f (or_introl eq_refl)).
  assert (K : GerarCsv.parse_decimal (canonical sg g gs f)
              = Some (token_value sg g gs f)).
  { rewrite canonical_is_token at 1.
    now rewrite (parse_decimal_dot_decimal "" sg g gs f (or_intror eq_refl)). }
  repeat split; try assumption.
  - rewrite parse_valor_str_tokchars; [exact B|].
    now apply token_tokchars.
  - rewrite parse_valor_str_tokchars; [exact U|].
    now apply token_tokchars.
  - rewrite parse_valor_str_tokchars; [exact K|].
    rewrite canonical_is_token. now apply token_tokchars.
Qed.

Lemma separator_conventions_agree_witness :
  GerarCsv.parse_decimal "1.234,56" = Some (Fin {| coef := 123456; expo := -2 |})
  /\ GerarCsv.parse_decimal "1,234.56" = Some (Fin {| coef := 123456; expo := -2 |})
  /\ GerarCsv.parse_decimal "1234,56" = Some (Fin {| coef := 123456; expo := -2 |})
  /\ GerarCsv1802002.parse_valor_str "1.234,56"
     = Some (Fin {| coef := 123456; expo := -2 |}).
Proof.
  pose proof (separator_conventions_agree "" "1" ["234"] "56"
                eq_refl eq_refl eq_refl eq_refl) as (_ & B & U & _ & V & _).
  pose proof (separator_conventions_agree "" "1234" [] "56"
                eq_refl eq_refl eq_refl eq_refl) as (_ & C & _).
  split; [exact B|]. split; [exact U|]. split; [exact C | exact V].
Defined.





(** Not every stray character makes [parse_decimal] fail: [Decimal]
    itself drops surrounding whitespace and underscores, and reads the
    letter E as an exponent, which [parse_valor] deletes. *)
Example parse_decimal_tolerates_what_decimal_reads :
  GerarCsv.parse_decimal "_12_" = Some (Fin {| coef := 12; expo := 0 |})
  /\ GerarCsv.parse_decimal (String "009" "12")
     = Some (Fin {| coef := 12; expo := 0 |})
  /\ GerarCsv.parse_decimal "12e3" = Some (Fin {| coef := 12; expo := 3 |})
  /\ GerarCsv1802002.parse_valor_str "12e3"
     = Some (Fin {| coef := 123; expo := 0 |}).
Proof. repeat split; reflexivity. Qed.








End NormalizerClaims.

(** ** The block parser: the employee metadata *)

Module GerarCsvMeta.
Import PyStr Regex PyDecimal RegexFacts GerarCsv GerarCsvFacts GerarCsvInvariants.
Local Open Scope string_scope.
Local Open Scope list_scope.

Lemma fold_insert_lookup (bs : list (string * (string * string))) (m : string) :
  forall M : gmap string (string * string),
    fold_left (fun acc b => <[ fst b := snd b ]> acc) bs M !! m
    = last_seen_from (M !! m) bs m.
Proof.
  induction bs as [|[k v] bs IH]; intros M; [reflexivity|].
  cbn [fold_left]. rewrite IH. unfold last_seen_from. cbn [fold_left fst snd].
  now rewrite lookup_insert.
Qed.

Section Meta.
Variables exclude_provento exclude_desconto : list string.
Abbreviation step := (GerarCsv.step exclude_provento exclude_desconto).
Abbreviation run_lines := (GerarCsv.run_lines exclude_provento exclude_desconto).

Lemma fold_apply_meta num ptype org sign cs :
  forall o, meta (fold_left (apply_contrib num ptype org sign) cs o) = meta o.
Proof. induction cs as [|c cs IH]; intros o; simpl; [reflexivity | now rewrite IH]. Qed.

Lemma flush_meta o p :
  meta (fst (GerarCsv.flush exclude_provento exclude_desconto o p)) = meta o.
Proof.
  unfold GerarCsv.flush. cbn [fst].
  destruct (_allowed_event _ _ _ _); [apply fold_apply_meta | reflexivity].
Qed.

Lemma neutral_step (st : State) (ln : string) :
  group_v RE_MATRICULA ln = None -> group_v RE_NOME ln = None ->
  group_v RE_CPF ln = None ->
  view (step st ln) = view st.
Proof.
  intros Hm Hn Hc. unfold GerarCsv.step. rewrite Hm, Hn, Hc.
  destruct (group_v RE_NUMERO_EVENTO ln) as [v|].
  { unfold on_numero_evento. cbv zeta.
    destruct (truthy_opt _ && nonempty _); [|reflexivity].
    match goal with |- context [GerarCsv.flush _ _ ?o ?p] =>
      pose proof (flush_meta o p) as H;
      destruct (GerarCsv.flush exclude_provento exclude_desconto o p) end.
    unfold view. cbn [out cur fst] in *. now rewrite H. }
  destruct (group_v RE_NUMERO_ORGANOGRAMA ln) as [v|]; [reflexivity|].
  destruct (or_match _ _) as [v|].
  { unfold on_tipo_evento. cbv zeta.
    destruct (truthy_opt _ && nonempty _); [|reflexivity].
    match goal with |- context [GerarCsv.flush _ _ ?o ?p] =>
      pose proof (flush_meta o p) as H;
      destruct (GerarCsv.flush exclude_provento exclude_desconto o p) end.
    unfold view. cbn [out cur fst] in *. now rewrite H. }
  assert (V : view (if matches RE_FUNCIONARIOS_ARRAY ln
                    then on_funcionarios st else st) = view st)
    by (destruct (matches _ ln); reflexivity).
  rewrite <- V.
  generalize (if matches RE_FUNCIONARIOS_ARRAY ln then on_funcionarios st else st).
  intros st'.
  destruct (within_funcionarios (cur st')); [|reflexivity].
  destruct (current_matricula (cur st')) as [[|a m]|] eqn:E; try reflexivity.
  destruct (group_v RE_VALOR ln) as [v|]; [|reflexivity].
  unfold on_valor. destruct (parse_decimal v) as [[val| |]|]; try reflexivity.
  destruct (default _ _). reflexivity.
Qed.

Lemma agrees_view (e : Expect) (st st' : State) M0 :
  view st' = view st -> agrees e st M0 -> agrees e st' M0.
Proof.
  unfold view. intros V. injection V as V1 V2 V3 V4.
  destruct e; unfold agrees; rewrite V1, ?V2, ?V3; auto.
Qed.

Lemma truthy_cons (s : string) :
  truthy s = true -> exists a r, s = String a r.
Proof. destruct s; [discriminate | eauto]. Qed.

(** The metadata after the blocks are the metadata before them with
    the blocks inserted in their order. *)
Lemma read_blocks_meta (lines : list string) :
  forall e st M0 bs,
    agrees e st M0 -> read_blocks e lines = Some bs ->
    meta (out (run_lines st lines))
    = fold_left (fun acc b => <[ fst b := snd b ]> acc) bs M0.
Proof.
  induction lines as [|ln rest IH]; intros e st M0 bs A R; simpl in R.
  - destruct e; try discriminate. injection R as <-. exact A.
  - cbn [GerarCsv.run_lines fold_left].
    destruct (group_v RE_MATRICULA ln) as [m|] eqn:Em;
      destruct (group_v RE_NOME ln) as [n|] eqn:En;
      destruct (group_v RE_CPF ln) as [c|] eqn:Ec;
      try discriminate.
    + (* an identifier line *)
      destruct e; try discriminate.
      destruct (truthy (strip m)) eqn:T; [|discriminate].
      apply (IH (ExpNome (strip m))); [|exact R].
      rewrite (step_matricula _ _ _ _ _ Em).
      unfold agrees in *. subst M0. unfold on_matricula. cbn [cur out].
      split; [reflexivity|]. split; [exact T|]. intros x.
      rewrite T. cbn [andb].
      destruct (within_funcionarios (cur st));
        destruct (truthy (current_nome (cur st)) || truthy (current_cpf (cur st)));
        cbn [andb set_meta meta]; now rewrite ?insert_insert_eq.
    + (* a name line *)
      destruct e as [|mat|mat nome]; try discriminate.
      apply (IH (ExpCpf mat (strip n))); [|exact R].
      rewrite (step_nome _ _ _ _ _ En).
      destruct A as (Hm & T & Hx).
      destruct (truthy_cons _ T) as (a & r & ->).
      unfold agrees, on_nome. cbn [out cur]. rewrite Hm. cbn [set_meta meta].
      split; [reflexivity|]. split; [exact T|]. split; [reflexivity|].
      intros x. now rewrite insert_insert_eq.
    + (* a tax-id line *)
      destruct e as [|mat|mat nome]; try discriminate.
      destruct (read_blocks ExpMatricula rest) as [bs'|] eqn:R'; [|discriminate].
      injection R as <-. cbn [fold_left fst snd].
      apply (IH ExpMatricula); [|exact R'].
      rewrite (step_cpf _ _ _ _ _ Ec).
      destruct A as (Hm & T & Hn & Hx).
      destruct (truthy_cons _ T) as (a & r & ->).
      unfold agrees, on_cpf. cbn [out]. rewrite Hm, Hn. cbn [set_meta meta].
      apply Hx.
    + (* any other line *)
      apply (IH e); [|exact R].
      apply (agrees_view e st); [|exact A].
      now apply neutral_step.
Qed.

End Meta.
End GerarCsvMeta.

(** ** The fixed-block variant *)

Module FixedBlockFacts.
Import PyStr Regex PyDecimal RegexFacts GerarCsv11802004.
Local Open Scope string_scope.
Local Open Scope list_scope.

(** The three ways the loop goes on from an identifier line. *)
Lemma scan_break (l0 : string) (rest : list string) (t : Tables) (m : string) :
  group_v RE_MATRICULA l0 = Some m -> (length rest < 3)%nat ->
  scan (l0 :: rest) t = t.
Proof.
  intros Hm Hl. cbn [scan]. rewrite Hm.
  destruct rest as [|l1 [|l2 [|l3 rest]]]; try reflexivity.
  simpl in Hl. lia.
Qed.

Lemma scan_invalid (l0 l1 l2 l3 : string) (rest : list string) (t : Tables)
    (m : string) :
  group_v RE_MATRICULA l0 = Some m ->
  ~ (is_Some (group_v RE_NOME l1) /\ is_Some (group_v RE_CPF l2)
     /\ is_Some (group_v RE_VALOR l3)) ->
  scan (l0 :: l1 :: l2 :: l3 :: rest) t = scan (l1 :: l2 :: l3 :: rest) t.
Proof.
  intros Hm Hn. cbn [scan]. rewrite Hm.
  destruct (group_v RE_NOME l1) as [n|]; [|reflexivity].
  destruct (group_v RE_CPF l2) as [c|]; [|reflexivity].
  destruct (group_v RE_VALOR l3) as [v|]; [|reflexivity].
  exfalso. apply Hn. repeat split; eauto.
Qed.

Lemma scan_block (l0 l1 l2 l3 : string) (rest : list string) (t : Tables)
    (m n c v : string) :
  group_v RE_MATRICULA l0 = Some m -> group_v RE_NOME l1 = Some n ->
  group_v RE_CPF l2 = Some c -> group_v RE_VALOR l3 = Some v ->
  scan (l0 :: l1 :: l2 :: l3 :: rest) t
  = scan rest (add_block t (strip m) (strip n) (strip c) (parse_decimal v)).
Proof. intros Hm Hn Hc Hv. cbn [scan]. now rewrite Hm, Hn, Hc, Hv. Qed.

Lemma scan_skip (l0 : string) (rest : list string) (t : Tables) :
  group_v RE_MATRICULA l0 = None -> scan (l0 :: rest) t = scan rest t.
Proof. intros Hm. cbn [scan]. now rewrite Hm. Qed.

(** A relation between the tables before and after that holds at the
    start, and that every complete block of the input extends, holds of
    the result. The blocks are told by the lines [pre] read so far. *)
Lemma scan_blocks_ind (P : list string -> Tables -> Prop) :
  (forall pre l0 l1 l2 l3 t m n c v,
      group_v RE_MATRICULA l0 = Some m -> group_v RE_NOME l1 = Some n ->
      group_v RE_CPF l2 = Some c -> group_v RE_VALOR l3 = Some v ->
      P pre t ->
      P (pre ++ [l0; l1; l2; l3])
        (add_block t (strip m) (strip n) (strip c) (parse_decimal v))) ->
  (forall pre l t, P pre t -> P (pre ++ [l]) t) ->
  forall k lines pre t,
    (length lines <= k)%nat -> P pre t -> exists used, P (pre ++ used) (scan lines t)
                                              /\ exists left, lines = used ++ left.
Proof.
  intros Hb Hs. induction k as [|k IH]; intros lines pre t Hl HP.
  - destruct lines; [|simpl in Hl; lia].
    exists []. rewrite app_nil_r. split; [exact HP | now exists []].
  - destruct lines as [|l0 rest].
    { exists []. rewrite app_nil_r. split; [exact HP | now exists []]. }
    simpl in Hl.
    destruct (group_v RE_MATRICULA l0) as [m|] eqn:Em.
    2:{ rewrite (scan_skip _ _ _ Em).
        destruct (IH rest (pre ++ [l0]) t ltac:(lia) (Hs _ _ _ HP))
          as (used & HU & left & ->).
        exists (l0 :: used). rewrite <- app_assoc in HU. split; [exact HU|].
        now exists left. }
    destruct rest as [|l1 [|l2 [|l3 rest]]];
      try (rewrite (scan_break _ _ _ _ Em) by (simpl; lia);
           exists []; rewrite app_nil_r; split; [exact HP | eauto]).
    destruct (group_v RE_NOME l1) as [n|] eqn:En;
      [destruct (group_v RE_CPF l2) as [c|] eqn:Ec;
       [destruct (group_v RE_VALOR l3) as [v|] eqn:Ev|]|].
    + rewrite (scan_block _ _ _ _ _ _ _ _ _ _ Em En Ec Ev).
      destruct (IH rest (pre ++ [l0; l1; l2; l3]) _ ltac:(simpl in Hl; lia)
                  (Hb _ _ _ _ _ _ _ _ _ _ Em En Ec Ev HP))
        as (used & HU & left & ->).
      exists (l0 :: l1 :: l2 :: l3 :: used). rewrite <- app_assoc in HU.
      split; [exact HU | now exists left].
    + rewrite (scan_invalid _ _ _ _ _ _ _ Em)
        by (intros (_ & _ & [x Hx]); congruence).
      destruct (IH (l1 :: l2 :: l3 :: rest) (pre ++ [l0]) t ltac:(simpl in *; lia)
                  (Hs _ _ _ HP)) as (used & HU & left & E).
      exists (l0 :: used). rewrite <- app_assoc in HU.
      split; [exact HU | exists left; now rewrite E].
    + rewrite (scan_invalid _ _ _ _ _ _ _ Em)
        by (intros (_ & [x Hx] & _); congruence).
      destruct (IH (l1 :: l2 :: l3 :: rest) (pre ++ [l0]) t ltac:(simpl in *; lia)
                  (Hs _ _ _ HP)) as (used & HU & left & E).
      exists (l0 :: used). rewrite <- app_assoc in HU.
      split; [exact HU | exists left; now rewrite E].
    + rewrite (scan_invalid _ _ _ _ _ _ _ Em)
        by (intros ([x Hx] & _ & _); congruence).
      destruct (IH (l1 :: l2 :: l3 :: rest) (pre ++ [l0]) t ltac:(simpl in *; lia)
                  (Hs _ _ _ HP)) as (used & HU & left & E).
      exists (l0 :: used). rewrite <- app_assoc in HU.
      split; [exact HU | exists left; now rewrite E].
Qed.

Lemma has_block_app (pre more : list string) (k : string) :
  has_block pre k -> has_block (pre ++ more) k.
Proof.
  intros (p & l0 & l1 & l2 & l3 & post & m & n & c & v & -> & H).
  exists p, l0, l1, l2, l3, (post ++ more), m, n, c, v.
  split; [|exact H]. now rewrite <- app_assoc.
Qed.

(** An identifier has a total only if the input has a complete block
    for it. *)
Lemma totals_only_from_blocks (lines : list string) (k : string) :
  is_Some (totals (main_tables lines) !! k) -> has_block lines k.
Proof.
  unfold main_tables.
  destruct (scan_blocks_ind
              (fun pre t => forall k, is_Some (totals t !! k) -> has_block pre k))
    with (k := length lines) (lines := lines) (pre := @nil string)
         (t := empty_tables) as (used & HU & left & E).
  - intros pre l0 l1 l2 l3 t m n c v Em En Ec Ev HP k' Hk.
    destruct (decide (strip m = k')) as [Ek|Ek].
    + exists pre, l0, l1, l2, l3, [], m, n, c, v. auto 10.
    + apply has_block_app, HP.
      unfold add_block in Hk. destruct (parse_decimal v) as [[d| |]|]; auto.
      cbn [totals] in Hk. now rewrite lookup_insert_ne in Hk.
  - intros pre l t HP k' Hk. now apply has_block_app, HP.
  - lia.
  - intros k' Hk. cbn in Hk. rewrite lookup_empty in Hk. now destruct Hk.
  - intros Hk. rewrite E. apply has_block_app. now apply HU.
Qed.

Lemma add_block_keeps_meta (t : Tables) (m n c : string) (val : option Decimal)
    (k : string) (v : string * string) :
  meta t !! k = Some v -> meta (add_block t m n c val) !! k = Some v.
Proof.
  intros H. unfold add_block. destruct val as [[d| |]|]; try exact H.
  cbn [meta]. unfold setdefault_meta.
  destruct (meta t !! m) eqn:E; [exact H|].
  rewrite lookup_insert_ne; [exact H|]. intros ->. congruence.
Qed.

(** The fixed-block variant never replaces a recorded name and tax-id. *)
Lemma scan_keeps_meta (lines : list string) (t : Tables) (k : string)
    (v : string * string) :
  meta t !! k = Some v -> meta (scan lines t) !! k = Some v.
Proof.
  intros H.
  destruct (scan_blocks_ind (fun _ t => meta t !! k = Some v))
    with (k := length lines) (lines := lines) (pre := @nil string) (t := t)
    as (used & HU & _); auto.
  intros pre l0 l1 l2 l3 t' m n c x _ _ _ _. apply add_block_keeps_meta.
Qed.

End FixedBlockFacts.

(** ** Metadata of repeated identifiers, and the fixed blocks *)

Module BlockClaims.
Import PyStr Regex PyDecimal RegexFacts.
Local Open Scope string_scope.
Local Open Scope list_scope.

(** C7, as stated, fails for the fixed-block variant, which records the
    name and tax-id with [setdefault]: of two blocks for the identifier
    1, the first with the name A and the second with the name B, it is
    the first that stays. *)
Lemma fixed_block_keeps_first_seen :
  let t := GerarCsv11802004.main_tables
             ["matricula: 1"; "nome: A"; "cpf: 111"; "valor: 1,00";
              "matricula: 1"; "nome: B"; "cpf: 222"; "valor: 2,00"] in
  GerarCsv11802004.meta t !! "1" = Some ("A", "111")
  /\ GerarCsv11802004.meta t !! "1" <> Some ("B", "222").
Proof. vm_compute. split; [reflexivity | discriminate]. Qed.

(** C7 (amended). In [parse_file], for an input made of employee blocks
    (an identifier line, then a name line, then a tax-id line, with other
    lines anywhere around them), the metadata of every identifier are the
    name and tax-id of the last block with that identifier. The
    fixed-block variant never replaces a pair it has recorded: there the
    first complete block of an identifier decides. *)
Theorem metadata_last_seen_wins
    (exclude_provento exclude_desconto lines : list string)
    (bs : list (string * (string * string))) (m : string) :
  GerarCsv.read_blocks GerarCsv.ExpMatricula lines = Some bs ->
  GerarCsv.meta (GerarCsv.parse_lines exclude_provento exclude_desconto lines) !! m
  = GerarCsv.last_seen bs m
  /\ (forall lines' t k v,
         GerarCsv11802004.meta t !! k = Some v ->
         GerarCsv11802004.meta (GerarCsv11802004.scan lines' t) !! k = Some v).
Proof.
  intros R. split.
  - unfold GerarCsv.parse_lines.
    rewrite (GerarCsvMeta.read_blocks_meta exclude_provento exclude_desconto
               lines GerarCsv.ExpMatricula GerarCsv.initial ∅ bs eq_refl R).
    rewrite GerarCsvMeta.fold_insert_lookup.
    reflexivity.
  - intros lines' t k v. apply FixedBlockFacts.scan_keeps_meta.
Qed.

Lemma metadata_last_seen_wins_witness :
  GerarCsv.meta
    (GerarCsv.parse_lines GerarCsv.EXCLUDE_PROVENTO_EVENTS
       GerarCsv.EXCLUDE_DESCONTO_EVENTS
       ["funcionarios: Array"; "matricula: 1"; "nome: A"; "cpf: 111";
        "valor: 1,00"; "matricula: 2"; "nome: C"; "cpf: 333";
        "matricula: 1"; "nome: B"; "cpf: 222"; "numeroEvento: 10"])
    !! "1"
  = Some ("B", "222").
Proof.
  exact (proj1 (metadata_last_seen_wins
                  GerarCsv.EXCLUDE_PROVENTO_EVENTS GerarCsv.EXCLUDE_DESCONTO_EVENTS
                  ["funcionarios: Array"; "matricula: 1"; "nome: A"; "cpf: 111";
                   "valor: 1,00"; "matricula: 2"; "nome: C"; "cpf: 333";
                   "matricula: 1"; "nome: B"; "cpf: 222"; "numeroEvento: 10"]
                  [("1", ("A", "111")); ("2", ("C", "333")); ("1", ("B", "222"))]
                  "1" eq_refl)).
Defined.

(** C10. In the fixed-block variant an identifier gets a total only from
    a complete block: an identifier line immediately followed by a name
    line, a tax-id line and an amount line. At an identifier line with
    fewer than three lines after it the loop stops and the tables stay as
    they are; at one whose next three lines are not of that layout the
    loop moves on by one line and the tables stay as they are. *)
Theorem fixed_block_contributions :
  (forall lines k,
      is_Some (GerarCsv11802004.totals (GerarCsv11802004.main_tables lines) !! k) ->
      GerarCsv11802004.has_block lines k)
  /\ (forall l0 rest t m,
         group_v GerarCsv11802004.RE_MATRICULA l0 = Some m ->
         (length rest < 3)%nat ->
         GerarCsv11802004.scan (l0 :: rest) t = t)
  /\ (forall l0 l1 l2 l3 rest t m,
         group_v GerarCsv11802004.RE_MATRICULA l0 = Some m ->
         ~ (is_Some (group_v GerarCsv11802004.RE_NOME l1)
            /\ is_Some (group_v GerarCsv11802004.RE_CPF l2)
            /\ is_Some (group_v GerarCsv11802004.RE_VALOR l3)) ->
         GerarCsv11802004.scan (l0 :: l1 :: l2 :: l3 :: rest) t
         = GerarCsv11802004.scan (l1 :: l2 :: l3 :: rest) t).
Proof.
  split; [|split].
  - apply FixedBlockFacts.totals_only_from_blocks.
  - apply FixedBlockFacts.scan_break.
  - apply FixedBlockFacts.scan_invalid.
Qed.

Lemma fixed_block_contributions_witness :
  GerarCsv11802004.has_block
    ["matricula: 1"; "nome: A"; "cpf: 111"; "valor: 1,00";
     "matricula: 2"; "nome: B"; "cpf: 222"] "1"
  /\ GerarCsv11802004.scan ["matricula: 2"; "nome: B"; "cpf: 222"]
       GerarCsv11802004.empty_tables
     = GerarCsv11802004.empty_tables
  /\ GerarCsv11802004.scan ["matricula: 3"; "nome: C"; "valor: 3"; "cpf: 333"]
       GerarCsv11802004.empty_tables
     = GerarCsv11802004.scan ["nome: C"; "valor: 3"; "cpf: 333"]
         GerarCsv11802004.empty_tables.
Proof.
  split; [|split].
  - apply (proj1 fixed_block_contributions). vm_compute. eauto.
  - apply (proj1 (proj2 fixed_block_contributions) _ _ _ "2").
    + vm_compute. reflexivity.
    + simpl. lia.
  - apply (proj2 (proj2 fixed_block_contributions) _ _ _ _ _ _ "3").
    + vm_compute. reflexivity.
    + vm_compute. intros (_ & [x Hx] & _). discriminate.
Defined.

End BlockClaims.

(** ** The merge tool: the first loop and the union of headers *)

Module UnificarCsvsFacts.
Import UnificarCsvs.
Local Open Scope string_scope.
Local Open Scope list_scope.

(** The insertions into [all_headers] are the header rows, one after
    the other. *)
Lemma fold_union_headers (hs : list (list string)) :
  forall acc : list string, fold_left union_headers hs acc = acc ++ concat hs.
Proof.
  induction hs as [|h hs IH]; intros acc; cbn [fold_left concat].
  - now rewrite app_nil_r.
  - rewrite IH. unfold union_headers. now rewrite app_assoc.
Qed.

Lemma dedup_first_spec (l : list string) :
  forall seen,
    NoDup (dedup_first seen l)
    /\ forall x, x ∈ dedup_first seen l <-> x ∈ l /\ x ∉ seen.
Proof.
  induction l as [|a l IH]; intros seen; cbn [dedup_first].
  - split; [constructor|]. intros x. rewrite elem_of_nil. tauto.
  - destruct (decide (a ∈ seen)) as [Ha|Ha].
    + destruct (IH seen) as [ND EL]. split; [exact ND|].
      intros x. rewrite EL, elem_of_cons. split; [tauto|].
      intros [[->|Hx] Hs]; [contradiction | tauto].
    + destruct (IH (a :: seen)) as [ND EL]. split.
      * constructor; [|exact ND]. rewrite EL, elem_of_cons. tauto.
      * intros x. rewrite !elem_of_cons, EL, elem_of_cons.
        destruct (decide (x = a)) as [->|Hne]; tauto.
Qed.

(** An order of listing that Python could show: the reverse of the
    first-seen order. *)
Lemma reverse_first_seen_lists_each_once :
  lists_each_once (fun insertions => reverse (dedup_first [] insertions)).
Proof.
  intros l. destruct (dedup_first_spec l []) as [ND EL]. split.
  - cbv beta. now rewrite reverse_Permutation.
  - intros x. rewrite elem_of_reverse, EL, elem_of_nil. tauto.
Qed.

Lemma first_seen_lists_each_once : lists_each_once (dedup_first []).
Proof.
  intros l. destruct (dedup_first_spec l []) as [ND EL]. split; [exact ND|].
  intros x. rewrite EL, elem_of_nil. tauto.
Qed.

Section MergeFacts.
Variable read_sample : Encoding -> string -> option string.
Variable sniff : string -> option string.
Variable read_header : Encoding -> string -> string -> option (list string).
Variable read_sample_replace : string -> string.
Variable read_header_replace : string -> string -> list string.
Variable read_rows : Encoding -> string -> string -> list (gmap string string) * bool.
Variable write_csv : list string -> list (gmap string string) -> string.
Variable set_order : list string -> list string.
Variable dirname basename : string -> string.

Abbreviation sniff_csv :=
  (UnificarCsvs.sniff_csv read_sample sniff read_header read_sample_replace
     read_header_replace).
Abbreviation collect :=
  (UnificarCsvs.collect read_sample sniff read_header read_sample_replace
     read_header_replace).
Abbreviation unify_csvs :=
  (UnificarCsvs.unify_csvs read_sample sniff read_header read_sample_replace
     read_header_replace read_rows write_csv set_order dirname basename).
Abbreviation fieldnames :=
  (UnificarCsvs.fieldnames read_sample sniff read_header read_sample_replace
     read_header_replace set_order).

(** The first loop stops at the first input that is not a file. *)
Lemma collect_missing (fs : gmap string Entry) (inputs : list string) :
  forall file_info all_headers before q after,
    inputs = before ++ q :: after ->
    Forall (fun p => isfile fs p = true) before ->
    isfile fs q = false ->
    collect fs inputs file_info all_headers = inl (FileNotFoundError q).
Proof.
  induction inputs as [|p rest IH]; intros fi ah before q after E HB Hq.
  - destruct before; discriminate.
  - destruct before as [|b before]; cbn [app] in E; injection E as -> ->.
    + cbn [UnificarCsvs.collect]. now rewrite Hq.
    + apply Forall_cons in HB as [Hb HB].
      cbn [UnificarCsvs.collect]. rewrite Hb.
      destruct (sniff_csv _) as [d h]. now apply (IH _ _ before q after).
Qed.

(** Among inputs of which one is not a file there is a first one. *)
Lemma first_missing (fs : gmap string Entry) (inputs : list string) (p : string) :
  In p inputs -> isfile fs p = false ->
  exists before q after,
    inputs = before ++ q :: after
    /\ Forall (fun p => isfile fs p = true) before
    /\ isfile fs q = false.
Proof.
  induction inputs as [|x rest IH]; intros Hin Hp; [contradiction|].
  destruct (isfile fs x) eqn:Ex.
  - destruct Hin as [->|Hin]; [congruence|].
    destruct (IH Hin Hp) as (before & q & after & -> & HB & Hq).
    exists (x :: before), q, after. repeat split; auto.
  - exists [], x, rest. repeat split; auto.
Qed.

(** With every input a file, the first loop gathers the header rows. *)
Lemma collect_all_files (fs : gmap string Entry) (inputs : list string) :
  forall file_info all_headers,
    Forall (fun p => isfile fs p = true) inputs ->
    exists file_info',
      collect fs inputs file_info all_headers
      = inr (file_info',
             fold_left union_headers
               (map (fun p => snd (sniff_csv (content_of fs p))) inputs)
               all_headers).
Proof.
  induction inputs as [|p rest IH]; intros fi ah HF; cbn [UnificarCsvs.collect].
  - eauto.
  - apply Forall_cons in HF as [Hp HF]. rewrite Hp. cbn [map fold_left].
    destruct (sniff_csv (content_of fs p)) as [d h]. cbn [snd].
    apply IH, HF.
Qed.

Lemma fieldnames_merged (fs : gmap string Entry) (inputs : list string)
    (add_origin : bool) :
  Forall (fun p => isfile fs p = true) inputs ->
  fieldnames fs inputs add_origin
  = Some (merged_header set_order add_origin
            (map (fun p => snd (sniff_csv (content_of fs p))) inputs)).
Proof.
  intros HF. unfold UnificarCsvs.fieldnames.
  destruct (collect_all_files fs inputs [] [] HF) as (fi & ->). reflexivity.
Qed.

End MergeFacts.
End UnificarCsvsFacts.

(** ** The merge tool: missing inputs and the header *)

Module MergeClaims.
Import UnificarCsvs UnificarCsvsFacts.
Local Open Scope string_scope.
Local Open Scope list_scope.

(** C8. When an input of the merge does not exist, [unify_csvs] raises
    [FileNotFoundError] for the first input that is not a file, and the
    file system is as it was: no directory made, no output created or
    written. *)
Theorem unify_csvs_missing_input
    (read_sample : Encoding -> string -> option string)
    (sniff : string -> option string)
    (read_header : Encoding -> string -> string -> option (list string))
    (read_sample_replace : string -> string)
    (read_header_replace : string -> string -> list string)
    (read_rows : Encoding -> string -> string -> list (gmap string string) * bool)
    (write_csv : list string -> list (gmap string string) -> string)
    (set_order : list string -> list string)
    (dirname basename : string -> string)
    (fs : gmap string Entry) (inputs : list string) (output : string)
    (add_origin : bool) (p : string) :
  In p inputs -> fs !! p = None ->
  exists before q after,
    inputs = before ++ q :: after
    /\ Forall (fun x => isfile fs x = true) before
    /\ isfile fs q = false
    /\ unify_csvs read_sample sniff read_header read_sample_replace
         read_header_replace read_rows write_csv set_order dirname basename
         fs inputs output add_origin
       = (fs, Some (FileNotFoundError q)).
Proof.
  intros Hin Hp.
  assert (Hf : isfile fs p = false) by (unfold isfile; now rewrite Hp).
  destruct (first_missing fs inputs p Hin Hf) as (before & q & after & E & HB & Hq).
  exists before, q, after. repeat split; try assumption.
  unfold unify_csvs.
  now rewrite (collect_missing read_sample sniff read_header read_sample_replace
                 read_header_replace fs inputs [] [] before q after E HB Hq).
Qed.

Lemma unify_csvs_missing_input_witness :
  let fs : gmap string Entry := {[ "a_agrupado.csv" := File "matricula,total" ]} in
  exists before q after,
    ["a_agrupado.csv"; "b_agrupado.csv"] = before ++ q :: after
    /\ Forall (fun x => isfile fs x = true) before
    /\ isfile fs q = false
    /\ unify_csvs (fun _ c => Some c) (fun _ => None) (fun _ _ c => Some [c])
         (fun c => c) (fun _ c => [c]) (fun _ _ _ => ([], true))
         (fun _ _ => "") (dedup_first []) (fun _ => "") (fun p => p)
         fs ["a_agrupado.csv"; "b_agrupado.csv"] "merged.csv" true
       = (fs, Some (FileNotFoundError q)).
Proof.
  cbv zeta.
  apply (unify_csvs_missing_input _ _ _ _ _ _ _ _ _ _ _ _ _ _ "b_agrupado.csv").
  - simpl. auto.
  - vm_compute. reflexivity.
Defined.

(** C9, as stated, fails: the headers outside the preferred ones come out
    in the order in which Python lists the set that collects them, and
    nothing in [unify_csvs] makes that the first-seen order. With an
    order of listing that Python may show (the elements, each once, here
    last-seen first), the header of one input with the columns x, y is
    not in first-seen order. *)
Lemma merged_header_not_first_seen :
  exists set_order : list string -> list string,
    lists_each_once set_order
    /\ merged_header set_order true [["x"; "y"]] = ["y"; "x"; "organograma"]
    /\ spec_header true [["x"; "y"]] = ["x"; "y"; "organograma"]
    /\ merged_header set_order true [["x"; "y"]] <> spec_header true [["x"; "y"]].
Proof.
  exists (fun insertions => reverse (dedup_first [] insertions)).
  split; [exact reverse_first_seen_lists_each_once|].
  split; [reflexivity|]. split; [reflexivity|]. discriminate.
Qed.

(** C9 (amended). Whatever the order in which the run lists a set, the
    merged header is the preferred headers that occur among the inputs'
    headers, in the preferred order, followed by the remaining headers
    of the union, each once, in the order in which the set that
    collects them is listed (a rearrangement of their first-seen
    order), followed by the origin column unless suppressed. *)
Theorem merged_header_shape
    (set_order : list string -> list string) (add_origin : bool)
    (hs : list (list string)) :
  lists_each_once set_order ->
  exists rest,
    merged_header set_order add_origin hs
    = filter (fun h => h ∈ concat hs) preferred ++ rest ++ origin_column add_origin
    /\ rest ≡ₚ filter (fun h => h ∉ preferred) (first_seen hs).
Proof.
  intros Hso.
  assert (HU : fold_left union_headers hs [] = concat hs)
    by apply fold_union_headers.
  destruct (Hso (concat hs)) as [ND EL].
  exists (filter (fun h => h ∉ preferred) (set_order (concat hs))). split.
  - unfold merged_header, with_origin, order_headers, origin_column.
    rewrite HU. destruct add_origin.
    + now rewrite <- app_assoc.
    + now rewrite app_nil_r.
  - apply NoDup_Permutation.
    + now apply NoDup_filter.
    + apply NoDup_filter. unfold first_seen. apply dedup_first_spec.
    + intros x. rewrite !list_elem_of_filter. unfold first_seen.
      rewrite (proj2 (dedup_first_spec _ _)), EL, elem_of_nil. tauto.
Qed.

Lemma merged_header_shape_witness :
  exists rest,
    merged_header (fun insertions => reverse (dedup_first [] insertions)) true
      [["total"; "x"; "matricula"]; ["y"; "x"]]
    = ["matricula"; "total"] ++ rest ++ ["organograma"]
    /\ rest ≡ₚ ["x"; "y"].
Proof.
  destruct (merged_header_shape
              (fun insertions => reverse (dedup_first [] insertions)) true
              [["total"; "x"; "matricula"]; ["y"; "x"]]) as (rest & E & P).
  - exact reverse_first_seen_lists_each_once.
  - exists rest. split; [exact E | exact P].
Defined.

End MergeClaims.

(** ** The patterns: what they read *)

Module PatternFacts.
Import PyStr Regex RegexFacts StrFacts.
Local Open Scope string_scope.

(** A greedy star that the rest of the pattern accepts after the whole
    run keeps the whole run. *)
Lemma star_greedy {A : Type} (p : ascii -> bool) (w rest : string)
    (k : option ascii -> string -> option A) (x : A) :
  forallb_str p w = true ->
  (forall pv, star p pv rest k = Some x) ->
  forall pv, star p pv (w +:+ rest) k = Some x.
Proof.
  intros Hw Hk. induction w as [|c w IH]; intros pv; simpl.
  - apply Hk.
  - simpl in Hw. apply andb_true_iff in Hw as [Hc Hw].
    rewrite Hc, (IH Hw). reflexivity.
Qed.

Lemma star_stop {A : Type} (p : ascii -> bool) (s : string)
    (k : option ascii -> string -> option A) (pv : option ascii) :
  match s with String c _ => p c = false | EmptyString => True end ->
  star p pv s k = k pv s.
Proof. destruct s as [|c s]; simpl; [reflexivity | now intros ->]. Qed.

Lemma lower_cons_inv (L : string) (c : ascii) (l : string) :
  lower L = lower (String c l) ->
  exists d L', L = String d L' /\ lower_char d = lower_char c /\ lower L' = lower l.
Proof.
  destruct L as [|d L']; simpl; [discriminate|].
  intros H. injection H as H1 H2. eauto.
Qed.

(** A label written in any case is read by the literals of the label. *)
Lemma run_lits {A : Type} (label : string) :
  forall (L t : string) (R : re) (cap : option string) (k : cont (A:=A)) (x : A),
    lower L = lower label ->
    (forall pv, run R pv t cap k = Some x) ->
    forall pv, run (Cat (lits label) R) pv (L +:+ t) cap k = Some x.
Proof.
  induction label as [|c l IH]; intros L t R cap k x HL HR pv.
  - destruct L; [|discriminate]. simpl. apply HR.
  - apply lower_cons_inv in HL as (d & L' & -> & Hd & HL).
    simpl. rewrite Hd, Ascii.eqb_refl.
    apply (IH L' t R cap k x HL HR).
Qed.

Lemma length_lstrip (s : string) : String.length (lstrip s) <= String.length s.
Proof.
  induction s as [|c s IH]; simpl; [lia|].
  destruct (isspace c); simpl; lia.
Qed.

Lemma length_rstrip (s : string) : String.length (rstrip s) <= String.length s.
Proof.
  induction s as [|c s IH]; simpl; [lia|].
  destruct (rstrip s); [destruct (isspace c)|]; simpl in *; lia.
Qed.

(** A text that [strip] leaves alone starts with no whitespace. *)
Lemma strip_fixed_head (c : ascii) (s : string) :
  strip (String c s) = String c s -> isspace c = false.
Proof.
  unfold strip. simpl. destruct (isspace c); [|reflexivity].
  intros H. pose proof (length_rstrip (lstrip s)) as H1.
  pose proof (length_lstrip s) as H2. rewrite H in H1. simpl in H1. lia.
Qed.

Lemma strip_fixed_rstrip (s : string) : strip s = s -> rstrip s = s.
Proof.
  destruct s as [|c s]; [reflexivity|]. intros H.
  pose proof (strip_fixed_head _ _ H) as Hc.
  unfold strip in H. simpl in H. now rewrite Hc in H.
Qed.

Lemma rstrip_ws (t : string) : forallb_str isspace t = true -> rstrip t = "".
Proof.
  induction t as [|c t IH]; simpl; [reflexivity|].
  intros H. apply andb_true_iff in H as [Hc Ht]. now rewrite (IH Ht), Hc.
Qed.

Lemma rstrip_app_ws (a t : string) :
  forallb_str isspace t = true -> rstrip (a +:+ t) = rstrip a.
Proof.
  intros Ht. induction a as [|c a IH]; simpl.
  - now apply rstrip_ws.
  - now rewrite IH.
Qed.

Lemma not_quote_is_no_quote (c : ascii) :
  not_quote_cr_lf c = true -> Ascii.eqb c dquote = false.
Proof.
  unfold not_quote_cr_lf. rewrite negb_true_iff, !orb_false_iff. tauto.
Qed.

Lemma label_starts_line (label L lead t : string) (c : ascii) (l : string)
    (x : option string) (R : re) :
  label = String c l ->
  isspace (lower_char c) = false ->
  lower L = lower label ->
  forallb_str isspace lead = true ->
  (forall pv, run R pv t None (fun _ _ cap => Some cap) = Some x) ->
  match_ (Cat (Star ws) (Cat (lits label) R)) (lead +:+ L +:+ t) = Some x.
Proof.
  intros Hlabel Hc HL Hlead HR. unfold match_. simpl.
  apply star_greedy; [exact Hlead|]. intros pv.
  rewrite star_stop.
  - now apply run_lits.
  - rewrite Hlabel in HL.
    apply lower_cons_inv in HL as (d & L' & -> & Hd & _).
    simpl. unfold ws. destruct (isspace d) eqn:E; [|reflexivity].
    apply isspace_lower_char in E as E'. rewrite E' in Hd. congruence.
Qed.

(** What follows the label in a field pattern, on a quoted value. *)
Lemma value_quoted (sp v trail : string) :
  forallb_str isspace sp = true ->
  truthy v = true ->
  forallb_str not_quote_cr_lf v = true ->
  forallb_str isspace trail = true ->
  forall pv,
    run (seq [Lit ":"; Star ws; Opt quote; Grp (Plus not_quote_cr_lf);
              Opt quote; Star ws; Eol]) pv
      (":" +:+ sp +:+ String dquote (v +:+ String dquote trail)) None
      (fun _ _ cap => Some cap)
    = Some (Some v).
Proof.
  intros Hsp Hv Hnq Htrail pv. simpl.
  apply star_greedy; [exact Hsp|]. intros pv1.
  rewrite star_stop by reflexivity. simpl.
  destruct v as [|v0 v']; [discriminate|]. simpl in Hnq.
  apply andb_true_iff in Hnq as [H0 Hv'].
  simpl. rewrite H0.
  match goal with |- match ?X with _ => _ end = _ =>
    assert (EX : X = Some (Some (String v0 v'))); [|now rewrite EX] end.
  apply star_greedy; [exact Hv'|]. intros pv2.
  rewrite star_stop by reflexivity.
  change (String v0 (v' +:+ String dquote trail))
    with (String v0 v' +:+ String dquote trail).
  rewrite consumed_app. simpl.
  match goal with |- match ?X with _ => _ end = _ =>
    assert (EY : X = Some (Some (String v0 v'))); [|now rewrite EY] end.
  rewrite <- (app_nil_r_str trail).
  apply star_greedy; [exact Htrail|]. intros pv3. reflexivity.
Qed.

(** The same on a value without quotes: the group takes the value and
    the blanks after it. *)
Lemma value_unquoted (sp v trail : string) :
  forallb_str isspace sp = true ->
  truthy v = true ->
  strip v = v ->
  forallb_str not_quote_cr_lf (v +:+ trail) = true ->
  forall pv,
    run (seq [Lit ":"; Star ws; Opt quote; Grp (Plus not_quote_cr_lf);
              Opt quote; Star ws; Eol]) pv
      (":" +:+ sp +:+ v +:+ trail) None
      (fun _ _ cap => Some cap)
    = Some (Some (v +:+ trail)).
Proof.
  intros Hsp Hv Hs Hnq pv. simpl.
  apply star_greedy; [exact Hsp|]. intros pv1.
  destruct v as [|v0 v']; [discriminate|].
  apply strip_fixed_head in Hs.
  simpl in Hnq. apply andb_true_iff in Hnq as [H0 Hv'].
  rewrite star_stop by exact Hs. simpl.
  rewrite (not_quote_is_no_quote _ H0), H0.
  rewrite <- (app_nil_r_str (v' +:+ trail)) at 1.
  apply star_greedy; [exact Hv'|]. intros pv2. simpl.
  rewrite <- (app_nil_r_str (v' +:+ trail)) at 1.
  change (String v0 ((v' +:+ trail) +:+ ""))
    with (String v0 (v' +:+ trail) +:+ "").
  now rewrite consumed_app.
Qed.

End PatternFacts.

Module PatternProperties.
Import PyStr Regex RegexFacts StrFacts PatternFacts.
Local Open Scope string_scope.

(** X1. A field pattern reads back a value written after its label. For
    a label that starts with no whitespace, written in any case and
    between any blanks, a non-empty value without a quote, CR or LF is
    the group [v] when it stands between double quotes; without quotes
    the group is the value with the blanks after it, which the [strip]
    of every caller removes, provided the value itself starts and ends
    with no blank. *)
Theorem field_reads_rendered_value
    (c : ascii) (l L lead sp v trail : string) :
  isspace (lower_char c) = false ->
  lower L = lower (String c l) ->
  forallb_str isspace lead = true ->
  forallb_str isspace sp = true ->
  forallb_str isspace trail = true ->
  truthy v = true ->
  forallb_str not_quote_cr_lf v = true ->
  group_v (field (String c l))
    (lead +:+ L +:+ ":" +:+ sp +:+ String dquote (v +:+ String dquote trail))
  = Some (v)
  /\ (strip v = v ->
      forallb_str not_quote_cr_lf trail = true ->
      option_map strip
        (group_v (field (String c l)) (lead +:+ L +:+ ":" +:+ sp +:+ v +:+ trail))
      = Some v).
Proof.
  intros Hc HL Hlead Hsp Htrail Hv Hnq. split.
  - unfold group_v, field. cbn [seq].
    rewrite (label_starts_line (String c l) L lead _ c l (Some v));
      auto using value_quoted.
  - intros Hs Htq. unfold group_v, field. cbn [seq].
    rewrite (label_starts_line (String c l) L lead _ c l (Some (v +:+ trail)));
      auto.
    + cbn [option_map]. f_equal. unfold strip.
      destruct v as [|v0 v']; [discriminate|].
      pose proof (strip_fixed_head _ _ Hs) as H0.
      simpl lstrip. rewrite H0.
      change (String v0 (v' +:+ trail)) with (String v0 v' +:+ trail).
      rewrite rstrip_app_ws by exact Htrail.
      now apply strip_fixed_rstrip.
    + apply value_unquoted; auto.
      rewrite forallb_str_app, Hnq, Htq. reflexivity.
Qed.

Lemma field_reads_rendered_value_witness :
  group_v GerarCsv.RE_NOME
    ("  " +:+ "NOME" +:+ ":" +:+ " "
     +:+ String dquote ("Ana Maria" +:+ String dquote " "))
  = Some "Ana Maria"
  /\ option_map strip (group_v GerarCsv.RE_MATRICULA "Matricula:  0012  ")
     = Some "0012".
Proof.
  split.
  - exact (proj1 (field_reads_rendered_value "n" "ome" "NOME" "  " " "
                    "Ana Maria" " " eq_refl eq_refl eq_refl eq_refl eq_refl
                    eq_refl eq_refl)).
  - exact (proj2 (field_reads_rendered_value "m" "atricula" "Matricula" "" "  "
                    "0012" "  " eq_refl eq_refl eq_refl eq_refl eq_refl
                    eq_refl eq_refl) eq_refl eq_refl).
Defined.

Lemma matches_label (c : ascii) (l : string) (rest : re) (ln : string) :
  isspace (lower_char c) = false ->
  matches (labelled (String c l) rest) ln = true ->
  has_label (String c l) ln = true.
Proof.
  intros Hc. unfold matches.
  destruct (match_ _ ln) as [cap|] eqn:E; [intros _ | discriminate].
  exact (labelled_has_label c l rest ln cap Hc E).
Qed.

Lemma matches_other (c : ascii) (l : string) (rest : re) (l' ln : string) :
  isspace (lower_char c) = false ->
  agree_ci l' (String c l) = false ->
  has_label l' ln = true ->
  matches (labelled (String c l) rest) ln = false.
Proof.
  intros Hc Ha Hl. apply (no_label_no_match c l rest ln Hc).
  now apply (labels_disjoint l').
Qed.

Ltac others L :=
  repeat match goal with
  | |- context [matches ?r ?ln] =>
      let H := fresh in
      assert (H : matches r ln = false)
        by (apply matches_other with (2 := eq_refl) (3 := L); reflexivity);
      rewrite H; clear H
  end.

Ltac one_pattern r c l :=
  let E := fresh "E" in
  let L := fresh "L" in
  destruct (matches r _) eqn:E;
    [ pose proof (matches_label c l _ _ eq_refl E) as L;
      others L; simpl; lia | ].

(** X2. No line is matched by two of the nine patterns of [parse_file]:
    the order in which the loop tries them decides nothing. *)
Theorem line_matches_one_pattern (ln : string) :
  length (List.filter (fun r => matches r ln) GerarCsvLayout.patterns) <= 1.
Proof.
  unfold GerarCsvLayout.patterns. cbn [List.filter].
  one_pattern GerarCsv.RE_NUMERO_EVENTO "n"%char "umeroEvento".
  one_pattern GerarCsv.RE_NUMERO_ORGANOGRAMA "n"%char "umeroOrganograma".
  one_pattern GerarCsv.RE_TIPO_EVENTO "t"%char "ipoEvento".
  one_pattern GerarCsv.RE_TIPO_PROVENTO "t"%char "ipoProvento".
  one_pattern GerarCsv.RE_FUNCIONARIOS_ARRAY "f"%char "uncionarios".
  one_pattern GerarCsv.RE_MATRICULA "m"%char "atricula".
  one_pattern GerarCsv.RE_NOME "n"%char "ome".
  one_pattern GerarCsv.RE_CPF "c"%char "pf".
  destruct (matches GerarCsv.RE_VALOR ln); simpl; lia.
Qed.

End PatternProperties.

Module AmountProperties.
Import PyStr Regex PyDecimal Tokens RegexFacts StrFacts NormalizerFacts.
Local Open Scope string_scope.

(** The token that either amount pattern captures is a word of
    [number]. *)
Lemma amount_token_number (ln v : string) :
  group_v GerarCsv.RE_VALOR ln = Some v
  \/ group_v GerarCsv11802004.RE_VALOR ln = Some v ->
  exists c0 c1, sem number v c0 c1.
Proof.
  intros [H|H]; apply group_v_match, match_sound in H as (w & s' & _ & H).
  - unfold GerarCsv.RE_VALOR in H. cbn [seq] in H.
    destruct H as (w0 & r0 & c0 & _ & [_ ->] & H).
    destruct H as (w1 & r1 & c1 & _ & Hl & H).
    apply sem_lits in Hl as [-> _].
    destruct H as (w2 & r2 & c2 & _ & (d2 & _ & _ & ->) & H).
    destruct H as (w3 & r3 & c3 & _ & [_ ->] & H).
    destruct H as (w4 & r4 & c4 & _ & Hq & H). apply opt_quote_cap in Hq as ->.
    destruct H as (w5 & r5 & c5 & _ & [[cn Hn] ->] & H).
    destruct H as (w6 & r6 & c6 & _ & Hq & H). apply opt_quote_cap in Hq as ->.
    destruct H as (w7 & r7 & c7 & _ & [_ ->] & H).
    destruct H as (w8 & r8 & c8 & _ & [_ ->] & [_ E]).
    injection E as <-. eauto.
  - unfold GerarCsv11802004.RE_VALOR in H. cbn [seq] in H.
    destruct H as (w0 & r0 & c0 & _ & [_ ->] & H).
    destruct H as (w1 & r1 & c1 & _ & Hl & H).
    apply sem_lits in Hl as [-> _].
    destruct H as (w2 & r2 & c2 & _ & (d2 & _ & _ & ->) & H).
    destruct H as (w3 & r3 & c3 & _ & [_ ->] & H).
    destruct H as (w5 & r5 & c5 & _ & [[cn Hn] ->] & H).
    destruct H as (w7 & r7 & c7 & _ & [_ ->] & H).
    destruct H as (w8 & r8 & c8 & _ & [_ ->] & [_ E]).
    injection E as <-. eauto.
Qed.

(** X3. The amount that either amount pattern captures is a sign,
    digits and at most one separator with digits behind it, and
    [parse_decimal] reads that separator as the decimal point, be it a
    dot or a comma: the result is the finite decimal of the digits with
    as many decimal places as digits follow the separator. An amount
    with a separator of thousands never reaches [parse_decimal] through
    the patterns. *)
Theorem amount_line_single_separator (ln v : string) :
  group_v GerarCsv.RE_VALOR ln = Some v
  \/ group_v GerarCsv11802004.RE_VALOR ln = Some v ->
  exists sg ip fp,
    sign_prefix sg = true /\ digits ip = true /\ forallb_str isdigit fp = true
    /\ (v = sg +:+ ip /\ fp = ""
        \/ truthy fp = true
           /\ (v = sg +:+ ip +:+ String "." fp \/ v = sg +:+ ip +:+ String "," fp))
    /\ GerarCsv.parse_decimal v
       = Some (Fin {| coef := apply_sign (String.eqb sg "-")
                                (digits_value (ip +:+ fp));
                      expo := (0 - strlen fp)%Z |}).
Proof.
  intros H. apply amount_token_number in H as (c0 & c1 & H).
  apply number_shape in H as (sg & ip & Hs & Hi & [->|H]).
  - exists sg, ip, "". repeat split; auto.
    pose proof (digits_spec _ Hi) as [Ti Di].
    assert (T : forallb_str tokchar (sg +:+ ip) = true)
      by now rewrite forallb_str_app, (sign_tokchars _ Hs), (digits_tokchars _ Di).
    rewrite (parse_decimal_tokchars _ T (truthy_app_r _ _ Ti)).
    assert (C : contains "," (sg +:+ ip) = false).
    { rewrite contains_app, (sign_no "," _ Hs eq_refl eq_refl).
      now rewrite (digits_no "," _ eq_refl Di). }
    rewrite C. cbn [andb]. rewrite (of_string_integer _ _ Hs Hi).
    now rewrite app_nil_r_str.
  - destruct H as (x & fp & Hx & Hf & ->).
    pose proof (digits_spec _ Hf) as [Tf Df].
    exists sg, ip, fp. split; [exact Hs|]. split; [exact Hi|]. split; [exact Df|].
    split.
    + right. split; [exact Tf|]. destruct Hx as [-> | ->]; auto.
    + destruct Hx as [-> | ->].
      * change (sg +:+ ip +:+ String "." fp) with (token "" "." sg ip [] fp).
        rewrite (parse_decimal_dot_decimal "" sg ip [] fp (or_intror eq_refl)
                   Hs Hi eq_refl Hf).
        rewrite (of_string_canonical sg ip [] fp Hs Hi eq_refl Hf).
        reflexivity.
      * change (sg +:+ ip +:+ String "," fp) with (token "." "," sg ip [] fp).
        rewrite (parse_decimal_comma_decimal sg ip [] fp Hs Hi eq_refl Hf).
        rewrite (of_string_canonical sg ip [] fp Hs Hi eq_refl Hf).
        reflexivity.
Qed.

Lemma amount_line_single_separator_witness :
  exists sg ip fp,
    sign_prefix sg = true /\ digits ip = true /\ forallb_str isdigit fp = true
    /\ ("-1,234" = sg +:+ ip /\ fp = ""
        \/ truthy fp = true
           /\ ("-1,234" = sg +:+ ip +:+ String "." fp
               \/ "-1,234" = sg +:+ ip +:+ String "," fp))
    /\ GerarCsv.parse_decimal "-1,234"
       = Some (Fin {| coef := apply_sign (String.eqb sg "-")
                                (digits_value (ip +:+ fp));
                      expo := (0 - strlen fp)%Z |}).
Proof.
  apply (amount_line_single_separator "valor: -1,234" "-1,234").
  left. vm_compute. reflexivity.
Defined.

End AmountProperties.

(** ** The block parser: what is emitted, and when *)

Module ParserFacts.
Import PyStr Regex PyDecimal RegexFacts GerarCsv GerarCsvFacts GerarCsvInvariants.
Import GerarCsvLayout.
Local Open Scope string_scope.
Local Open Scope list_scope.

Lemma upper_char_idem (c : ascii) : upper_char (upper_char c) = upper_char c.
Proof. destruct c as [[] [] [] [] [] [] [] []]; reflexivity. Qed.

Lemma upper_idem (s : string) : upper (upper s) = upper s.
Proof.
  induction s as [|c s IH]; simpl; [reflexivity|].
  now rewrite upper_char_idem, IH.
Qed.

Section Steps.
Variables exclude_provento exclude_desconto : list string.

Abbreviation step := (GerarCsv.step exclude_provento exclude_desconto).
Abbreviation flush := (GerarCsv.flush exclude_provento exclude_desconto).
Abbreviation run_lines := (GerarCsv.run_lines exclude_provento exclude_desconto).
Abbreviation parse_lines := (GerarCsv.parse_lines exclude_provento exclude_desconto).

(** Outside the two event branches the details stay as they are and a
    total changes at most from absent to zero. *)
Lemma step_no_event (st : State) (ln : string) :
  no_event_line ln ->
  details (out (step st ln)) = details (out st)
  /\ forall m, default (of_Z 0) (totals (out (step st ln)) !! m)
               = default (of_Z 0) (totals (out st) !! m).
Proof.
  intros [Hn Ht]. unfold GerarCsv.step. rewrite Hn, Ht.
  destruct (group_v RE_NUMERO_ORGANOGRAMA ln) as [v|]; [now split|].
  assert (E : out (if matches RE_FUNCIONARIOS_ARRAY ln
                   then on_funcionarios st else st) = out st)
    by (destruct (matches _ ln); reflexivity).
  rewrite <- E. clear E.
  generalize (if matches RE_FUNCIONARIOS_ARRAY ln then on_funcionarios st else st).
  clear st. intros st.
  destruct (group_v RE_MATRICULA ln) as [v|].
  { unfold on_matricula. simpl.
    destruct (within_funcionarios (cur st) && truthy (strip v));
      destruct (truthy (strip v) && _); simpl; split; try reflexivity;
      intros m; apply setdefault_zero_default. }
  destruct (group_v RE_NOME ln) as [v|].
  { unfold on_nome. simpl.
    destruct (current_matricula (cur st)) as [[|a m]|]; now split. }
  destruct (group_v RE_CPF ln) as [v|].
  { unfold on_cpf. simpl.
    destruct (current_matricula (cur st)) as [[|a m]|]; now split. }
  destruct (within_funcionarios (cur st)); [|now split].
  destruct (current_matricula (cur st)) as [[|a m]|]; try now split.
  destruct (group_v RE_VALOR ln) as [v|]; [|now split].
  unfold on_valor. destruct (parse_decimal v) as [[val| |]|]; try now split.
  destruct (default _ _). now split.
Qed.

Lemma run_no_event (tail : list string) :
  Forall no_event_line tail ->
  forall st,
    details (out (run_lines st tail)) = details (out st)
    /\ forall m, default (of_Z 0) (totals (out (run_lines st tail)) !! m)
                 = default (of_Z 0) (totals (out st) !! m).
Proof.
  induction 1 as [|ln tail Hln _ IH]; intros st; simpl; [now split|].
  destruct (IH (step st ln)) as [D T].
  destruct (step_no_event st ln Hln) as [D' T'].
  split; [congruence|]. intros m. now rewrite T, T'.
Qed.

(** *** What holds of every state *)

Lemma well_formed_mono (t t' : gmap string Finite) (d : Detail) :
  (forall k, is_Some (t !! k) -> is_Some (t' !! k)) ->
  well_formed_detail t d -> well_formed_detail t' d.
Proof. intros H (A & B & C). repeat split; auto. Qed.

Lemma allowed_type (num typ : option string) :
  GerarCsv._allowed_event exclude_provento exclude_desconto num typ = true ->
  (forall t, typ = Some t -> upper t = t) ->
  or_empty typ = "PROVENTO" \/ or_empty typ = "DESCONTO".
Proof.
  unfold GerarCsv._allowed_event. intros H U.
  assert (E : upper (or_empty typ) = or_empty typ).
  { destruct typ as [[|a t]|]; try reflexivity. apply (U _ eq_refl). }
  rewrite E in H.
  destruct (String.eqb (or_empty typ) "PROVENTO") eqn:E1.
  - apply String.eqb_eq in E1. auto.
  - destruct (String.eqb (or_empty typ) "DESCONTO") eqn:E2; [|discriminate].
    apply String.eqb_eq in E2. auto.
Qed.

Lemma fold_apply_ok (num ptype org : string) (sign : Finite) (cs : list Contrib) :
  ptype = "PROVENTO" \/ ptype = "DESCONTO" ->
  Forall (fun c => truthy (c_mat c) = true) cs ->
  forall o,
    Forall (well_formed_detail (totals o)) (details o) ->
    Forall (well_formed_detail
              (totals (fold_left (apply_contrib num ptype org sign) cs o)))
      (details (fold_left (apply_contrib num ptype org sign) cs o)).
Proof.
  intros Hp Hcs. induction Hcs as [|c cs Hc _ IH]; intros o Ho; simpl; [exact Ho|].
  apply IH. unfold apply_contrib. cbn [totals details].
  apply Forall_app. split.
  - eapply Forall_impl; [exact Ho|]. intros d. apply well_formed_mono.
    intros k Hk. destruct (decide (c_mat c = k)) as [->|Hne].
    + rewrite lookup_insert_eq. eauto.
    + now rewrite lookup_insert_ne.
  - constructor; [|constructor]. repeat split; cbn; auto.
    rewrite lookup_insert_eq. eauto.
Qed.

Lemma flush_ok (o : Output) (p : Pending) :
  (forall t, pending_event_type p = Some t -> upper t = t) ->
  Forall (fun c => truthy (c_mat c) = true) (pending_event_contribs p) ->
  Forall (well_formed_detail (totals o)) (details o) ->
  Forall (well_formed_detail (totals (fst (flush o p)))) (details (fst (flush o p))).
Proof.
  intros U Hcs Ho. unfold GerarCsv.flush. cbn [fst].
  destruct (GerarCsv._allowed_event _ _ _ _) eqn:Ha; [|exact Ho].
  apply fold_apply_ok; auto. now apply (allowed_type _ _ Ha).
Qed.

Lemma setdefault_zero_keeps (mat k : string) (t : gmap string Finite) :
  is_Some (t !! k) -> is_Some (setdefault_zero mat t !! k).
Proof.
  unfold setdefault_zero. destruct (t !! mat) eqn:E; [auto|].
  intros H. destruct (decide (mat = k)) as [->|Hne].
  - rewrite lookup_insert_eq. eauto.
  - now rewrite lookup_insert_ne.
Qed.

Lemma step_ok (st : State) (ln : string) : state_ok st -> state_ok (step st ln).
Proof.
  intros (U & C & D). unfold GerarCsv.step.
  destruct (group_v RE_NUMERO_EVENTO ln) as [v|].
  { unfold on_numero_evento. cbv zeta.
    destruct (truthy_opt _ && nonempty _).
    - match goal with |- context [GerarCsv.flush _ _ ?o ?p] =>
        pose proof (flush_ok o p U C D) as H;
        destruct (GerarCsv.flush exclude_provento exclude_desconto o p) as [o' p'] eqn:E end.
      unfold GerarCsv.flush in E. injection E as _ <-.
      split; [discriminate|]. split; [constructor | exact H].
    - split; [exact U|]. split; [exact C | exact D]. }
  destruct (group_v RE_NUMERO_ORGANOGRAMA ln) as [v|];
    [split; [exact U|]; split; [exact C | exact D]|].
  destruct (or_match _ _) as [v|].
  { unfold on_tipo_evento. cbv zeta.
    assert (U' : forall t, Some (upper (strip v)) = Some t -> upper t = t).
    { intros t [= <-]. apply upper_idem. }
    destruct (truthy_opt _ && nonempty _).
    - match goal with |- context [GerarCsv.flush _ _ ?o ?p] =>
        pose proof (flush_ok o p U' C D) as H;
        destruct (GerarCsv.flush exclude_provento exclude_desconto o p) as [o' p'] eqn:E end.
      unfold GerarCsv.flush in E. injection E as _ <-.
      split; [discriminate|]. split; [constructor | exact H].
    - split; [exact U'|]. split; [exact C | exact D]. }
  assert (HP' : state_ok (if matches RE_FUNCIONARIOS_ARRAY ln
                          then on_funcionarios st else st)).
  { destruct (matches _ ln); [|split; [exact U|]; split; [exact C | exact D]].
    split; [discriminate|]. split; [constructor | exact D]. }
  revert HP'. generalize (if matches RE_FUNCIONARIOS_ARRAY ln
                          then on_funcionarios st else st).
  clear st U C D. intros st (U & C & D).
  destruct (group_v RE_MATRICULA ln) as [v|].
  { unfold on_matricula. split; [exact U|]. split; [exact C|]. simpl.
    destruct (within_funcionarios (cur st) && truthy (strip v));
      destruct (truthy (strip v) && _); simpl; try exact D;
      (eapply Forall_impl; [exact D|]; intros d; apply well_formed_mono;
       intros k; apply setdefault_zero_keeps). }
  destruct (group_v RE_NOME ln) as [v|].
  { unfold on_nome. split; [exact U|]. split; [exact C|]. simpl.
    destruct (current_matricula (cur st)) as [[|a m]|]; exact D. }
  destruct (group_v RE_CPF ln) as [v|].
  { unfold on_cpf. split; [exact U|]. split; [exact C|]. simpl.
    destruct (current_matricula (cur st)) as [[|a m]|]; exact D. }
  assert (S : state_ok st) by (split; [exact U|]; split; [exact C | exact D]).
  destruct (within_funcionarios (cur st)); [|exact S].
  destruct (current_matricula (cur st)) as [[|a m]|]; try exact S.
  destruct (group_v RE_VALOR ln) as [v|]; [|exact S].
  unfold on_valor. destruct (parse_decimal v) as [[val| |]|]; try exact S.
  destruct (default _ _). split; [exact U|]. split; [|exact D].
  cbn. apply Forall_app. split; [exact C|]. constructor; [reflexivity|constructor].
Qed.

Lemma run_ok (lines : list string) :
  forall st, state_ok st -> state_ok (run_lines st lines).
Proof.
  induction lines as [|ln lines IH]; intros st H; simpl; [exact H|].
  apply IH, step_ok, H.
Qed.

End Steps.

End ParserFacts.

Module ParserProperties.
Import PyStr Regex PyDecimal RegexFacts GerarCsv GerarCsvFacts GerarCsvInvariants.
Import GerarCsvLayout ParserFacts.
Local Open Scope string_scope.
Local Open Scope list_scope.

(** X4. Contributions are emitted only by an event-number or event-type
    line: lines after the last such line, whatever they are, add no
    detail record and change no total, but for identifiers that enter
    the totals with zero. What is buffered when the input ends is
    discarded. *)
Theorem unfinished_event_is_discarded
    (exclude_provento exclude_desconto pre tail : list string) :
  Forall no_event_line tail ->
  let o := parse_lines exclude_provento exclude_desconto pre in
  let o' := parse_lines exclude_provento exclude_desconto (pre ++ tail) in
  details o' = details o
  /\ forall m, default (of_Z 0) (totals o' !! m) = default (of_Z 0) (totals o !! m).
Proof.
  intros H. cbv zeta. unfold parse_lines, run_lines. rewrite fold_left_app.
  apply (run_no_event exclude_provento exclude_desconto tail H).
Qed.

Lemma unfinished_event_is_discarded_witness :
  let pre := ["funcionarios: Array"; "matricula: 1"; "valor: 10,00";
              "numeroEvento: 7"; "tipoEvento: PROVENTO"] in
  let tail := ["funcionarios: Array"; "matricula: 2"; "valor: 99,00"] in
  let o := parse_lines EXCLUDE_PROVENTO_EVENTS EXCLUDE_DESCONTO_EVENTS pre in
  let o' := parse_lines EXCLUDE_PROVENTO_EVENTS EXCLUDE_DESCONTO_EVENTS (pre ++ tail) in
  details o' = details o
  /\ forall m, default (of_Z 0) (totals o' !! m) = default (of_Z 0) (totals o !! m).
Proof.
  apply (unfinished_event_is_discarded EXCLUDE_PROVENTO_EVENTS
           EXCLUDE_DESCONTO_EVENTS).
  repeat constructor; vm_compute; reflexivity.
Defined.

(** X5. Every detail record of [parse_file] has the type PROVENTO or
    DESCONTO, a non-empty identifier, and an entry for that identifier
    in the totals. *)
Theorem details_are_well_formed
    (exclude_provento exclude_desconto lines : list string) (d : Detail) :
  let o := parse_lines exclude_provento exclude_desconto lines in
  In d (details o) ->
  (d_tipoEvento d = "PROVENTO" \/ d_tipoEvento d = "DESCONTO")
  /\ truthy (d_matricula d) = true
  /\ is_Some (totals o !! d_matricula d).
Proof.
  cbv zeta. intros Hd.
  assert (S : state_ok (run_lines exclude_provento exclude_desconto initial lines)).
  { apply run_ok. split; [discriminate|]. split; constructor. }
  destruct S as (_ & _ & D). rewrite Forall_forall in D.
  apply D. now apply list_elem_of_In.
Qed.

Lemma details_are_well_formed_witness :
  let o := parse_file (unlines ["funcionarios: Array"; "matricula: 1";
                                "valor: 10,00"; "numeroEvento: 7";
                                "tipoEvento: desconto"]) in
  let d := {| d_matricula := "1"; d_nome := ""; d_cpf := "";
              d_numeroEvento := "7"; d_tipoEvento := "DESCONTO";
              d_valorEvento := {| coef := -1000; expo := -2 |};
              d_numeroOrganograma := "" |} in
  (d_tipoEvento d = "PROVENTO" \/ d_tipoEvento d = "DESCONTO")
  /\ truthy (d_matricula d) = true
  /\ is_Some (totals o !! d_matricula d).
Proof.
  cbv zeta.
  apply (details_are_well_formed EXCLUDE_PROVENTO_EVENTS EXCLUDE_DESCONTO_EVENTS
           ["funcionarios: Array"; "matricula: 1"; "valor: 10,00";
            "numeroEvento: 7"; "tipoEvento: desconto"]).
  vm_compute. left. reflexivity.
Defined.

(** X6. Where the event number and the event type are both non-blank,
    an employees section followed by the event-number line and the
    event-type line gives the same totals, metadata and details in both
    orders of the two lines, whatever precedes and follows. *)
Theorem event_lines_in_either_order
    (exclude_provento exclude_desconto pre body post : list string)
    (ln_f ln_n ln_t n t : string) :
  matches RE_FUNCIONARIOS_ARRAY ln_f = true ->
  Forall no_event_line body ->
  group_v RE_NUMERO_EVENTO ln_n = Some n ->
  or_match (group_v RE_TIPO_EVENTO ln_t) (group_v RE_TIPO_PROVENTO ln_t) = Some t ->
  truthy (strip n) = true ->
  truthy (strip t) = true ->
  parse_lines exclude_provento exclude_desconto
    (pre ++ ln_f :: body ++ ln_n :: ln_t :: post)
  = parse_lines exclude_provento exclude_desconto
      (pre ++ ln_f :: body ++ ln_t :: ln_n :: post).
Proof.
  intros Hf Hb Hn Ht Tn Tt.
  apply (event_order_independent_nonblank exclude_provento exclude_desconto
           pre body post ln_f ln_n ln_t n t); auto.
  destruct (strip t); [discriminate | reflexivity].
Qed.

Lemma event_lines_in_either_order_witness :
  parse_lines EXCLUDE_PROVENTO_EVENTS EXCLUDE_DESCONTO_EVENTS
    ([] ++ "funcionarios: Array" :: ["matricula: 1"; "valor: 10,00"]
        ++ "numeroEvento: 7" :: "tipoEvento: provento" :: [])
  = parse_lines EXCLUDE_PROVENTO_EVENTS EXCLUDE_DESCONTO_EVENTS
      ([] ++ "funcionarios: Array" :: ["matricula: 1"; "valor: 10,00"]
          ++ "tipoEvento: provento" :: "numeroEvento: 7" :: []).
Proof.
  apply (event_lines_in_either_order EXCLUDE_PROVENTO_EVENTS
           EXCLUDE_DESCONTO_EVENTS [] ["matricula: 1"; "valor: 10,00"] []
           "funcionarios: Array" "numeroEvento: 7" "tipoEvento: provento"
           "7" "provento").
  - vm_compute. reflexivity.
  - repeat constructor; vm_compute; reflexivity.
  - vm_compute. reflexivity.
  - vm_compute. reflexivity.
  - reflexivity.
  - reflexivity.
Defined.

Lemma file_lines_acc_line (l : string) :
  one_line l = true ->
  forall acc rest,
    file_lines_acc acc (l +:+ String "010" rest)
    = (acc +:+ l) :: file_lines_acc "" rest.
Proof.
  unfold one_line. induction l as [|c l IH]; intros H acc rest.
  - simpl. now rewrite app_nil_r_str.
  - simpl in H. rewrite !negb_orb in H.
    apply andb_true_iff in H as [H1 H2].
    apply andb_true_iff in H1 as [Hc1 Hl1].
    apply andb_true_iff in H2 as [Hc2 Hl2].
    apply negb_true_iff in Hc1, Hc2.
    cbn [String.append file_lines_acc]. rewrite Hc1, Hc2.
    rewrite IH by now rewrite Hl1, Hl2.
    now rewrite app_assoc_str.
Qed.

(** X7. The lines that [parse_file] reads from a text whose lines each
    end with LF are those lines, as long as none of them contains CR or
    LF: [parse_file] on the text is the loop on the lines. *)
Theorem file_lines_of_unlines (lines : list string) :
  forallb one_line lines = true ->
  file_lines (unlines lines) = lines
  /\ parse_file (unlines lines)
     = parse_lines EXCLUDE_PROVENTO_EVENTS EXCLUDE_DESCONTO_EVENTS lines.
Proof.
  intros H.
  assert (E : file_lines (unlines lines) = lines).
  { unfold file_lines. induction lines as [|l ls IH]; [reflexivity|].
    simpl in H. apply andb_true_iff in H as [Hl Hls].
    cbn [unlines]. rewrite file_lines_acc_line by exact Hl.
    now rewrite IH. }
  split; [exact E|]. unfold parse_file. now rewrite E.
Qed.

Lemma file_lines_of_unlines_witness :
  file_lines (unlines ["matricula: 1"; ""; "valor: 1,00"])
  = ["matricula: 1"; ""; "valor: 1,00"]
  /\ parse_file (unlines ["matricula: 1"; ""; "valor: 1,00"])
     = parse_lines EXCLUDE_PROVENTO_EVENTS EXCLUDE_DESCONTO_EVENTS
         ["matricula: 1"; ""; "valor: 1,00"].
Proof.
  apply (file_lines_of_unlines ["matricula: 1"; ""; "valor: 1,00"]).
  reflexivity.
Defined.

End ParserProperties.

(** ** The normalisers: groups of digits and quotes *)

Module GroupedFacts.
Import PyStr PyDecimal Tokens RegexFacts StrFacts NormalizerFacts GerarCsv1802002.
Local Open Scope string_scope.

Lemma join_groups_numeric (gs : list string) :
  forallb digits gs = true ->
  forallb_str numeric_char (join_groups "." gs) = true.
Proof.
  induction gs as [|g gs IH]; simpl; [reflexivity|].
  intros H. apply andb_true_iff in H as [Hg Hs].
  apply digits_spec in Hg as [_ Hg].
  rewrite forallb_str_app, (IH Hs), andb_true_r.
  revert Hg. apply forallb_str_impl. intros c Hc.
  unfold numeric_char. now rewrite Hc.
Qed.

Lemma replace_join_comma (gs : list string) :
  forallb digits gs = true ->
  replace "," "." (join_groups "," gs) = join_groups "." gs.
Proof.
  induction gs as [|g gs IH]; simpl; [reflexivity|].
  intros H. apply andb_true_iff in H as [Hg Hs].
  apply digits_spec in Hg as [_ Hg].
  rewrite replace_app, (IH Hs).
  now rewrite (replace_absent "," "." g (digits_no "," _ eq_refl Hg)).
Qed.

(** No decimal is written with two dots. *)
Lemma of_string_two_dots (sg g g1 rest : string) :
  sign_prefix sg = true -> digits g = true ->
  forallb_str isdigit g1 = true ->
  forallb_str numeric_char rest = true ->
  of_string (sg +:+ g +:+ String "." (g1 +:+ String "." rest)) = None.
Proof.
  intros Hs Hg H1 Hr. pose proof (digits_spec _ Hg) as [Tg Dg].
  assert (N1 : forallb_str numeric_char g1 = true).
  { revert H1. apply forallb_str_impl. intros c Hc.
    unfold numeric_char. now rewrite Hc. }
  assert (NB : forallb_str numeric_char
                 (g +:+ String "." (g1 +:+ String "." rest)) = true).
  { rewrite forallb_str_app. cbn [forallb_str]. rewrite forallb_str_app.
    cbn [forallb_str]. rewrite N1, Hr.
    assert (Ng : forallb_str numeric_char g = true).
    { revert Dg. apply forallb_str_impl. intros c Hc.
      unfold numeric_char. now rewrite Hc. }
    now rewrite Ng. }
  assert (T : forallb_str tokchar
                (sg +:+ g +:+ String "." (g1 +:+ String "." rest)) = true).
  { rewrite forallb_str_app, (sign_tokchars _ Hs).
    revert NB. apply forallb_str_impl, numeric_tokchar. }
  unfold of_string.
  rewrite (tokchars_strip _ T).
  rewrite (replace_absent "_" "" _ (tokchars_no "_" _ eq_refl T)).
  rewrite (take_sign_digits _ _ Hs Tg Dg).
  unfold parse_number.
  rewrite (span_stop isdigit g "." _ Dg eq_refl).
  cbn [Ascii.eqb Bool.eqb]. cbv iota.
  rewrite (span_stop isdigit g1 "." rest H1 eq_refl), Tg.
  cbn [orb parse_exponent lower_char isupper code]. 
  change (parse_exponent (String "." rest)) with (@None Z).
  cbv iota.
  now apply parse_special_numeric.
Qed.

End GroupedFacts.

Module NormalizerProperties.
Import PyStr PyDecimal Tokens RegexFacts StrFacts NormalizerFacts GerarCsv1802002.
Import PatternFacts GroupedFacts.
Local Open Scope string_scope.

(** X8. A number written with two or more groups behind one kind of
    separator and no fraction, such as 1.234.567 or 1,234,567, is
    rejected by both normalisers: it is not read as an integer with
    separators of thousands. *)
Theorem grouped_integer_is_rejected (sep sg g g1 g2 : string) (gs : list string) :
  sep = "," \/ sep = "." ->
  sign_prefix sg = true -> digits g = true -> digits g1 = true ->
  digits g2 = true -> forallb digits gs = true ->
  let tok := sg +:+ g +:+ join_groups sep (g1 :: g2 :: gs) in
  GerarCsv.parse_decimal tok = None /\ parse_valor (RStr tok) = None.
Proof.
  intros Hsep Hs Hg H1 H2 Hgs. cbv zeta.
  assert (Hall : forallb digits (g1 :: g2 :: gs) = true)
    by (cbn [forallb]; now rewrite H1, H2, Hgs).
  assert (T : forallb_str tokchar (sg +:+ g +:+ join_groups sep (g1 :: g2 :: gs))
              = true).
  { pose proof (digits_spec _ Hg) as [_ Dg].
    rewrite !forallb_str_app, (sign_tokchars _ Hs), (digits_tokchars _ Dg).
    rewrite join_groups_tokchars; [reflexivity | | exact Hall].
    destruct Hsep as [-> | ->]; reflexivity. }
  assert (D : GerarCsv.parse_decimal
                (sg +:+ g +:+ join_groups sep (g1 :: g2 :: gs)) = None).
  { pose proof (digits_spec _ Hg) as [Tg Dg].
    pose proof (digits_spec _ H1) as [_ D1].
    pose proof (digits_spec _ H2) as [_ D2].
    rewrite (parse_decimal_tokchars _ T)
      by (apply truthy_app_r, truthy_app_l, Tg).
    assert (Z : of_string (sg +:+ g +:+ join_groups "." (g1 :: g2 :: gs)) = None).
    { cbn [join_groups]. 
      change ("." +:+ g1 +:+ "." +:+ g2 +:+ join_groups "." gs)
        with (String "." (g1 +:+ String "." (g2 +:+ join_groups "." gs))).
      apply of_string_two_dots; auto.
      rewrite forallb_str_app, (join_groups_numeric _ Hgs), andb_true_r.
      revert D2. apply forallb_str_impl. intros c Hc.
      unfold numeric_char. now rewrite Hc. }
    destruct Hsep as [-> | ->].
    - assert (C1 : contains "," (sg +:+ g +:+ join_groups "," (g1 :: g2 :: gs)) = true).
      { rewrite !contains_app. cbn [join_groups].
        change ("," +:+ g1 +:+ "," +:+ g2 +:+ join_groups "," gs)
          with (String "," (g1 +:+ "," +:+ g2 +:+ join_groups "," gs)).
        cbn [contains]. rewrite Ascii.eqb_refl. now rewrite !orb_true_r. }
      assert (C2 : contains "." (sg +:+ g +:+ join_groups "," (g1 :: g2 :: gs)) = false).
      { apply (class_excludes (fun c => tokchar c && negb (Ascii.eqb c "."))); [reflexivity|].
        rewrite !forallb_str_app.
        pose proof (sign_no "." _ Hs eq_refl eq_refl) as S1.
        assert (A : forall s, forallb_str tokchar s = true -> contains "." s = false ->
                      forallb_str (fun c => tokchar c && negb (Ascii.eqb c ".")) s = true).
        { induction s as [|c s IH]; simpl; [reflexivity|].
          intros HA HB. apply andb_true_iff in HA as [HA1 HA2].
          apply orb_false_iff in HB as [HB1 HB2].
          now rewrite HA1, HB1, IH. }
        rewrite (A sg (sign_tokchars _ Hs) S1).
        rewrite (A g (digits_tokchars _ Dg) (digits_no "." _ eq_refl Dg)).
        apply A.
        - apply join_groups_tokchars; [reflexivity | exact Hall].
        - clear -Hall. induction (g1 :: g2 :: gs) as [|x xs IH]; [reflexivity|].
          cbn [forallb] in Hall. apply andb_true_iff in Hall as [Hx Hxs].
          apply digits_spec in Hx as [_ Hx].
          cbn [join_groups].
          change ("," +:+ x +:+ join_groups "," xs)
            with (String "," (x +:+ join_groups "," xs)).
          cbn [contains]. rewrite contains_app, (digits_no "." _ eq_refl Hx), (IH Hxs).
          reflexivity. }
      rewrite C1, C2. cbn [andb].
      rewrite !replace_app.
      rewrite (replace_absent "," "." sg (sign_no "," _ Hs eq_refl eq_refl)).
      rewrite (replace_absent "," "." g (digits_no "," _ eq_refl Dg)).
      rewrite (replace_join_comma _ Hall). exact Z.
    - assert (C1 : contains "," (sg +:+ g +:+ join_groups "." (g1 :: g2 :: gs)) = false).
      { rewrite !contains_app, (sign_no "," _ Hs eq_refl eq_refl).
        rewrite (digits_no "," _ eq_refl Dg). cbn [orb].
        apply (class_excludes numeric_char); [reflexivity|].
        now apply join_groups_numeric. }
      rewrite C1. cbn [andb]. exact Z. }
  split; [exact D|].
  cbn [parse_valor]. now rewrite (parse_valor_str_tokchars _ T).
Qed.

Lemma grouped_integer_is_rejected_witness :
  GerarCsv.parse_decimal "1.234.567" = None
  /\ parse_valor (RStr "1.234.567") = None.
Proof.
  apply (grouped_integer_is_rejected "." "" "1" "234" "567" []);
    auto; reflexivity.
Defined.

Lemma last_char_snoc (s : string) (q : ascii) :
  last_char (s +:+ String q "") = Some q.
Proof.
  induction s as [|c s IH]; [reflexivity|].
  cbn [String.append last_char]. rewrite IH.
  destruct (s +:+ String q "") eqn:E; [|reflexivity].
  destruct s; discriminate.
Qed.

Lemma drop_last_snoc (s : string) (q : ascii) :
  drop_last (s +:+ String q "") = s.
Proof.
  induction s as [|c s IH]; [reflexivity|].
  cbn [String.append drop_last]. rewrite IH.
  destruct (s +:+ String q "") eqn:E; [|reflexivity].
  destruct s; discriminate.
Qed.

Lemma rstrip_snoc (s : string) (q : ascii) :
  isspace q = false -> rstrip (s +:+ String q "") = s +:+ String q "".
Proof.
  intros Hq. induction s as [|c s IH]; simpl.
  - now rewrite Hq.
  - rewrite IH. destruct (s +:+ String q "") eqn:E; [|reflexivity].
    destruct s; discriminate.
Qed.

(** X9. [_strip_quotes] removes one pair of matching quotes, double or
    single, with the whitespace outside them, and returns what is
    between the quotes as it is, inner whitespace included. *)
Theorem strip_quotes_unwraps (q : ascii) (lead s trail : string) :
  q = Regex.dquote \/ q = squote ->
  forallb_str isspace lead = true ->
  forallb_str isspace trail = true ->
  _strip_quotes (lead +:+ String q (s +:+ String q trail)) = s.
Proof.
  intros Hq Hl Ht.
  assert (Sq : isspace q = false) by (destruct Hq as [-> | ->]; reflexivity).
  unfold _strip_quotes, strip.
  rewrite (lstrip_app_ws _ _ Hl). cbn [lstrip]. rewrite Sq.
  assert (E : String q (s +:+ String q trail)
              = (String q s +:+ String q "") +:+ trail)
    by (simpl; now rewrite app_assoc_str).
  rewrite E, (rstrip_app_ws _ _ Ht), (rstrip_snoc _ _ Sq).
  cbn [String.append].
  destruct (s +:+ String q "") as [|b r] eqn:Es; [destruct s; discriminate|].
  rewrite <- Es, last_char_snoc, drop_last_snoc.
  destruct Hq as [-> | ->]; cbn; rewrite ?bool_decide_eq_true_2 by reflexivity;
    reflexivity.
Qed.

Lemma strip_quotes_unwraps_witness :
  _strip_quotes (" " +:+ String squote (" 12,50 " +:+ String squote "  "))
  = " 12,50 ".
Proof.
  apply (strip_quotes_unwraps squote " " " 12,50 " "  "); auto.
Defined.

End NormalizerProperties.

(** ** Rounding to the cent *)

Module QuantizeFacts.
Import PyDecimal PyQuantize.
Local Open Scope Z_scope.



Lemma rescale_nonneg (d : Finite) (e : Z) : 0 <= rescale_half_up d e.
Proof.
  unfold rescale_half_up. destruct (e <=? expo d) eqn:E.
  - apply Z.leb_le in E. apply Z.mul_nonneg_nonneg; [lia|].
    apply Z.pow_nonneg. lia.
  - apply Z.leb_gt in E. apply Z.div_pos.
    + assert (0 <= 10 ^ (e - expo d - 1)) by (apply Z.pow_nonneg; lia). lia.
    + apply Z.pow_pos_nonneg; lia.
Qed.

Lemma sgn_mul_abs (a : Z) : Z.sgn a * Z.abs a = a.
Proof. destruct a; reflexivity. Qed.

Lemma abs_sgn_mul (a q : Z) : a <> 0 -> 0 <= q -> Z.abs (Z.sgn a * q) = q.
Proof. intros Ha Hq. rewrite Z.abs_mul. destruct a; simpl; lia. Qed.

End QuantizeFacts.

Module QuantizeProperties.
Import PyDecimal PyQuantize QuantizeFacts.
Local Open Scope Z_scope.

(** X10. A rounded amount has the exponent asked for. When the amount
    has no digit below that exponent it is unchanged in value; otherwise
    it is off by at most half a unit of the last place kept, and an
    amount exactly half-way goes away from zero. *)
Theorem quantize_error_bound (d r : Finite) (e : Z) :
  quantize d e = Some r ->
  expo r = e
  /\ (e <= expo d -> coef r = coef d * 10 ^ (expo d - e))
  /\ (expo d < e ->
      2 * Z.abs (coef d - coef r * 10 ^ (e - expo d)) <= 10 ^ (e - expo d)
      /\ (2 * (Z.abs (coef d) mod 10 ^ (e - expo d)) = 10 ^ (e - expo d) ->
          Z.abs (coef r) = Z.abs (coef d) / 10 ^ (e - expo d) + 1)).
Proof.
  unfold quantize. cbv zeta.
  destruct (Z.abs (coef d) =? 0) eqn:E0.
  - apply Z.eqb_eq in E0. intros [= <-]. cbn [coef expo].
    assert (coef d = 0) by lia.
    split; [reflexivity|]. split; [intros _; lia|].
    intros Hk. rewrite H. cbn.
    assert (0 < 10 ^ (e - expo d)) by (apply Z.pow_pos_nonneg; lia).
    split; [lia|]. rewrite Z.mod_0_l by lia. lia.
  - apply Z.eqb_neq in E0.
    destruct (prec <? _); [discriminate|].
    destruct (prec <? ndigits _); [discriminate|].
    intros [= <-]. cbn [coef expo]. split; [reflexivity|].
    unfold rescale_half_up. split.
    + intros Hle. apply Z.leb_le in Hle as Hb. rewrite Hb.
      now rewrite Z.mul_assoc, sgn_mul_abs.
    + intros Hlt. apply Z.leb_gt in Hlt as Hb. rewrite Hb.
      set (k := e - expo d). set (n := Z.abs (coef d)).
      assert (Hk : 1 <= k) by (subst k; lia).
      assert (P : 10 ^ k = 10 * 10 ^ (k - 1)).
      { rewrite <- Z.pow_succ_r by lia. f_equal. lia. }
      assert (P1 : 0 < 10 ^ (k - 1)) by (apply Z.pow_pos_nonneg; lia).
      replace (e - expo d - 1) with (k - 1) by (subst k; lia).
      set (h := 5 * 10 ^ (k - 1)).
      pose proof (Z.div_mod (n + h) (10 ^ k) ltac:(lia)) as DM.
      pose proof (Z.mod_pos_bound (n + h) (10 ^ k) ltac:(lia)) as MB.
      set (q := (n + h) / 10 ^ k) in *.
      assert (Hq : 0 <= q) by (apply Z.div_pos; subst n h; lia).
      assert (Hc : coef d = Z.sgn (coef d) * n) by (subst n; now rewrite sgn_mul_abs).
      split.
      * rewrite Hc at 1.
        replace (Z.sgn (coef d) * n - Z.sgn (coef d) * q * 10 ^ k)
          with (Z.sgn (coef d) * (n - q * 10 ^ k)) by ring.
        rewrite Z.abs_mul.
        assert (Z.abs (Z.sgn (coef d)) = 1) by lia.
        subst h. lia.
      * intros Hm. rewrite Z.abs_mul.
        assert (Z.abs (Z.sgn (coef d)) = 1) by lia.
        rewrite H, Z.mul_1_l, (Z.abs_eq q) by exact Hq.
        pose proof (Z.div_mod n (10 ^ k) ltac:(lia)) as DM'.
        subst q.
        assert (En : n + h = (n / 10 ^ k + 1) * 10 ^ k + 0) by (subst h; lia).
        rewrite En, Z.div_add_l by lia. rewrite Z.div_0_l by lia. lia.
Qed.

(** X11. Rounding is idempotent: rounding a rounded amount to the same
    exponent gives it back. *)
Theorem quantize_idempotent (d r : Finite) (e : Z) :
  quantize d e = Some r -> quantize r e = Some r.
Proof.
  unfold quantize. cbv zeta.
  destruct (Z.abs (coef d) =? 0) eqn:E0.
  - intros [= <-]. reflexivity.
  - destruct (prec <? _) eqn:E1; [discriminate|].
    destruct (prec <? ndigits _) eqn:E2; [discriminate|].
    intros [= <-]. cbn [coef expo].
    apply Z.eqb_neq in E0.
    pose proof (rescale_nonneg d e) as Hq.
    set (q := rescale_half_up d e) in *.
    assert (A : Z.abs (Z.sgn (coef d) * q) = q).
    { rewrite Z.abs_mul. assert (Z.abs (Z.sgn (coef d)) = 1) by lia. lia. }
    rewrite A. destruct (q =? 0) eqn:Eq.
    + apply Z.eqb_eq in Eq. rewrite Eq, Z.mul_0_r. reflexivity.
    + assert (R : rescale_half_up {| coef := Z.sgn (coef d) * q; expo := e |} e = q).
      { unfold rescale_half_up. cbn [coef expo].
        rewrite Z.leb_refl, A, Z.sub_diag. apply Z.mul_1_r. }
      rewrite R. replace (ndigits q + e - e) with (ndigits q) by lia.
      rewrite E2. do 2 f_equal. rewrite Z.sgn_mul.
      assert (Z.sgn q = 1) by (apply Z.eqb_neq in Eq; lia).
      rewrite H, Z.mul_1_r. f_equal. apply Z.sgn_sgn.
Qed.


Lemma quantize_error_bound_witness :
  let d := {| coef := -12345; expo := -3 |} in
  let r := {| coef := -1235; expo := -2 |} in
  expo r = -2
  /\ (-2 <= expo d -> coef r = coef d * 10 ^ (expo d - -2))
  /\ (expo d < -2 ->
      2 * Z.abs (coef d - coef r * 10 ^ (-2 - expo d)) <= 10 ^ (-2 - expo d)
      /\ (2 * (Z.abs (coef d) mod 10 ^ (-2 - expo d)) = 10 ^ (-2 - expo d) ->
          Z.abs (coef r) = Z.abs (coef d) / 10 ^ (-2 - expo d) + 1)).
Proof.
  cbv zeta.
  apply (quantize_error_bound {| coef := -12345; expo := -3 |}
           {| coef := -1235; expo := -2 |} (-2)).
  reflexivity.
Defined.

Lemma quantize_idempotent_witness :
  to_cents {| coef := -1235; expo := -2 |} = Some {| coef := -1235; expo := -2 |}.
Proof.
  apply (quantize_idempotent {| coef := -12345; expo := -3 |}
           {| coef := -1235; expo := -2 |} (-2)).
  reflexivity.
Defined.


End QuantizeProperties.

(** ** Paths and labels *)

Module PathFacts.
Import PyStr PyPath RegexFacts StrFacts.
Local Open Scope string_scope.

Lemma drop_app_exact (a b : string) : drop (String.length a) (a +:+ b) = b.
Proof. induction a as [|c a IH]; simpl; [now destruct b | exact IH]. Qed.

Lemma drop_app_cons (a b : string) (c : ascii) :
  drop (S (String.length a)) (a +:+ String c b) = b.
Proof. induction a as [|x a IH]; simpl; [now destruct b | exact IH]. Qed.

Lemma substring_all (b : string) : substring 0 (String.length b) b = b.
Proof. induction b as [|c b IH]; simpl; [reflexivity | now rewrite IH]. Qed.

Lemma substring_app_exact (a b : string) :
  substring (String.length a) (String.length b) (a +:+ b) = b.
Proof. induction a as [|c a IH]; simpl; [apply substring_all | exact IH]. Qed.

Lemma lower_app (a b : string) : lower (a +:+ b) = lower a +:+ lower b.
Proof. induction a as [|c a IH]; simpl; [reflexivity | now rewrite IH]. Qed.

Lemma length_lower (a : string) : String.length (lower a) = String.length a.
Proof. induction a as [|c a IH]; simpl; [reflexivity | now rewrite IH]. Qed.

Lemma endswith_app (a suffix : string) : endswith suffix (a +:+ suffix) = true.
Proof.
  unfold endswith. rewrite length_app_str.
  replace (String.length a + String.length suffix - String.length suffix)%nat
    with (String.length a) by lia.
  rewrite substring_app_exact, String.eqb_refl, andb_true_r.
  apply Nat.leb_le. lia.
Qed.

Lemma drop_end_app (a suffix : string) :
  UnificarCsvs.drop_end (String.length suffix) (a +:+ suffix) = a.
Proof.
  unfold UnificarCsvs.drop_end. rewrite length_app_str.
  replace (String.length a + String.length suffix - String.length suffix)%nat
    with (String.length a) by lia.
  apply take_app_exact.
Qed.

(** The last component of a path. *)
Lemma basename_plain (name : string) :
  contains "/" name = false -> basename name = name.
Proof.
  intros H. unfold basename, rfind. now rewrite (rfind_absent _ _ _ H).
Qed.

Lemma basename_join (dir name : string) :
  contains "/" name = false -> basename (dir +:+ String "/" name) = name.
Proof.
  intros H. unfold basename, rfind.
  rewrite (rfind_last "/" dir name 0 ltac:(lia) H).
  replace (Z.to_nat (0 + Z.of_nat (String.length dir) + 1))
    with (S (String.length dir)) by lia.
  apply drop_app_cons.
Qed.

Lemma splitext_stem (stem ext : string) :
  truthy stem = true ->
  contains "/" stem = false -> contains "." stem = false ->
  contains "/" ext = false -> contains "." ext = false ->
  splitext (stem +:+ String "." ext) = (stem, String "." ext).
Proof.
  intros Ht S1 D1 S2 D2. unfold splitext, rfind.
  assert (S : contains "/" (stem +:+ String "." ext) = false).
  { rewrite contains_app, S1. cbn [contains]. now rewrite S2. }
  rewrite (rfind_absent _ _ _ S).
  rewrite (rfind_last "." stem ext 0 ltac:(lia) D2).
  assert (L : (-1 <? 0 + Z.of_nat (String.length stem))%Z = true)
    by (apply Z.ltb_lt; lia).
  rewrite L.
  change (Z.to_nat (-1 + 1)) with 0%nat. cbn [drop].
  replace (Z.to_nat (0 + Z.of_nat (String.length stem)))
    with (String.length stem) by lia.
  rewrite Nat.sub_0_r, take_app_exact, drop_app_exact.
  destruct stem as [|c stem]; [discriminate|].
  cbn [forallb_str contains] in *.
  apply orb_false_iff in D1 as [Dc _]. now rewrite Dc.
Qed.

End PathFacts.

Module LabelProperties.
Import PyStr PyPath RegexFacts StrFacts PathFacts GerarCsvMain.
Local Open Scope string_scope.

Lemma slash_lower_char (c : ascii) :
  Ascii.eqb (lower_char c) "/" = Ascii.eqb c "/".
Proof. destruct c as [[] [] [] [] [] [] [] []]; reflexivity. Qed.

Lemma contains_slash_lower (s : string) :
  contains "/" (lower s) = contains "/" s.
Proof.
  induction s as [|c s IH]; simpl; [reflexivity|].
  now rewrite slash_lower_char, IH.
Qed.

Lemma basename_last (pre name : string) :
  pre = "" \/ (exists dir, pre = dir +:+ "/") ->
  contains "/" name = false ->
  basename (pre +:+ name) = name.
Proof.
  intros [->|[dir ->]] H.
  - now apply basename_plain.
  - rewrite app_assoc_str. now apply basename_join.
Qed.

(** X13. The label that [main] derives from an input path is the name
    of the file without its directory and its extension, and without a
    final [_agrupado]. *)
Theorem org_label_of_path (pre label ext : string) :
  pre = "" \/ (exists dir, pre = dir +:+ "/") ->
  truthy label = true ->
  contains "/" label = false -> contains "." label = false ->
  contains "/" ext = false -> contains "." ext = false ->
  (endswith "_agrupado" label = false ->
   _org_label (pre +:+ label +:+ "." +:+ ext) = label)
  /\ _org_label (pre +:+ label +:+ "_agrupado" +:+ "." +:+ ext) = label.
Proof.
  intros Hp Ht S1 D1 S2 D2. split.
  - intros He. unfold _org_label.
    rewrite (basename_last pre _ Hp).
    + change (label +:+ "." +:+ ext) with (label +:+ String "." ext).
      rewrite splitext_stem by assumption. cbn [fst]. now rewrite He.
    + rewrite contains_app, S1. cbn [String.append contains]. now rewrite S2.
  - unfold _org_label.
    rewrite (basename_last pre _ Hp).
    + rewrite <- (app_assoc_str label "_agrupado").
      change ((label +:+ "_agrupado") +:+ "." +:+ ext)
        with ((label +:+ "_agrupado") +:+ String "." ext).
      rewrite splitext_stem; try assumption.
      * cbn [fst]. rewrite endswith_app. apply drop_end_app.
      * now apply truthy_app_l.
      * now rewrite contains_app, S1.
      * now rewrite contains_app, D1.
    + rewrite !contains_app, S1. cbn [String.append contains]. now rewrite S2.
Qed.

Lemma org_label_of_path_witness :
  _org_label ("/data/arquivos_leitura/" +:+ "11802004" +:+ "." +:+ "txt")
  = "11802004"
  /\ _org_label ("" +:+ "11802004" +:+ "_agrupado" +:+ "." +:+ "csv") = "11802004".
Proof.
  split.
  - apply (proj1 (org_label_of_path "/data/arquivos_leitura/" "11802004" "txt"
                    (or_intror (ex_intro _ "/data/arquivos_leitura" eq_refl))
                    eq_refl eq_refl eq_refl eq_refl eq_refl)).
    reflexivity.
  - exact (proj2 (org_label_of_path "" "11802004" "csv" (or_introl eq_refl)
                    eq_refl eq_refl eq_refl eq_refl eq_refl)).
Defined.

(** X14. The origin that the merge tool writes for an input named
    [<label>_agrupado.csv], the suffix in any case and the file in any
    directory, is [<label>]. *)
Theorem origin_of_grouped_file (pre label suffix : string) :
  pre = "" \/ (exists dir, pre = dir +:+ "/") ->
  contains "/" label = false ->
  lower suffix = "_agrupado.csv" ->
  UnificarCsvs.origem basename (pre +:+ label +:+ suffix) = label.
Proof.
  intros Hp S1 Hs. unfold UnificarCsvs.origem.
  assert (S2 : contains "/" suffix = false)
    by now rewrite <- contains_slash_lower, Hs.
  rewrite (basename_last pre _ Hp) by now rewrite contains_app, S1, S2.
  assert (L : String.length suffix = String.length "_agrupado.csv")
    by now rewrite <- Hs, length_lower.
  assert (E : UnificarCsvs.lower_endswith "_agrupado.csv" (label +:+ suffix) = true).
  { unfold UnificarCsvs.lower_endswith. cbv zeta.
    rewrite lower_app, Hs, length_app_str, L.
    replace (String.length label + String.length "_agrupado.csv"
             - String.length "_agrupado.csv")%nat
      with (String.length (lower label)) by (rewrite length_lower; lia).
    rewrite substring_app_exact, String.eqb_refl, andb_true_r.
    apply Nat.leb_le. lia. }
  rewrite E, <- L. apply drop_end_app.
Qed.

Lemma origin_of_grouped_file_witness :
  UnificarCsvs.origem basename ("/out/" +:+ "1802002" +:+ "_Agrupado.CSV")
  = "1802002".
Proof.
  apply (origin_of_grouped_file "/out/" "1802002" "_Agrupado.CSV").
  - right. exists "/out". reflexivity.
  - reflexivity.
  - reflexivity.
Defined.

End LabelProperties.

(** ** The fixed-block and JSON-line variants: totals *)

Module BlockFacts.
Import PyStr Regex PyDecimal RegexFacts GerarCsv11802004 FixedBlockFacts BlockLayout.
Local Open Scope string_scope.
Local Open Scope list_scope.

Lemma scan_filler (junk : list string) :
  filler junk -> forall rest t, scan (junk ++ rest) t = scan rest t.
Proof.
  induction 1 as [|l junk Hl _ IH]; intros rest t; [reflexivity|].
  cbn [app]. rewrite (scan_skip _ _ _ Hl). apply IH.
Qed.

Lemma scan_complete_block (b : Block) (rest : list string) (t : Tables) :
  is_Some (block_fields b) ->
  scan (block_lines b ++ rest) t = scan rest (block_effect t b).
Proof.
  destruct b as [[[l0 l1] l2] l3]. unfold block_effect, block_fields.
  cbn [block_lines app]. intros [x Hx].
  destruct (group_v RE_MATRICULA l0) as [m|] eqn:Em; [|discriminate].
  destruct (group_v RE_NOME l1) as [n|] eqn:En; [|discriminate].
  destruct (group_v RE_CPF l2) as [c|] eqn:Ec; [|discriminate].
  destruct (group_v RE_VALOR l3) as [v|] eqn:Ev; [|discriminate].
  apply (scan_block _ _ _ _ _ _ _ _ _ _ Em En Ec Ev).
Qed.

Lemma scan_layout (items : list (list string * Block)) (tail : list string) :
  Forall (fun it => filler (fst it) /\ is_Some (block_fields (snd it))) items ->
  filler tail ->
  forall t, scan (layout items tail) t = fold_left block_effect (map snd items) t.
Proof.
  intros Hi Ht. unfold layout.
  induction Hi as [|[junk b] items [Hj Hb] _ IH]; intros t.
  - cbn. rewrite <- (app_nil_r tail), (scan_filler _ Ht). reflexivity.
  - cbn [flat_map fst snd map fold_left].
    rewrite <- !app_assoc, (scan_filler _ Hj), (scan_complete_block _ _ _ Hb).
    apply IH.
Qed.

Lemma block_effect_total (t : Tables) (b : Block) (k : string) :
  default (of_Z 0) (totals (block_effect t b) !! k)
  = fold_left add (block_amount k b) (default (of_Z 0) (totals t !! k)).
Proof.
  unfold block_effect, block_amount.
  destruct (block_fields b) as [[[[m n] c] v]|]; [|reflexivity].
  unfold add_block.
  destruct (parse_decimal v) as [[d| |]|]; try (case_decide; reflexivity).
  cbn [totals]. case_decide as E.
  - subst m. now rewrite lookup_insert_eq.
  - now rewrite lookup_insert_ne.
Qed.

Lemma fold_block_total (bs : list Block) (k : string) :
  forall t,
    default (of_Z 0) (totals (fold_left block_effect bs t) !! k)
    = fold_left add (concat (map (block_amount k) bs))
        (default (of_Z 0) (totals t !! k)).
Proof.
  induction bs as [|b bs IH]; intros t; [reflexivity|].
  cbn [fold_left map concat]. rewrite IH, block_effect_total.
  now rewrite fold_left_app.
Qed.

End BlockFacts.

Module BlockProperties.
Import PyStr Regex PyDecimal RegexFacts GerarCsv11802004 BlockLayout BlockFacts.
Local Open Scope string_scope.
Local Open Scope list_scope.

(** X15. On an input made of complete blocks, with lines that are no
    identifier lines before each block and at the end, the loop of the
    fixed-block variant applies the blocks in order, and the total of an
    identifier is the sum, with the addition of [Decimal], of the
    amounts of its blocks in that order. *)
Theorem fixed_block_totals (items : list (list string * Block))
    (tail : list string) (k : string) :
  Forall (fun it => filler (fst it) /\ is_Some (block_fields (snd it))) items ->
  filler tail ->
  main_tables (layout items tail)
  = fold_left block_effect (map snd items) empty_tables
  /\ default (of_Z 0) (totals (main_tables (layout items tail)) !! k)
     = GerarCsv.sum_ctx (concat (map (block_amount k) (map snd items))).
Proof.
  intros Hi Ht. unfold main_tables.
  rewrite (scan_layout items tail Hi Ht). split; [reflexivity|].
  rewrite fold_block_total. reflexivity.
Qed.

Lemma fixed_block_totals_witness :
  let items :=
    [ (["relatorio"], ("matricula: 1", "nome: A", "cpf: 111", "valor: 1,50"));
      ([], ("matricula: 1", "nome: A", "cpf: 111", "valor: 2.25")) ] in
  main_tables (layout items ["fim"])
  = fold_left block_effect (map snd items) empty_tables
  /\ default (of_Z 0) (totals (main_tables (layout items ["fim"])) !! "1")
     = GerarCsv.sum_ctx (concat (map (block_amount "1") (map snd items))).
Proof.
  cbv zeta. apply fixed_block_totals.
  - repeat constructor; vm_compute; eauto.
  - repeat constructor.
Defined.



End BlockProperties.

(** ** The merge tool: the rows written and the files touched *)

Module MergeRows.
Import UnificarCsvs UnificarCsvsFacts.
Local Open Scope string_scope.
Local Open Scope list_scope.


Section Rows.
Variable read_rows : Encoding -> string -> string -> list (gmap string string) * bool.
Variable basename : string -> string.

Abbreviation iter_rows_loop := (UnificarCsvs.iter_rows_loop read_rows).
Abbreviation iter_rows := (UnificarCsvs.iter_rows read_rows).
Abbreviation write_rows := (UnificarCsvs.write_rows read_rows basename).
Abbreviation tag := (UnificarCsvs.tag basename).



End Rows.

End MergeRows.

Module MergeProperties.
Import UnificarCsvs UnificarCsvsFacts MergeRows.
Local Open Scope string_scope.
Local Open Scope list_scope.



(** X18. [unify_csvs] writes no file but the output: whatever happens,
    a path other than the output holds a file with some content
    afterwards exactly when it did before. *)
Theorem unify_csvs_writes_only_output
    (read_sample : Encoding -> string -> option string)
    (sniff : string -> option string)
    (read_header : Encoding -> string -> string -> option (list string))
    (read_sample_replace : string -> string)
    (read_header_replace : string -> string -> list string)
    (read_rows : Encoding -> string -> string -> list (gmap string string) * bool)
    (write_csv : list string -> list (gmap string string) -> string)
    (set_order : list string -> list string)
    (dirname basename : string -> string)
    (fs : gmap string Entry) (inputs : list string) (output : string)
    (add_origin : bool) (p c : string) :
  p <> output ->
  fst (unify_csvs read_sample sniff read_header read_sample_replace
         read_header_replace read_rows write_csv set_order dirname basename
         fs inputs output add_origin) !! p = Some (File c)
  <-> fs !! p = Some (File c).
Proof.
  intros Hp. unfold unify_csvs.
  destruct (collect _ _ _ _ _ fs inputs [] []) as [e|[fi ah]]; [reflexivity|].
  assert (M : forall fs1, makedirs fs (or_dot (dirname output)) = inr fs1 ->
                fs1 !! p = Some (File c) <-> fs !! p = Some (File c)).
  { unfold makedirs. intros fs1.
    destruct (fs !! or_dot (dirname output)) as [[x|]|] eqn:E; try discriminate.
    - now intros [= <-].
    - intros [= <-]. destruct (decide (or_dot (dirname output) = p)) as [<-|Hne].
      + rewrite lookup_insert_eq, E. split; discriminate.
      + now rewrite lookup_insert_ne. }
  destruct (makedirs fs (or_dot (dirname output))) as [e|fs1]; [reflexivity|].
  specialize (M fs1 eq_refl). unfold open_w.
  destruct (fs1 !! output) as [[x|]|]; cbn [fst]; try exact M.
  - destruct (write_rows _ _ _ _ _ _) as [rows e]. cbn [fst].
    rewrite !lookup_insert_ne by congruence. exact M.
  - destruct (write_rows _ _ _ _ _ _) as [rows e]. cbn [fst].
    rewrite !lookup_insert_ne by congruence. exact M.
Qed.

Lemma unify_csvs_writes_only_output_witness :
  let fs : gmap string Entry := {[ "a_agrupado.csv" := File "matricula,total" ]} in
  fst (unify_csvs (fun _ c => Some c) (fun _ => None) (fun _ _ c => Some [c])
         (fun c => c) (fun _ c => [c]) (fun _ _ _ => ([], true))
         (fun _ _ => "") (dedup_first []) (fun _ => "") (fun p => p)
         fs ["a_agrupado.csv"] "merged.csv" true) !! "a_agrupado.csv"
  = Some (File "matricula,total")
  <-> fs !! "a_agrupado.csv" = Some (File "matricula,total").
Proof.
  cbv zeta. apply unify_csvs_writes_only_output. discriminate.
Defined.



End MergeProperties.
